(** * node-gitlab-2-github: a shallow embedding of the migration script

    The script moves milestones, labels, issues (with their notes) and merge
    requests of one GitLab project to a GitHub repository.  The embedding
    follows the JavaScript source function by function:

    - JavaScript strings are [string]s (sequences of 8-bit code units, i.e.
      the strings whose code units lie in the Latin-1 range);
    - a field that may be [null] or [undefined] is an [option];
    - the globals [settings], [gitlab] and [github] are explicit parameters
      (a [Settings] record and a [World] of remote answers);
    - an [async] function is a computation in the monad [Js], which records
      the console output and the remote calls in the order in which the
      script performs them and carries JavaScript exceptions;
    - a promise that the script drops is run where it is dropped, and a
      rejection of it that nothing handles is recorded as such: what the
      runtime does with it (a warning, or the end of the process) is not
      an action of the script. *)

From Stdlib Require Import List String Ascii ZArith Lia Bool Arith.
From Stdlib Require Import DecimalString Sorted Permutation.
From Equations Require Import Equations.
Import ListNotations.
Open Scope string_scope.

(* ===================================================================== *)
(** ** JavaScript string primitives used by the script *)
(* ===================================================================== *)

Module JsString.

(** [WhiteSpace] and [LineTerminator] code units below 256: TAB, LF, VT,
    FF, CR, SP and NBSP.  These are the characters [trim] removes. *)
Definition isWhiteSpace (c : ascii) : bool :=
  let n := nat_of_ascii c in
  (((9 <=? n) && (n <=? 13)) || (n =? 32) || (n =? 160))%nat.

Fixpoint trimStart (s : string) : string :=
  match s with
  | EmptyString => EmptyString
  | String c s' => if isWhiteSpace c then trimStart s' else s
  end.

Definition reverse (s : string) : string :=
  string_of_list_ascii (rev (list_ascii_of_string s)).

Definition trimEnd (s : string) : string :=
  reverse (trimStart (reverse s)).

(** [String.prototype.trim] *)
Definition trim (s : string) : string := trimEnd (trimStart s).

(** A string that does not begin with white space. *)
Definition untrimmable (s : string) : Prop :=
  match s with
  | EmptyString => True
  | String c _ => isWhiteSpace c = false
  end.

(** [hay.indexOf(needle)]: the first position of [needle], or [-1]. *)
Definition indexOf (hay needle : string) : Z :=
  match index 0 needle hay with
  | Some n => Z.of_nat n
  | None => (-1)%Z
  end.

Definition lowerChar (c : ascii) : ascii :=
  let n := nat_of_ascii c in
  if (((65 <=? n) && (n <=? 90))
      || ((192 <=? n) && (n <=? 222) && negb (n =? 215)))%nat
  then ascii_of_nat (n + 32) else c.

(** [String.prototype.toLowerCase] on Latin-1 code units. *)
Fixpoint toLowerCase (s : string) : string :=
  match s with
  | EmptyString => EmptyString
  | String c s' => String (lowerChar c) (toLowerCase s')
  end.

(** [s.substr(1)] *)
Definition substr1 (s : string) : string :=
  match s with
  | EmptyString => EmptyString
  | String _ s' => s'
  end.

(** [s.startsWith(p)] and [s.endsWith(p)] *)
Definition startsWith (s p : string) : bool := prefix p s.
Definition endsWith (s p : string) : bool := prefix (reverse p) (reverse s).

(** [s.substring(0, s.length-1)] *)
Definition dropLast (s : string) : string :=
  substring 0 (String.length s - 1) s.

(** The decimal rendering of an integral number, as in ['MR' + mr.iid]. *)
Definition ofNumber (z : Z) : string := NilZero.string_of_int (Z.to_int z).

(** String concatenation with a possibly missing operand. *)
Definition ofNullable (o : option string) : string :=
  match o with Some s => s | None => "null" end.
Definition ofOptNumber (o : option Z) : string :=
  match o with Some z => ofNumber z | None => "undefined" end.

(** Truthiness of a string value: every string but the empty one. *)
Definition truthy (s : string) : bool := negb (s =? EmptyString).

(** [Array.prototype.join] *)
Fixpoint join (sep : string) (l : list string) : string :=
  match l with
  | [] => EmptyString
  | [x] => x
  | x :: l' => x ++ sep ++ join sep l'
  end.

End JsString.

(* ===================================================================== *)
(** ** [Array.prototype.sort] with a numeric comparator *)
(* ===================================================================== *)

Section Sort.
Context {A : Type}.
Variable cmp : A -> A -> Z.

(** [x] stood in front of every element of [l]: it goes in front of the
    first element it does not compare greater than (stable sort). *)
Fixpoint insertSorted (x : A) (l : list A) : list A :=
  match l with
  | [] => [x]
  | y :: l' => if (cmp x y <=? 0)%Z then x :: y :: l'
               else y :: insertSorted x l'
  end.

Definition jsSort (l : list A) : list A := fold_right insertSorted [] l.
End Sort.

(** The comparator [(a, b) => a.id - b.id]. *)
Definition byId {A : Type} (id : A -> Z) (a b : A) : Z := (id a - id b)%Z.

(* ===================================================================== *)
(** ** Data model *)
(* ===================================================================== *)

(** A GitLab user as it appears in [author] and [assignee]. *)
Record User := { username : string }.

(** A milestone reference carried by an issue. *)
Record MilestoneRef := { mref_title : string }.

(** An element of the [issues] array of [transferIssues]: a fetched GitLab
    issue, or the placeholder object, which has only [title], [description]
    and [state]. *)
Record Issue := {
  issue_id : option Z;
  issue_iid : option Z;
  issue_title : string;
  issue_description : option string;
  issue_state : string;
  issue_author : option User;
  issue_created_at : option string;
  issue_assignee : option User;
  issue_milestone : option MilestoneRef;
  issue_labels : option (list string)
}.

Record Note := {
  note_id : Z;
  note_body : string;
  note_author : option User;
  note_created_at : option string
}.

Record MergeRequest := {
  mr_id : Z;
  mr_iid : Z;
  mr_title : string;
  mr_description : option string;
  mr_state : string;
  mr_source_branch : string;
  mr_target_branch : string;
  mr_sha : string;
  mr_merge_commit_sha : option string
}.

Record Milestone := {
  ms_id : Z;
  ms_title : string;
  ms_description : option string;
  ms_state : string;
  ms_due_date : option string
}.

Record Label := { label_name : string; label_color : string }.

(** Destination objects as the script reads them. *)
Record GhMilestone := { ghm_number : Z; ghm_title : string }.

Record GhIssue := {
  gh_number : Z;
  gh_title : string;
  gh_state : string;
  gh_pull_request : bool
}.

Record GhPullRequest := { ghpr_number : Z; ghpr_title : string }.

(** [settings.gitlab.projectId]: a number, or [undefined] when the
    settings do not have the field ([sample_settings.js] has none of this
    spelling).  A number is read as the project of that number. *)
Inductive ProjectId : Type :=
| ProjectNumber (n : Z)
| ProjectUndefined.
Coercion ProjectNumber : Z >-> ProjectId.
Bind Scope Z_scope with ProjectId.

(** [settings.conversion], with its flag, which may be missing. *)
Record Conversion := { useLowerCaseLabels : option bool }.

(** [settings.js].  The fields that [sample_settings.js] has are taken to
    be there; [gitlab.projectId] and [conversion], which it does not have,
    may be missing.  A map is an object made by an object literal: the
    association list of its own properties in the order of [Object.keys],
    each key once; [None] is a missing map. *)
Record Settings := {
  gitlab_projectId : ProjectId;
  github_owner : string;
  github_repo : string;
  github_username : string;
  conversion : option Conversion;
  usermap : option (list (string * string));
  projectmap : option (list (string * string))
}.

(** The own property [key] of a map: the value of the first entry with
    that key. *)
Fixpoint lookup (m : list (string * string)) (key : string) : option string :=
  match m with
  | [] => None
  | (k, v) :: m' => if k =? key then Some v else lookup m' key
  end.

(** The names that every object made by an object literal inherits from
    [Object.prototype]. *)
Definition inheritedMembers : list string :=
  [ "constructor"; "__defineGetter__"; "__defineSetter__";
    "hasOwnProperty"; "__lookupGetter__"; "__lookupSetter__";
    "isPrototypeOf"; "propertyIsEnumerable"; "toString"; "valueOf";
    "__proto__"; "toLocaleString" ].

(** What a property read [obj[key]] on a map yields: the string of an own
    property, a member of [Object.prototype] (a function, or the prototype
    itself for [__proto__]), or [undefined]. *)
Inductive property : Type :=
| OwnValue (v : string)
| Inherited (name : string)
| Undefined.

(** [obj[key]] on a map: an own property hides an inherited one. *)
Definition getProperty (m : list (string * string)) (key : string)
  : property :=
  match lookup m key with
  | Some v => OwnValue v
  | None =>
      if existsb (String.eqb key) inheritedMembers then Inherited key
      else Undefined
  end.

Definition keys (m : list (string * string)) : list string := map fst m.

(** [m == null || Object.keys(m).length == 0] *)
Definition isEmptyMap (m : option (list (string * string))) : bool :=
  match m with
  | None => true
  | Some l => (List.length (keys l) =? 0)%nat
  end.

(* ===================================================================== *)
(** ** Regular expressions of the note filter *)
(* ===================================================================== *)

Module Regex.

(** The fragment of the regular expressions that [createIssueComments]
    uses: literal characters, [.], concatenation and [*]. *)
Inductive re : Type :=
| Void
| Eps
| Chr (c : ascii)
| Dot
| Seq (r1 r2 : re)
| Alt (r1 r2 : re)
| Star (r : re).

(** A literal piece of a pattern. *)
Fixpoint lit (s : string) : re :=
  match s with
  | EmptyString => Eps
  | String c s' => Seq (Chr c) (lit s')
  end.

(** [.] matches every character but the line terminators. *)
Definition isLineTerminator (c : ascii) : bool :=
  let n := nat_of_ascii c in ((n =? 10) || (n =? 13))%nat.

Fixpoint nullable (r : re) : bool :=
  match r with
  | Void => false
  | Eps => true
  | Chr _ => false
  | Dot => false
  | Seq r1 r2 => nullable r1 && nullable r2
  | Alt r1 r2 => nullable r1 || nullable r2
  | Star _ => true
  end.

(** What remains to be matched after reading [c]. *)
Fixpoint deriv (c : ascii) (r : re) : re :=
  match r with
  | Void => Void
  | Eps => Void
  | Chr d => if Ascii.eqb c d then Eps else Void
  | Dot => if isLineTerminator c then Void else Eps
  | Seq r1 r2 =>
      if nullable r1 then Alt (Seq (deriv c r1) r2) (deriv c r2)
      else Seq (deriv c r1) r2
  | Alt r1 r2 => Alt (deriv c r1) (deriv c r2)
  | Star r1 => Seq (deriv c r1) (Star r1)
  end.

(** Some prefix of [s] matches [r]. *)
Fixpoint matchesPrefix (r : re) (s : string) : bool :=
  nullable r ||
  match s with
  | EmptyString => false
  | String c s' => matchesPrefix (deriv c r) s'
  end.

(** [RegExp.prototype.test] of a pattern without flags: there is a match
    starting at some position of [s]. *)
Fixpoint test (r : re) (s : string) : bool :=
  matchesPrefix r s ||
  match s with
  | EmptyString => false
  | String _ s' => test r s'
  end.

(** The strings that a regular expression matches as a whole. *)
Inductive matches : re -> string -> Prop :=
| MEps : matches Eps EmptyString
| MChr (c : ascii) : matches (Chr c) (String c EmptyString)
| MDot (c : ascii) : isLineTerminator c = false -> matches Dot (String c EmptyString)
| MSeq (r1 r2 : re) (s1 s2 : string) :
    matches r1 s1 -> matches r2 s2 -> matches (Seq r1 r2) (s1 ++ s2)
| MAltL (r1 r2 : re) (s : string) : matches r1 s -> matches (Alt r1 r2) s
| MAltR (r1 r2 : re) (s : string) : matches r2 s -> matches (Alt r1 r2) s
| MStarNil (r : re) : matches (Star r) EmptyString
| MStarApp (r : re) (s1 s2 : string) :
    matches r s1 -> matches (Star r) s2 -> matches (Star r) (s1 ++ s2).

(** [s] has the piece [p] somewhere in it. *)
Definition contains (s p : string) : Prop :=
  exists before after, s = before ++ p ++ after.

End Regex.

(* ===================================================================== *)
(** ** Effects: console, remote calls, exceptions *)
(* ===================================================================== *)

(** JavaScript exceptions; [ApiError] is a rejection of a remote call. *)
Inductive error : Type :=
| TypeError (message : string)
| ReferenceError (message : string)
| ApiError (message : string).

Definition err_message (e : error) : string :=
  match e with
  | TypeError m => m
  | ReferenceError m => m
  | ApiError m => m
  end.

(** The argument objects of the destination calls. *)
Record MilestoneProps := {
  mp_owner : string; mp_repo : string; mp_title : string;
  mp_description : option string; mp_state : string;
  mp_due_on : option string
}.

Record LabelProps := {
  lp_owner : string; lp_repo : string; lp_name : string; lp_color : string
}.

Record IssueProps := {
  ip_owner : string; ip_repo : string; ip_title : string;
  ip_body : option string;
  ip_assignees : option (list string);
  ip_milestone : option Z;
  ip_labels : option (list string)
}.

Record CommentProps := {
  cp_owner : string; cp_repo : string; cp_number : Z;
  cp_body : option string
}.

Record EditProps := {
  ep_owner : string; ep_repo : string; ep_number : Z; ep_state : string
}.

Record ReferenceProps := {
  rp_owner : string; rp_repo : string; rp_ref : string;
  rp_sha : option string
}.

Record PullRequestProps := {
  pp_owner : string; pp_repo : string; pp_title : string;
  pp_body : option string; pp_head : string; pp_base : string
}.

Inductive request : Type :=
| GlProjectMilestonesAll (projectId : ProjectId)
| GlLabelsAll (projectId : ProjectId)
| GlIssuesAll (projectId : ProjectId)
| GlMergeRequestsAll (projectId : ProjectId)
| GlIssueNotesAll (projectId : ProjectId) (iid : option Z)
| GlCommitsShow (projectId : ProjectId) (sha : option string)
| GhGetRateLimit
| GhGetMilestones (owner repo : string)
| GhGetLabels (owner repo : string)
| GhGetForRepo (owner repo : string) (page : positive)
| GhCreateMilestone (p : MilestoneProps)
| GhCreateLabel (p : LabelProps)
| GhCreateIssue (p : IssueProps)
| GhCreateComment (p : CommentProps)
| GhEditIssue (p : EditProps)
| GhCreateReference (p : ReferenceProps)
| GhCreatePullRequest (p : PullRequestProps).

(** What the script does, in order.  [Call r] is a remote call whose
    promise the script awaits: the call has completed when the next event
    happens.  [Detached r] is a remote call that is started while its
    promise is dropped: the script goes on without waiting for it and never
    sees its outcome.  [Unhandled err] says that the promise dropped just
    before it is rejected with [err] and that nothing handles the
    rejection.  The rejection reaches the runtime at some later time, when
    the answer has come: Node before version 15 prints a warning, Node from
    version 15 on ends the process there with exit code 1, so that of the
    events behind an [Unhandled] only a part may happen. *)
Inductive event : Type :=
| ConsoleLog (msg : string)
| ConsoleError (msg : string)
| ConsoleErrorObj (err : error)
| Call (r : request)
| Detached (r : request)
| Unhandled (err : error).

(** How a computation of the script ends: normally, with an exception, or
    by a call of [process.exit], which no handler catches. *)
Inductive outcome (A : Type) : Type :=
| Return (a : A)
| Throw (e : error)
| Exit (code : Z).
Arguments Return {A} a.
Arguments Throw {A} e.
Arguments Exit {A} code.

(** A computation: the events it performs and how it ends. *)
Definition Js (A : Type) : Type := (list event * outcome A)%type.

Definition trace {A : Type} (m : Js A) : list event := fst m.
Definition result {A : Type} (m : Js A) : outcome A := snd m.

Definition ret {A : Type} (a : A) : Js A := ([], Return a).
Definition throw {A : Type} (e : error) : Js A := ([], Throw e).
Definition exit {A : Type} (code : Z) : Js A := ([], Exit code).

Definition bind {A B : Type} (m : Js A) (k : A -> Js B) : Js B :=
  match m with
  | (t, Return a) => let (t', r) := k a in ((t ++ t')%list, r)
  | (t, Throw e) => (t, Throw e)
  | (t, Exit c) => (t, Exit c)
  end.

Notation "x <- m ;; k" := (bind m (fun x => k))
  (at level 61, m at next level, right associativity).
Notation "m ;;; k" := (bind m (fun _ => k))
  (at level 61, right associativity).

(** [try { m } catch (err) { handler err }] *)
Definition tryCatch {A : Type} (m : Js A) (handler : error -> Js A) : Js A :=
  match m with
  | (t, Throw e) => let (t', r) := handler e in ((t ++ t')%list, r)
  | _ => m
  end.

Definition emit (e : event) : Js unit := ([e], Return tt).
Definition console_log (msg : string) : Js unit := emit (ConsoleLog msg).
Definition console_error (msg : string) : Js unit := emit (ConsoleError msg).
Definition console_error_obj (err : error) : Js unit :=
  emit (ConsoleErrorObj err).

(** [await client.call(args)]: the call is made and its answer awaited; a
    rejection is thrown at the [await]. *)
Definition await {A : Type} (r : request) (answer : error + A) : Js A :=
  ([Call r], match answer with inl e => Throw e | inr a => Return a end).

(** An exception of a pure computation. *)
Definition liftE {A : Type} (x : error + A) : Js A :=
  match x with inl e => throw e | inr a => ret a end.

Definition detachEvent (e : event) : event :=
  match e with
  | Call r => Detached r
  | _ => e
  end.

(** Calling an [async] function and dropping the promise it returns: what
    it does is done (every function dropped in the script makes its one
    remote call before its first suspension), nothing waits for the call
    and the outcome is lost to the caller, which goes on.  A rejection of
    the dropped promise has no handler: it is recorded as [Unhandled].
    (No function that the script drops calls [process.exit].) *)
Definition dropPromise {A : Type} (m : Js A) : Js unit :=
  ((map detachEvent (trace m)
    ++ match result m with
       | Throw err => [Unhandled err]
       | _ => []
       end)%list,
   Return tt).

(** [for (let x of l) { body x }] *)
Fixpoint forOf {A : Type} (l : list A) (body : A -> Js unit) : Js unit :=
  match l with
  | [] => ret tt
  | x :: l' => body x ;;; forOf l' body
  end.

(** The answers of the two remote services.  An answer depends on the
    request only.  [gh_issues] is the list of all issues of a destination
    repository, or the error of asking for them; GitHub serves it page by
    page. *)
Record World := {
  gl_milestones : ProjectId -> error + list Milestone;
  gl_labels : ProjectId -> error + list Label;
  gl_issues : ProjectId -> error + list Issue;
  gl_mergeRequests : ProjectId -> error + list MergeRequest;
  gl_issueNotes : ProjectId -> option Z -> error + list Note;
  gl_commitParents : ProjectId -> option string -> error + list string;
  gh_rateLimit : error + (Z * Z);
  gh_milestones : string -> string -> error + list GhMilestone;
  gh_labelNames : string -> string -> error + list string;
  gh_issues : string -> string -> error + list GhIssue;
  gh_createMilestone : MilestoneProps -> error + unit;
  gh_createLabel : LabelProps -> error + unit;
  gh_createIssue : IssueProps -> error + GhIssue;
  gh_createComment : CommentProps -> error + unit;
  gh_editIssue : EditProps -> error + unit;
  gh_createReference : ReferenceProps -> error + unit;
  gh_createPullRequest : PullRequestProps -> error + unit
}.

(* ===================================================================== *)
(** ** The text transformer *)
(* ===================================================================== *)

(** The line feed of ["\n"]. *)
Definition nl : string := String (ascii_of_nat 10) EmptyString.

(** What [addMigrationLine] reads of its [item] argument (an issue or a
    note). *)
Record Item := { item_author : option User; item_created_at : option string }.

Definition issueItem (issue : Issue) : Item :=
  {| item_author := issue_author issue;
     item_created_at := issue_created_at issue |}.

Definition noteItem (note : Note) : Item :=
  {| item_author := note_author note;
     item_created_at := note_created_at note |}.

(** [new RegExp(reString, 'g')] for a source whose alternatives are taken
    literally: the pieces of [reString] between the [|] signs, in order.
    (The map keys are pasted into the source unescaped; the reading is
    exact for keys without regular-expression operators.) *)
Fixpoint splitAlternatives (reString : string) : list string :=
  match reString with
  | EmptyString => [EmptyString]
  | String c s' =>
      if Ascii.eqb c "|"%char then EmptyString :: splitAlternatives s'
      else match splitAlternatives s' with
           | a :: l => String c a :: l
           | [] => [String c EmptyString]
           end
  end.

(** The alternative that matches at the start of [s]: the first one, in the
    order of the alternation, that is a prefix of [s]. *)
Definition firstMatch (alts : list string) (s : string) : option string :=
  find (fun a => prefix a s) alts.

(** [s.replace(re, callback)] for a global [re]: scan [s] from the left;
    where an alternative matches, the callback's string replaces the match
    and the scan resumes behind it (one character further on after an empty
    match); [skip] counts the characters of the current match still to be
    passed over.  An exception of the callback ends the scan. *)
Fixpoint replaceFrom (alts : list string) (callback : string -> error + string)
    (skip : nat) (s : string) {struct s} : error + string :=
  match skip with
  | S k =>
      match s with
      | EmptyString => inr EmptyString
      | String _ s' => replaceFrom alts callback k s'
      end
  | O =>
      match firstMatch alts s with
      | Some matched =>
          match callback matched with
          | inl e => inl e
          | inr replacement =>
              match s with
              | EmptyString => inr replacement
              | String c s' =>
                  match replaceFrom alts callback
                          (String.length matched - 1) s' with
                  | inl e => inl e
                  | inr rest =>
                      inr (replacement ++
                           (if matched =? EmptyString then String c rest else rest))
                  end
              end
          end
      | None =>
          match s with
          | EmptyString => inr EmptyString
          | String c s' =>
              match replaceFrom alts callback 0 s' with
              | inl e => inl e
              | inr rest => inr (String c rest)
              end
          end
      end
  end.

Definition replaceGlobal (s : string) (alts : list string)
    (callback : string -> error + string) : error + string :=
  replaceFrom alts callback 0 s.

(** A property read [obj[key]] pasted into a string: the string itself,
    the source text of an inherited function as Node prints it, or
    [undefined]. *)
Definition ofProperty (p : property) : string :=
  match p with
  | OwnValue v => v
  | Inherited name =>
      if name =? "__proto__" then "[object Object]"
      else "function "
           ++ (if name =? "constructor" then "Object" else name)
           ++ "() { [native code] }"
  | Undefined => "undefined"
  end.


(* ===================================================================== *)
(** ** The gap-filling pass of [transferIssues] *)
(* ===================================================================== *)

(** [issues.splice(i, 0, item)] *)
Definition splice {A : Type} (l : list A) (i : nat) (item : A) : list A :=
  (firstn i l ++ item :: skipn i l)%list.

(** Remembers the equation of a case analysis for a termination proof. *)
Definition inspect {A : Type} (a : A) : {b : A | a = b} := exist _ a eq_refl.

Definition placeholderItem : Issue :=
  {| issue_id := None;
     issue_iid := None;
     issue_title := "placeholder issue for issue which does not exist and was probably deleted in GitLab";
     issue_description := Some "This is to ensure the issue numbers in GitLab and GitHub are the same";
     issue_state := "closed";
     issue_author := None;
     issue_created_at := None;
     issue_assignee := None;
     issue_milestone := None;
     issue_labels := None |}.

(** [issues[i].iid != expectedIdx]; a missing [iid] differs from every
    number. *)
Definition iidDiffers (it : Issue) (expectedIdx : Z) : bool :=
  match issue_iid it with
  | Some n => negb (n =? expectedIdx)%Z
  | None => true
  end.

(** The loop
    [for (let i=0; i<issues.length; i++) { if (gap) { splice; i++; log } }]
    from the state [(issues, i)]; it returns the array as it is when the
    loop ends.  The distance from [i] to the end of the array decreases
    at every turn, also when the array grows. *)
Equations? gapLoop (issues : list Issue) (i : nat) : Js (list Issue)
  by wf (List.length issues - i) lt :=
gapLoop issues i with inspect (nth_error issues i) := {
  | exist _ None _ => ret issues
  | exist _ (Some it) _ with inspect (iidDiffers it (Z.of_nat i + 1)) := {
    | exist _ true _ =>
        console_log ("Added placeholder issue for GitLab issue #"
                     ++ JsString.ofNumber (Z.of_nat i + 1)) ;;;
        gapLoop (splice issues i placeholderItem) (S (S i))
    | exist _ false _ => gapLoop issues (S i) } }.
Proof.
  - assert (i < List.length issues)
      by (apply nth_error_Some; congruence).
    unfold splice. rewrite length_app. simpl.
    rewrite length_firstn, length_skipn. lia.
  - assert (i < List.length issues)
      by (apply nth_error_Some; congruence).
    lia.
Qed.

(* ===================================================================== *)
(** ** The functions of the script *)
(* ===================================================================== *)

Section Script.

Import JsString.

(** The globals of the script. *)
Variable settings : Settings.
Variable W : World.

(** [new Date(created_at).toLocaleString('en-US', dateformatOptions)] *)
Variable formatDate : string -> string.

Definition inform (msg : string) : Js unit :=
  console_log "====================================" ;;;
  console_log msg ;;;
  console_log "====================================".

(* ------------------------------------------------------------------- *)
(** *** [generateUserProjectRe], [addMigrationLine],
        [convertIssuesAndComments] *)

Definition generateUserProjectRe : list string :=
  let reString := EmptyString in
  let reString :=
    match usermap settings with
    | Some um =>
        if (0 <? List.length (keys um))%nat
        then "@" ++ join "|@" (keys um) else reString
    | None => reString
    end in
  let reString :=
    match projectmap settings with
    | Some pm =>
        if (0 <? List.length (keys pm))%nat
        then (if (0 <? String.length reString)%nat
              then reString ++ "|" else reString)
             ++ join "#|" (keys pm) ++ "#"
        else reString
    | None => reString
    end in
  splitAlternatives reString.

(** [var userProjectRe = generateUserProjectRe();] *)
Definition userProjectRe : list string := generateUserProjectRe.

Definition addMigrationLine (str : option string) (item : option Item)
  : option string :=
  match item with
  | None => str
  | Some it =>
      match item_author it, item_created_at it with
      | Some author, Some created_at =>
          let formattedDate := formatDate created_at in
          Some ("In GitLab by @" ++ username author ++ " on "
                ++ formattedDate ++ nl ++ nl ++ ofNullable str)
      | _, _ => str
      end
  end.

(** The callback of the replacement. *)
Definition renameMatched (matched : string) : error + string :=
  if startsWith matched "@" then
    match usermap settings with
    | Some um => inr ("@" ++ ofProperty (getProperty um (substr1 matched)))
    | None => inl (TypeError "Cannot read property of null")
    end
  else if endsWith matched "#" then
    match projectmap settings with
    | Some pm => inr (ofProperty (getProperty pm (dropLast matched)) ++ "#")
    | None => inl (TypeError "Cannot read property of null")
    end
  else inr matched.

(** In the second branch the string that [replace] returns is not bound
    to anything: the function returns [strWithMigLine] itself. *)
Definition convertIssuesAndComments (str : option string)
    (item : option Item) : error + option string :=
  if isEmptyMap (usermap settings) && isEmptyMap (projectmap settings)
  then inr (addMigrationLine str item)
  else
    let strWithMigLine := addMigrationLine str item in
    match strWithMigLine with
    | None => inl (TypeError "Cannot read property 'replace' of null")
    | Some s =>
        match replaceGlobal s userProjectRe renameMatched with
        | inl e => inl e
        | inr _ => inr strWithMigLine
        end
    end.

(* ------------------------------------------------------------------- *)
(** *** Reading the destination *)

Definition getAllGHMilestones (owner repo : string)
  : Js (list GhMilestone) :=
  tryCatch
    (await (GhGetMilestones owner repo) (gh_milestones W owner repo))
    (fun err =>
       console_error "Could not access all GitHub milestones" ;;;
       console_error_obj err ;;;
       exit 1).

Definition getAllGHLabelNames (owner repo : string) : Js (list string) :=
  tryCatch
    (await (GhGetLabels owner repo) (gh_labelNames W owner repo))
    (fun err =>
       console_error "Could not access all GitHub label names" ;;;
       console_error_obj err ;;;
       exit 1).

Definition perPage : nat := 100.

(** The answer of [github.issues.getForRepo] for one page: the issues of
    the repository from position [perPage * (page - 1)] on, [perPage] of
    them at most. *)
Definition issuesPage (owner repo : string) (page : positive)
  : error + list GhIssue :=
  match gh_issues W owner repo with
  | inl e => inl e
  | inr all =>
      inr (firstn perPage (skipn (perPage * (Pos.to_nat page - 1)) all))
  end.

(** The issues not yet served before [page]. *)
Definition issuesLeft (owner repo : string) (page : positive) : nat :=
  match gh_issues W owner repo with
  | inl _ => 0
  | inr all => List.length all - perPage * (Pos.to_nat page - 1)
  end.

(** The loop [while (true) { ... page++ }] of [getAllGHIssues] from the
    state [(allIssues, page)].  It goes round again after a full page
    only, so it ends when the issues of the repository are used up. *)
Equations? getAllGHIssuesFrom (owner repo : string)
    (allIssues : list GhIssue) (page : positive) : Js (list GhIssue)
  by wf (issuesLeft owner repo page) lt :=
getAllGHIssuesFrom owner repo allIssues page
  with inspect (issuesPage owner repo page) := {
  | exist _ (inl e) _ => await (GhGetForRepo owner repo page) (inl e)
  | exist _ (inr issues) _
    with inspect (List.length issues =? 0)%nat := {
    | exist _ true _ =>
        await (GhGetForRepo owner repo page) (inr issues) ;;;
        ret allIssues
    | exist _ false _
      with inspect (List.length issues <? perPage)%nat := {
      | exist _ true _ =>
          await (GhGetForRepo owner repo page) (inr issues) ;;;
          ret (allIssues ++ issues)%list
      | exist _ false _ =>
          await (GhGetForRepo owner repo page) (inr issues) ;;;
          getAllGHIssuesFrom owner repo (allIssues ++ issues)%list
                             (Pos.succ page) } } }.
Proof.
  unfold issuesPage, issuesLeft in *.
  destruct (gh_issues W owner repo) as [err | all]; [discriminate |].
  assert (E : issues
              = firstn perPage (skipn (perPage * (Pos.to_nat page - 1)) all))
    by congruence.
  assert (Hlen : perPage <= List.length issues)
    by (apply Nat.ltb_ge; assumption).
  rewrite E, length_firstn, length_skipn in Hlen.
  assert (Hpos : 0 < perPage) by (unfold perPage; lia).
  pose proof (Pos2Nat.is_pos page) as Hpage.
  rewrite Pos2Nat.inj_succ.
  replace (S (Pos.to_nat page) - 1) with (S (Pos.to_nat page - 1)) by lia.
  rewrite Nat.mul_succ_r. lia.
Qed.

Definition getAllGHIssues (owner repo : string) : Js (list GhIssue) :=
  getAllGHIssuesFrom owner repo [] 1%positive.

Definition getAllGHPullRequests (owner repo : string)
  : Js (list GhPullRequest) :=
  tryCatch
    (result <- getAllGHIssues owner repo ;;
     ret (fold_left
            (fun arr x =>
               if gh_pull_request x
               then (arr ++ [ {| ghpr_number := gh_number x;
                                 ghpr_title := gh_title x |} ])%list
               else arr)
            result []))
    (fun err =>
       console_error "Could not access all GitHub pull requests!" ;;;
       console_error_obj err ;;;
       exit 1).

(* ------------------------------------------------------------------- *)
(** *** Creating destination objects *)

Definition createMilestone (owner repo : string) (milestone : Milestone)
  : Js unit :=
  let ghMilestone :=
    {| mp_owner := owner; mp_repo := repo;
       mp_title := ms_title milestone;
       mp_description := ms_description milestone;
       mp_state := if ms_state milestone =? "active"
                   then "open" else "closed";
       mp_due_on :=
         match ms_due_date milestone with
         | Some d => if truthy d then Some (d ++ "T00:00:00Z") else None
         | None => None
         end |} in
  await (GhCreateMilestone ghMilestone) (gh_createMilestone W ghMilestone).

Definition createLabel (owner repo : string) (label : Label) : Js unit :=
  let ghLabel :=
    {| lp_owner := github_owner settings; lp_repo := github_repo settings;
       lp_name := label_name label;
       lp_color := substr1 (label_color label) |} in
  await (GhCreateLabel ghLabel) (gh_createLabel W ghLabel).

Definition createPR (owner repo : string) (mr : MergeRequest)
    (head base : string) : Js unit :=
  let props :=
    {| pp_owner := owner; pp_repo := repo; pp_title := mr_title mr;
       pp_body := mr_description mr; pp_head := head; pp_base := base |} in
  await (GhCreatePullRequest props) (gh_createPullRequest W props).

Definition createGHBranch (owner repo name : string) (sha : option string)
  : Js unit :=
  tryCatch
    (let ref := "refs/heads/" ++ name in
     let props := {| rp_owner := owner; rp_repo := repo;
                     rp_ref := ref; rp_sha := sha |} in
     await (GhCreateReference props) (gh_createReference W props))
    (fun err =>
       if (indexOf (err_message err) "Reference already exists" >? 0)%Z
       then console_log ("Branch '" ++ name ++ "' already exists!")
       else
         console_error ("Could not create branch '" ++ name ++ "' at "
                        ++ ofNullable sha) ;;;
         console_error_obj err).

(** [settings.usermap && settings.usermap[name]] as a condition: an own
    string that is not empty, or any inherited member. *)
Definition usermapHas (name : string) : bool :=
  match usermap settings with
  | Some um =>
      match getProperty um name with
      | OwnValue v => truthy v
      | Inherited _ => true
      | Undefined => false
      end
  | None => false
  end.

(** [props.body && props.body.indexOf('/uploads/') > -1] *)
Definition hasAttachment (body : option string) : bool :=
  match body with
  | Some b => truthy b && (indexOf b "/uploads/" >? -1)%Z
  | None => false
  end.

Definition createIssue (owner repo : string) (milestones : list GhMilestone)
    (issue : Issue) : Js GhIssue :=
  bodyConverted <-
    liftE (convertIssuesAndComments (issue_description issue)
                                    (Some (issueItem issue))) ;;
  (* Issue Assignee *)
  assignees <-
    match issue_assignee issue with
    | Some assignee =>
        if username assignee =? github_username settings
        then ret (Some [github_username settings])
        else if usermapHas (username assignee)
        then (* [item.assignee.username]: no variable [item] is in scope *)
             throw (ReferenceError "item is not defined")
        else ret (Some [])
    | None => ret None
    end ;;
  (* Issue Milestone *)
  let milestone :=
    match issue_milestone issue with
    | Some im =>
        match find (fun m => ghm_title m =? mref_title im) milestones with
        | Some m => Some (ghm_number m)
        | None => None
        end
    | None => None
    end in
  (* Issue Labels *)
  let labels := issue_labels issue in
  (* Issue Attachments *)
  labels <-
    (if hasAttachment bodyConverted
     then match labels with
          | Some l => ret (Some (l ++ ["has attachment"])%list)
          | None => throw (TypeError "Cannot read property 'push' of undefined")
          end
     else ret labels) ;;
  let props :=
    {| ip_owner := owner; ip_repo := repo;
       ip_title := trim (issue_title issue);
       ip_body := bodyConverted;
       ip_assignees := assignees;
       ip_milestone := milestone;
       ip_labels := labels |} in
  await (GhCreateIssue props) (gh_createIssue W props).

(* ------------------------------------------------------------------- *)
(** *** Notes *)

Definition reStatusChanged : Regex.re :=
  Regex.Seq (Regex.lit "Status changed to ") (Regex.Star Regex.Dot).
Definition reClosedByCommit : Regex.re :=
  Regex.Seq (Regex.lit "Status changed to closed by commit")
            (Regex.Star Regex.Dot).
Definition reChangedMilestone : Regex.re :=
  Regex.Seq (Regex.lit "changed milestone to ") (Regex.Star Regex.Dot).
Definition reMilestoneChanged : Regex.re :=
  Regex.Seq (Regex.lit "Milestone changed to ") (Regex.Star Regex.Dot).
Definition reReassigned : Regex.re := Regex.lit "Reassigned to ".
Definition reAddedLabels : Regex.re :=
  Regex.Seq (Regex.lit "added ")
            (Regex.Seq (Regex.Star Regex.Dot) (Regex.lit " labels")).
Definition reAddedLabel : Regex.re :=
  Regex.Seq (Regex.lit "Added ~")
            (Regex.Seq (Regex.Star Regex.Dot) (Regex.lit " label")).
Definition reMentioned : Regex.re :=
  Regex.Seq (Regex.lit "mentioned in issue") (Regex.Star Regex.Dot).

(** The condition under which a note is not transferred. *)
Definition isStateChangeNote (body : string) : bool :=
  (Regex.test reStatusChanged body
     && negb (Regex.test reClosedByCommit body))
  || Regex.test reChangedMilestone body
  || Regex.test reMilestoneChanged body
  || Regex.test reReassigned body
  || Regex.test reAddedLabels body
  || Regex.test reAddedLabel body
  || Regex.test reMentioned body.

Definition createIssueComments (ghIssue : GhIssue) (issue : Issue)
  : Js unit :=
  tryCatch
    (notes <- await (GlIssueNotesAll (gitlab_projectId settings)
                                     (issue_iid issue))
                    (gl_issueNotes W (gitlab_projectId settings)
                                   (issue_iid issue)) ;;
     if (List.length notes =? 0)%nat then ret tt
     else
       let notes := jsSort (byId note_id) notes in
       forOf notes (fun note =>
         if isStateChangeNote (note_body note) then ret tt
         else
           bodyConverted <-
             liftE (convertIssuesAndComments (Some (note_body note))
                                             (Some (noteItem note))) ;;
           let props :=
             {| cp_owner := github_owner settings;
                cp_repo := github_repo settings;
                cp_number := gh_number ghIssue;
                cp_body := bodyConverted |} in
           tryCatch (await (GhCreateComment props)
                           (gh_createComment W props))
                    (fun _ => ret tt)))
    (fun err =>
       (* [issue.number]: a GitLab issue has no such field *)
       console_error ("Could not fetch notes for GitLab issue #"
                      ++ ofOptNumber None) ;;;
       console_error_obj err).

Definition updateIssueState (ghIssue : GhIssue) (issue : Issue) : Js unit :=
  if negb (issue_state issue =? "closed") || (gh_state ghIssue =? "closed")
  then ret tt
  else
    let props :=
      {| ep_owner := github_owner settings;
         ep_repo := github_repo settings;
         ep_number := gh_number ghIssue;
         ep_state := issue_state issue |} in
    await (GhEditIssue props) (gh_editIssue W props).

Definition createIssueAndComments (owner repo : string)
    (milestones : list GhMilestone) (issue : Issue) : Js unit :=
  ghIssue <- createIssue owner repo milestones issue ;;
  createIssueComments ghIssue issue ;;;
  updateIssueState ghIssue issue.

(* ------------------------------------------------------------------- *)
(** *** Milestones and labels *)

(** [ghMilestones.find(m => m.title === milestone.title)] *)
Definition findGHMilestone (ghMilestones : list GhMilestone)
    (milestone : Milestone) : option GhMilestone :=
  find (fun m => ghm_title m =? ms_title milestone) ghMilestones.

Definition transferMilestones (projectId : ProjectId) : Js unit :=
  milestones <- await (GlProjectMilestonesAll projectId)
                      (gl_milestones W projectId) ;;
  let milestones := jsSort (byId ms_id) milestones in
  ghMilestones <- getAllGHMilestones (github_owner settings)
                                     (github_repo settings) ;;
  inform "Transferring Milestones" ;;;
  forOf milestones (fun milestone =>
    match findGHMilestone ghMilestones milestone with
    | None =>
        console_log ("Creating: " ++ ms_title milestone) ;;;
        tryCatch
          ((* [await (() => { createMilestone(...); })(milestone)]: the
              arrow function has a block body without [return]; calling
              it starts [createMilestone], drops its promise and yields
              [undefined], which [await] passes through *)
           dropPromise (createMilestone (github_owner settings)
                                        (github_repo settings) milestone))
          (fun err =>
             console_error ("Could not create milestone "
                            ++ ms_title milestone) ;;;
             console_error_obj err)
    | Some _ =>
        console_log ("Already exists: " ++ ms_title milestone)
    end).

Definition hasAttachmentLabel : Label :=
  {| label_name := "has attachment"; label_color := "#fbca04" |}.

Definition transferLabels (projectId : ProjectId) (attachmentLabel : bool)
    (useLowerCase : bool) : Js unit :=
  labels <- await (GlLabelsAll projectId) (gl_labels W projectId) ;;
  ghLabels <- getAllGHLabelNames (github_owner settings)
                                 (github_repo settings) ;;
  inform "Transferring Labels" ;;;
  let labels := if attachmentLabel
                then (labels ++ [hasAttachmentLabel])%list else labels in
  forOf labels (fun label =>
    let label :=
      if useLowerCase
      then {| label_name := toLowerCase (label_name label);
              label_color := label_color label |}
      else label in
    (* [!ghLabels.find(l => l === label.name)]: the name found, a string,
       is the condition *)
    if match find (fun l => l =? label_name label) ghLabels with
       | Some l => negb (truthy l)
       | None => true
       end
    then
      console_log ("Creating: " ++ label_name label) ;;;
      tryCatch
        ((* the promise of [createLabel(...).catch(x=>{})] is dropped in
            the same way *)
         dropPromise (tryCatch (createLabel (github_owner settings)
                                            (github_repo settings) label)
                               (fun _ => ret tt)))
        (fun err =>
           console_error ("Could not create label " ++ label_name label) ;;;
           console_error_obj err)
    else console_log ("Already exists: " ++ label_name label)).

(* ------------------------------------------------------------------- *)
(** *** Issues *)

(** The comparator [(a, b) => a.id - b.id] on issues; a difference that
    is not a number counts as [0]. *)
Definition issueCmp (a b : Issue) : Z :=
  match issue_id a, issue_id b with
  | Some x, Some y => (x - y)%Z
  | _, _ => 0%Z
  end.

(** [ghIssues.find(i => i.title.trim() === issue.title.trim())] *)
Definition findGHIssue (ghIssues : list GhIssue) (issue : Issue)
  : option GhIssue :=
  find (fun i => trim (gh_title i) =? trim (issue_title issue)) ghIssues.

Definition transferIssues (owner repo : string) (projectId : ProjectId)
  : Js unit :=
  milestoneData <- getAllGHMilestones owner repo ;;
  issues <- await (GlIssuesAll projectId) (gl_issues W projectId) ;;
  let issues := jsSort issueCmp issues in
  ghIssues <- getAllGHIssues (github_owner settings)
                             (github_repo settings) ;;
  inform ("Transferring " ++ ofNumber (Z.of_nat (List.length issues))
          ++ " Issues") ;;;
  issues <- gapLoop issues 0 ;;
  forOf issues (fun issue =>
    match findGHIssue ghIssues issue with
    | None =>
        console_log ("Creating: " ++ ofOptNumber (issue_iid issue) ++ " - "
                     ++ issue_title issue) ;;;
        tryCatch
          (createIssueAndComments (github_owner settings)
                                  (github_repo settings) milestoneData issue)
          (fun err =>
             console_error ("Could not create issue: "
                            ++ ofOptNumber (issue_iid issue) ++ " - "
                            ++ issue_title issue) ;;;
             console_error_obj err)
    | Some ghIssue =>
        console_log ("Already exists: " ++ ofOptNumber (issue_iid issue)
                     ++ " - " ++ issue_title issue) ;;;
        (* [updateIssueState(ghIssue, issue);] without [await] *)
        dropPromise (updateIssueState ghIssue issue)
    end).

(* ------------------------------------------------------------------- *)
(** *** Merge requests *)

Definition createPRAndComments (owner repo : string) (mr : MergeRequest)
  : Js unit :=
  (* TEMP *)
  if negb (mr_iid mr =? 1)%Z then ret tt
  else if negb (mr_state mr =? "merged") && negb (mr_state mr =? "open")
  then ret tt
  else
    let baseRef := "MR" ++ ofNumber (mr_iid mr) ++ "-"
                   ++ mr_target_branch mr ++ "-base" in
    let headRef := "MR" ++ ofNumber (mr_iid mr) ++ "-"
                   ++ mr_source_branch mr ++ "-head" in
    createGHBranch owner repo headRef (Some (mr_sha mr)) ;;;
    parent_ids <- await (GlCommitsShow (gitlab_projectId settings)
                                       (mr_merge_commit_sha mr))
                        (gl_commitParents W (gitlab_projectId settings)
                                          (mr_merge_commit_sha mr)) ;;
    let parentCommits :=
      filter (fun sha => negb (sha =? mr_sha mr)) parent_ids in
    let parentCommit :=
      if (List.length parentCommits =? 1)%nat
      then nth_error parentCommits 0 else None in
    createGHBranch owner repo baseRef parentCommit ;;;
    createPR owner repo mr headRef baseRef.

(** [ghPullRequests.find(pr => pr.title === mr.title)] *)
Definition findGHPullRequest (ghPullRequests : list GhPullRequest)
    (mr : MergeRequest) : option GhPullRequest :=
  find (fun pr => ghpr_title pr =? mr_title mr) ghPullRequests.

Definition transferMergeRequests (owner repo : string)
    (projectId : ProjectId)
  : Js unit :=
  mergeRequests <- await (GlMergeRequestsAll 188)
                         (gl_mergeRequests W 188) ;;
  let mergeRequests := jsSort (byId mr_id) mergeRequests in
  ghPullRequests <- getAllGHPullRequests owner repo ;;
  inform ("Transferring "
          ++ ofNumber (Z.of_nat (List.length mergeRequests))
          ++ " Merge Requests") ;;;
  forOf mergeRequests (fun mr =>
    match findGHPullRequest ghPullRequests mr with
    | None =>
        console_log ("Creating PR from !" ++ ofNumber (mr_iid mr) ++ " - "
                     ++ mr_title mr) ;;;
        tryCatch
          (createPRAndComments (github_owner settings)
                               (github_repo settings) mr)
          (fun err =>
             console_error ("Could not create PR from !"
                            ++ ofNumber (mr_iid mr) ++ " - "
                            ++ mr_title mr) ;;;
             console_error_obj err)
    | Some ghPR =>
        console_log ("Already exists as PR" ++ ofNumber (ghpr_number ghPR)
                     ++ " (" ++ ofNumber (mr_iid mr) ++ " - "
                     ++ mr_title mr ++ ")")
    end).

(* ------------------------------------------------------------------- *)
(** *** The whole run *)

Definition rateLine (rate : Z * Z) : string :=
  "  Rate Limit: " ++ ofNumber (fst rate) ++ " / " ++ ofNumber (snd rate).

(** The script calls [migrate()] at top level and gives its promise no
    handler: an exception that leaves [migrate] is a rejection without a
    handler as well. *)
Definition migrate : Js unit :=
  rate <- await GhGetRateLimit (gh_rateLimit W) ;;
  console_log "====================================" ;;;
  console_log "Beginning GitLab to GitHub Migration" ;;;
  console_log (rateLine rate) ;;;
  console_log "====================================" ;;;
  transferMilestones (gitlab_projectId settings) ;;;
  (* [settings.conversion.useLowerCaseLabels]: without [conversion] the
     read is a type error; a flag that is [undefined] leaves the parameter
     of [transferLabels] at its default, [true] *)
  useLowerCase <-
    match conversion settings with
    | Some c =>
        ret (match useLowerCaseLabels c with Some b => b | None => true end)
    | None =>
        throw (TypeError
                 "Cannot read property 'useLowerCaseLabels' of undefined")
    end ;;
  transferLabels (gitlab_projectId settings) true useLowerCase ;;;
  transferIssues (github_owner settings) (github_repo settings)
                 (gitlab_projectId settings) ;;;
  transferMergeRequests (github_owner settings) (github_repo settings)
                        (gitlab_projectId settings) ;;;
  console_log (nl ++ nl ++ "Transfer complete!" ++ nl ++ nl) ;;;
  rate <- await GhGetRateLimit (gh_rateLimit W) ;;
  console_log (rateLine rate).

End Script.

(* ===================================================================== *)
(** ** Definitions of the statements *)
(* ===================================================================== *)

(** What the loop of the gap-filling pass makes of the part [rest] of the
    array that begins at index [i], by recursion on that part. *)
Fixpoint fillFrom (i : nat) (rest : list Issue) : list Issue :=
  match rest with
  | [] => []
  | it :: rest' =>
      if iidDiffers it (Z.of_nat i + 1)
      then placeholderItem :: it :: fillFrom (S (S i)) rest'
      else it :: fillFrom (S i) rest'
  end.

(** A fetched issue without assignee, milestone and labels. *)
Definition sourceIssue (iid : Z) (title : string) : Issue :=
  {| issue_id := Some iid; issue_iid := Some iid; issue_title := title;
     issue_description := Some "text"; issue_state := "open";
     issue_author := Some {| username := "ann" |};
     issue_created_at := Some "2018-03-01T10:00:00Z";
     issue_assignee := None; issue_milestone := None;
     issue_labels := Some [] |}.

(** The iids of [rest] go up from [i+1], the number expected at index [i],
    and no two neighbours are more than one missing number apart. *)
Fixpoint narrowGaps (i : nat) (rest : list Issue) : Prop :=
  match rest with
  | [] => True
  | it :: rest' =>
      (issue_iid it = Some (Z.of_nat i + 1)%Z /\ narrowGaps (S i) rest')
      \/ (issue_iid it = Some (Z.of_nat i + 2)%Z
          /\ narrowGaps (S (S i)) rest')
  end.

(** Every element of [l], whose first index is [i], is the placeholder or
    the issue whose iid is its position counted from one. *)
Definition aligned (i : nat) (l : list Issue) : Prop :=
  forall k x, nth_error l k = Some x ->
    x = placeholderItem \/ issue_iid x = Some (Z.of_nat (i + k) + 1)%Z.

(** Every event of a computation has the property [P]. *)
Definition always {A : Type} (P : event -> Prop) (m : Js A) : Prop :=
  Forall P (trace m).

(* ===================================================================== *)
(** ** Concrete configurations, worlds and items *)
(* ===================================================================== *)

Definition demoSettings : Settings :=
  {| gitlab_projectId := 5;
     github_owner := "octo";
     github_repo := "repo";
     github_username := "migrator";
     conversion := Some {| useLowerCaseLabels := Some true |};
     usermap := Some [("alice", "bob")];
     projectmap := Some [("grp/proj", "Org/proj")] |}.

(** A configuration without user map whose project key begins with [@]. *)
Definition projectOnlySettings : Settings :=
  {| gitlab_projectId := 5;
     github_owner := "octo";
     github_repo := "repo";
     github_username := "migrator";
     conversion := Some {| useLowerCaseLabels := Some true |};
     usermap := None;
     projectmap := Some [("@grp/proj", "Org/proj")] |}.

(** A rendering of dates that ignores the date. *)
Definition demoFormat (created_at : string) : string := "Mar 1, 2018, 10:00".

(** A world with the given source milestones, labels and notes, the given
    parents of every commit, an empty destination, and one answer to every
    write. *)
Definition worldWith (milestones : list Milestone) (labels : list Label)
    (notes : list Note) (parents : list string) (written : error + unit)
  : World :=
  {| gl_milestones := fun _ => inr milestones;
     gl_labels := fun _ => inr labels;
     gl_issues := fun _ => inr [];
     gl_mergeRequests := fun _ => inr [];
     gl_issueNotes := fun _ _ => inr notes;
     gl_commitParents := fun _ _ => inr parents;
     gh_rateLimit := inr (5000, 5000)%Z;
     gh_milestones := fun _ _ => inr [];
     gh_labelNames := fun _ _ => inr [];
     gh_issues := fun _ _ => inr [];
     gh_createMilestone := fun _ => written;
     gh_createLabel := fun _ => written;
     gh_createIssue := fun p =>
       match written with
       | inl e => inl e
       | inr _ => inr {| gh_number := 1; gh_title := ip_title p;
                         gh_state := "open"; gh_pull_request := false |}
       end;
     gh_createComment := fun _ => written;
     gh_editIssue := fun _ => written;
     gh_createReference := fun _ => written;
     gh_createPullRequest := fun _ => written |}.

(** A world with the given source issues, none of which has notes, and
    the given destination issues, in which every write succeeds. *)
Definition issuesWorld (issues : list Issue) (ghIssues : list GhIssue)
  : World :=
  {| gl_milestones := fun _ => inr [];
     gl_labels := fun _ => inr [];
     gl_issues := fun _ => inr issues;
     gl_mergeRequests := fun _ => inr [];
     gl_issueNotes := fun _ _ => inr [];
     gl_commitParents := fun _ _ => inr [];
     gh_rateLimit := inr (5000, 5000)%Z;
     gh_milestones := fun _ _ => inr [];
     gh_labelNames := fun _ _ => inr [];
     gh_issues := fun _ _ => inr ghIssues;
     gh_createMilestone := fun _ => inr tt;
     gh_createLabel := fun _ => inr tt;
     gh_createIssue := fun p =>
       inr {| gh_number := 1; gh_title := ip_title p;
              gh_state := "open"; gh_pull_request := false |};
     gh_createComment := fun _ => inr tt;
     gh_editIssue := fun _ => inr tt;
     gh_createReference := fun _ => inr tt;
     gh_createPullRequest := fun _ => inr tt |}.

(** The titles of the issues that a trace creates, in order: the first is
    given the lowest free number of the destination, and so on. *)
Fixpoint createdTitles (t : list event) : list string :=
  match t with
  | [] => []
  | Call (GhCreateIssue p) :: t' => ip_title p :: createdTitles t'
  | _ :: t' => createdTitles t'
  end.

Definition mergedRequest (iid : Z) : MergeRequest :=
  {| mr_id := (100 + iid)%Z; mr_iid := iid; mr_title := "Add feature";
     mr_description := Some "text"; mr_state := "merged";
     mr_source_branch := "feature"; mr_target_branch := "master";
     mr_sha := "aaa111"; mr_merge_commit_sha := Some "ccc333" |}.

Definition milestoneV1 : Milestone :=
  {| ms_id := 1; ms_title := "v1"; ms_description := Some "first";
     ms_state := "active"; ms_due_date := None |}.

Definition labelBug : Label :=
  {| label_name := "Bug"; label_color := "#ff0000" |}.

Definition assignedIssue (assignee : string)
    (labels : option (list string)) (description : string) : Issue :=
  {| issue_id := Some 7%Z; issue_iid := Some 1%Z; issue_title := " Crash ";
     issue_description := Some description; issue_state := "open";
     issue_author := Some {| username := "ann" |};
     issue_created_at := Some "2018-03-01T10:00:00Z";
     issue_assignee := Some {| username := assignee |};
     issue_milestone := None;
     issue_labels := labels |}.

Definition noteWith (id : Z) (body : string) : Note :=
  {| note_id := id; note_body := body;
     note_author := Some {| username := "ann" |};
     note_created_at := Some "2018-03-02T10:00:00Z" |}.

Definition openGhIssue (number : Z) (title state : string) : GhIssue :=
  {| gh_number := number; gh_title := title; gh_state := state;
     gh_pull_request := false |}.

(** The source items that a destination title list marks as present when
    titles are compared after [trim] on both sides. *)
Definition trimmedTitleIn (titles : list string) (title : string) : Prop :=
  exists t, In t titles /\ JsString.trim t = JsString.trim title.

(** A world in which every write to the destination is rejected. *)
Definition rejectingWorld : World :=
  worldWith [milestoneV1] [labelBug] [] []
            (inl (ApiError "Validation Failed")).

(** What the migrators of milestones and labels can be seen to do: they
    never wait for a creation and the only failure they report is that of
    reading the destination. *)
Definition unnoticed (e : event) : Prop :=
  match e with
  | Call (GhCreateMilestone _) => False
  | Call (GhCreateLabel _) => False
  | ConsoleError msg =>
      msg = "Could not access all GitHub milestones"
      \/ msg = "Could not access all GitHub label names"
  | _ => True
  end.

(** The notes of an issue that pass the filter, in the order of the loop. *)
Definition keptNotes (notes : list Note) : list Note :=
  filter (fun note => negb (isStateChangeNote (note_body note)))
         (jsSort (byId note_id) notes).

(** The call that transfers a note to the destination issue. *)
Definition commentCall (settings : Settings) (formatDate : string -> string)
    (ghIssue : GhIssue) (note : Note) : event :=
  Call (GhCreateComment
          {| cp_owner := github_owner settings;
             cp_repo := github_repo settings;
             cp_number := gh_number ghIssue;
             cp_body := addMigrationLine formatDate (Some (note_body note))
                                         (Some (noteItem note)) |}).

(** Every edit of a destination issue sets its state to [closed]. *)
Definition editsClose (e : event) : Prop :=
  match e with
  | Call (GhEditIssue p) => ep_state p = "closed"
  | Detached (GhEditIssue p) => ep_state p = "closed"
  | _ => True
  end.

(** The state of the destination issue [number] after the edits of a
    trace, from the state [state]. *)
Fixpoint stateAfter (number : Z) (state : string) (t : list event) : string :=
  match t with
  | [] => state
  | Call (GhEditIssue p) :: t' =>
      stateAfter number
        (if (ep_number p =? number)%Z then ep_state p else state) t'
  | Detached (GhEditIssue p) :: t' =>
      stateAfter number
        (if (ep_number p =? number)%Z then ep_state p else state) t'
  | _ :: t' => stateAfter number state t'
  end.

(** The edit that closes a destination issue. *)
Definition closingEdit (settings : Settings) (ghIssue : GhIssue) : event :=
  Call (GhEditIssue {| ep_owner := github_owner settings;
                       ep_repo := github_repo settings;
                       ep_number := gh_number ghIssue;
                       ep_state := "closed" |}).

(** The assignee step of [createIssue] takes the branch of the user map. *)
Definition assigneeMapped (settings : Settings) (issue : Issue) : bool :=
  match issue_assignee issue with
  | Some assignee =>
      negb (username assignee =? github_username settings)
      && usermapHas settings (username assignee)
  | None => false
  end.

(* ===================================================================== *)
(** ** Views of a trace *)
(* ===================================================================== *)

(** The remote calls of a trace that the script waits for, in order. *)
Fixpoint calls (t : list event) : list request :=
  match t with
  | [] => []
  | Call r :: t' => r :: calls t'
  | _ :: t' => calls t'
  end.

(** The remote calls of a trace that are started and not waited for. *)
Fixpoint detached (t : list event) : list request :=
  match t with
  | [] => []
  | Detached r :: t' => r :: detached t'
  | _ :: t' => detached t'
  end.

(** The lines that a trace writes with [console.log]. *)
Fixpoint logged (t : list event) : list string :=
  match t with
  | [] => []
  | ConsoleLog msg :: t' => msg :: logged t'
  | _ :: t' => logged t'
  end.

(** The rejections of a trace that nothing handles. *)
Fixpoint unhandled (t : list event) : list error :=
  match t with
  | [] => []
  | Unhandled err :: t' => err :: unhandled t'
  | _ :: t' => unhandled t'
  end.

(** What a dropped promise leaves behind when its request is answered
    with [answer] and nothing handles a rejection. *)
Definition rejection {A : Type} (answer : error + A) : list event :=
  match answer with
  | inl err => [Unhandled err]
  | inr _ => []
  end.

(** The error with which a request is refused, if it is. *)
Definition refusal {A : Type} (answer : error + A) : list error :=
  match answer with
  | inl err => [err]
  | inr _ => []
  end.

(** An event other than a rejection that nothing handles. *)
Definition settled (e : event) : Prop :=
  match e with
  | Unhandled _ => False
  | _ => True
  end.

(** A computation that does not end in a call of [process.exit]. *)
Definition noExit {A : Type} (m : Js A) : Prop :=
  forall code, result m <> Exit code.

(** The requests for the pages [first], [first + 1], ... ([count] of them)
    of the destination issues. *)
Definition pageCalls (owner repo : string) (first count : nat)
  : list event :=
  map (fun k => Call (GhGetForRepo owner repo (Pos.of_nat k)))
      (seq first count).

(** The entry that [getAllGHPullRequests] makes of a destination issue. *)
Definition asPullRequest (x : GhIssue) : GhPullRequest :=
  {| ghpr_number := gh_number x; ghpr_title := gh_title x |}.

(** A world in which the issues of the destination cannot be listed. *)
Definition unlistableWorld : World :=
  {| gl_milestones := fun _ => inr [];
     gl_labels := fun _ => inr [];
     gl_issues := fun _ => inr [];
     gl_mergeRequests := fun _ => inr [];
     gl_issueNotes := fun _ _ => inr [];
     gl_commitParents := fun _ _ => inr [];
     gh_rateLimit := inr (5000, 5000)%Z;
     gh_milestones := fun _ _ => inr [];
     gh_labelNames := fun _ _ => inr [];
     gh_issues := fun _ _ => inl (ApiError "Not Found");
     gh_createMilestone := fun _ => inr tt;
     gh_createLabel := fun _ => inr tt;
     gh_createIssue := fun _ => inl (ApiError "Not Found");
     gh_createComment := fun _ => inr tt;
     gh_editIssue := fun _ => inr tt;
     gh_createReference := fun _ => inr tt;
     gh_createPullRequest := fun _ => inr tt |}.

(** A world in which the milestones of the destination cannot be read. *)
Definition unreadableMilestonesWorld : World :=
  {| gl_milestones := fun _ => inr [milestoneV1];
     gl_labels := fun _ => inr [];
     gl_issues := fun _ => inr [];
     gl_mergeRequests := fun _ => inr [];
     gl_issueNotes := fun _ _ => inr [];
     gl_commitParents := fun _ _ => inr [];
     gh_rateLimit := inr (5000, 5000)%Z;
     gh_milestones := fun _ _ => inl (ApiError "Not Found");
     gh_labelNames := fun _ _ => inr [];
     gh_issues := fun _ _ => inr [];
     gh_createMilestone := fun _ => inr tt;
     gh_createLabel := fun _ => inr tt;
     gh_createIssue := fun _ => inl (ApiError "Not Found");
     gh_createComment := fun _ => inr tt;
     gh_editIssue := fun _ => inr tt;
     gh_createReference := fun _ => inr tt;
     gh_createPullRequest := fun _ => inr tt |}.

(** The milestone that [createMilestone] asks the destination for. *)
Definition milestoneProps (owner repo : string) (milestone : Milestone)
  : MilestoneProps :=
  {| mp_owner := owner; mp_repo := repo;
     mp_title := ms_title milestone;
     mp_description := ms_description milestone;
     mp_state := if ms_state milestone =? "active" then "open" else "closed";
     mp_due_on :=
       match ms_due_date milestone with
       | Some d => if JsString.truthy d then Some (d ++ "T00:00:00Z")
                   else None
       | None => None
       end |}.

(** No destination milestone has the title of the source milestone. *)
Definition milestoneMissing (ghMilestones : list GhMilestone)
    (milestone : Milestone) : bool :=
  negb (existsb (fun m => ghm_title m =? ms_title milestone) ghMilestones).

(** The labels that the loop of [transferLabels] goes through. *)
Definition labelsToTransfer (labels : list Label)
    (attachmentLabel useLowerCase : bool) : list Label :=
  map (fun label =>
         if useLowerCase
         then {| label_name := JsString.toLowerCase (label_name label);
                 label_color := label_color label |}
         else label)
      (if attachmentLabel then (labels ++ [hasAttachmentLabel])%list
       else labels).

(** The destination has no label of this name, or the name is empty. *)
Definition labelMissing (ghLabels : list string) (label : Label) : bool :=
  negb (existsb (fun l => l =? label_name label) ghLabels)
  || (label_name label =? EmptyString).

(** The label that [createLabel] asks the destination for. *)
Definition labelProps (settings : Settings) (label : Label) : LabelProps :=
  {| lp_owner := github_owner settings; lp_repo := github_repo settings;
     lp_name := label_name label;
     lp_color := JsString.substr1 (label_color label) |}.

(** A world with the given source milestones and labels and the given
    milestones and label names of the destination. *)
Definition catalogueWorld (milestones : list Milestone)
    (labels : list Label) (ghMilestones : list GhMilestone)
    (ghLabels : list string) : World :=
  {| gl_milestones := fun _ => inr milestones;
     gl_labels := fun _ => inr labels;
     gl_issues := fun _ => inr [];
     gl_mergeRequests := fun _ => inr [];
     gl_issueNotes := fun _ _ => inr [];
     gl_commitParents := fun _ _ => inr [];
     gh_rateLimit := inr (5000, 5000)%Z;
     gh_milestones := fun _ _ => inr ghMilestones;
     gh_labelNames := fun _ _ => inr ghLabels;
     gh_issues := fun _ _ => inr [];
     gh_createMilestone := fun _ => inr tt;
     gh_createLabel := fun _ => inr tt;
     gh_createIssue := fun _ => inl (ApiError "Not Found");
     gh_createComment := fun _ => inr tt;
     gh_editIssue := fun _ => inr tt;
     gh_createReference := fun _ => inr tt;
     gh_createPullRequest := fun _ => inr tt |}.

Definition milestoneV2 : Milestone :=
  {| ms_id := 2; ms_title := "v2"; ms_description := None;
     ms_state := "closed"; ms_due_date := Some "2018-06-30" |}.

(** A closed fetched issue. *)
Definition closedIssue (iid : Z) (title : string) : Issue :=
  {| issue_id := Some iid; issue_iid := Some iid; issue_title := title;
     issue_description := Some "text"; issue_state := "closed";
     issue_author := Some {| username := "ann" |};
     issue_created_at := Some "2018-03-01T10:00:00Z";
     issue_assignee := None; issue_milestone := None;
     issue_labels := Some [] |}.

(** A world in which issues can be created and nothing else works: the
    notes cannot be fetched. *)
Definition noNotesWorld : World :=
  {| gl_milestones := fun _ => inr [];
     gl_labels := fun _ => inr [];
     gl_issues := fun _ => inr [];
     gl_mergeRequests := fun _ => inr [];
     gl_issueNotes := fun _ _ => inl (ApiError "Not Found");
     gl_commitParents := fun _ _ => inr [];
     gh_rateLimit := inr (5000, 5000)%Z;
     gh_milestones := fun _ _ => inr [];
     gh_labelNames := fun _ _ => inr [];
     gh_issues := fun _ _ => inr [];
     gh_createMilestone := fun _ => inr tt;
     gh_createLabel := fun _ => inr tt;
     gh_createIssue := fun p =>
       inr {| gh_number := 1; gh_title := ip_title p;
              gh_state := "open"; gh_pull_request := false |};
     gh_createComment := fun _ => inr tt;
     gh_editIssue := fun _ => inr tt;
     gh_createReference := fun _ => inr tt;
     gh_createPullRequest := fun _ => inr tt |}.

(** The line that [transferIssues] logs for an element of its array. *)
Definition progressLine (ghIssues : list GhIssue) (issue : Issue) : string :=
  match findGHIssue ghIssues issue with
  | None => "Creating: "
  | Some _ => "Already exists: "
  end ++ JsString.ofOptNumber (issue_iid issue) ++ " - " ++ issue_title issue.

(** The edit that [updateIssueState] asks for. *)
Definition closingProps (settings : Settings) (ghIssue : GhIssue)
  : EditProps :=
  {| ep_owner := github_owner settings;
     ep_repo := github_repo settings;
     ep_number := gh_number ghIssue;
     ep_state := "closed" |}.

(** The body of the loop of [transferIssues] over its array. *)
Definition issueTurn (settings : Settings) (W : World)
    (formatDate : string -> string) (milestoneData : list GhMilestone)
    (ghIssues : list GhIssue) (issue : Issue) : Js unit :=
  match findGHIssue ghIssues issue with
  | None =>
      console_log ("Creating: " ++ JsString.ofOptNumber (issue_iid issue)
                   ++ " - " ++ issue_title issue) ;;;
      tryCatch
        (createIssueAndComments settings W formatDate
           (github_owner settings) (github_repo settings)
           milestoneData issue)
        (fun err =>
           console_error ("Could not create issue: "
                          ++ JsString.ofOptNumber (issue_iid issue)
                          ++ " - " ++ issue_title issue) ;;;
           console_error_obj err)
  | Some ghIssue =>
      console_log ("Already exists: "
                   ++ JsString.ofOptNumber (issue_iid issue)
                   ++ " - " ++ issue_title issue) ;;;
      dropPromise (updateIssueState settings W ghIssue issue)
  end.

(** An edit of a destination issue that sets its state to [closed]. *)
Definition isClosingEdit (r : request) : Prop :=
  exists p, r = GhEditIssue p /\ ep_state p = "closed".

(** The lines that the gap-filling pass logs for the part [rest] of the
    array that begins at index [i]: one for each placeholder that
    [fillFrom] puts in. *)
Fixpoint gapLines (i : nat) (rest : list Issue) : list string :=
  match rest with
  | [] => []
  | it :: rest' =>
      if iidDiffers it (Z.of_nat i + 1)
      then ("Added placeholder issue for GitLab issue #"
            ++ JsString.ofNumber (Z.of_nat i + 1))%string
           :: gapLines (S (S i)) rest'
      else gapLines (S i) rest'
  end.

(** [issue] is a fetched issue, not the placeholder: it has an [iid]. *)
Definition fetched (issue : Issue) : bool :=
  match issue_iid issue with
  | Some _ => true
  | None => false
  end.

(** A computation calls [process.exit] with no other code than 1, and
    only when [D] holds. *)
Definition exitsOnly {A : Type} (D : Prop) (m : Js A) : Prop :=
  forall code, result m = Exit code -> code = 1%Z /\ D.

(** A listing of the destination that a whole run reads has failed. *)
Definition listingFailed (settings : Settings) (W : World) : Prop :=
  (exists err, gh_milestones W (github_owner settings) (github_repo settings)
               = inl err)
  \/ (exists err, gh_labelNames W (github_owner settings)
                    (github_repo settings) = inl err)
  \/ (exists err, gh_issues W (github_owner settings) (github_repo settings)
                  = inl err).

(** The reference that [createGHBranch] asks the destination for. *)
Definition branchProps (owner repo name : string) (sha : option string)
  : ReferenceProps :=
  {| rp_owner := owner; rp_repo := repo;
     rp_ref := "refs/heads/" ++ name; rp_sha := sha |}.

(** A world in which everything can be read, in which the destination
    accepts the two kinds of request that the script does not wait for
    (the creation of a milestone, the edit of an issue) and refuses every
    other write. *)
Definition pickyWorld (issues : list Issue) (ghIssues : list GhIssue)
  : World :=
  {| gl_milestones := fun _ => inr [milestoneV1];
     gl_labels := fun _ => inr [labelBug];
     gl_issues := fun _ => inr issues;
     gl_mergeRequests := fun _ => inr [mergedRequest 1];
     gl_issueNotes := fun _ _ => inl (ApiError "Not Found");
     gl_commitParents := fun _ _ => inl (ApiError "Not Found");
     gh_rateLimit := inr (5000, 5000)%Z;
     gh_milestones := fun _ _ => inr [];
     gh_labelNames := fun _ _ => inr [];
     gh_issues := fun _ _ => inr ghIssues;
     gh_createMilestone := fun _ => inr tt;
     gh_createLabel := fun _ => inl (ApiError "Validation Failed");
     gh_createIssue := fun _ => inl (ApiError "Validation Failed");
     gh_createComment := fun _ => inl (ApiError "Validation Failed");
     gh_editIssue := fun _ => inr tt;
     gh_createReference := fun _ => inl (ApiError "Validation Failed");
     gh_createPullRequest := fun _ => inl (ApiError "Validation Failed") |}.

(** A world whose destination refuses every write with [message]. *)
Definition refusingWorld (message : string) (parents : list string)
  : World :=
  worldWith [] [] [] parents (inl (ApiError message)).

(* ===================================================================== *)
(** ** The monad and the gap-filling pass *)
(* ===================================================================== *)

Lemma result_bind {A B : Type} (m : Js A) (k : A -> Js B) :
  result (bind m k) =
  match result m with
  | Return a => result (k a)
  | Throw e => Throw e
  | Exit c => Exit c
  end.
Proof.
  destruct m as [t [a | e | c]]; simpl; try reflexivity.
  destruct (k a); reflexivity.
Qed.

Lemma trace_bind {A B : Type} (m : Js A) (k : A -> Js B) :
  trace (bind m k) =
  match result m with
  | Return a => (trace m ++ trace (k a))%list
  | _ => trace m
  end.
Proof.
  destruct m as [t [a | e | c]]; simpl; try reflexivity.
  destruct (k a); reflexivity.
Qed.

Lemma bind_ret_l {A B : Type} (a : A) (k : A -> Js B) : bind (ret a) k = k a.
Proof. unfold bind, ret. destruct (k a); reflexivity. Qed.

Lemma bind_return {A B : Type} (t : list event) (a : A) (k : A -> Js B) :
  bind (t, Return a) k = ((t ++ trace (k a))%list, result (k a)).
Proof. unfold bind. destruct (k a); reflexivity. Qed.

Lemma nth_error_skipn_cons {A : Type} (l : list A) (i : nat) (x : A) :
  nth_error l i = Some x -> skipn i l = x :: skipn (S i) l.
Proof.
  revert i; induction l as [| y l IH]; intros [| i] H; simpl in *;
    try discriminate.
  - congruence.
  - apply IH in H. rewrite H. destruct l; reflexivity.
Qed.

Lemma firstn_two_more {A : Type} (pre post : list A) (a b : A) :
  firstn (S (S (List.length pre))) (pre ++ a :: b :: post)
  = (pre ++ [a; b])%list.
Proof.
  induction pre as [| x pre IH]; simpl.
  - reflexivity.
  - simpl in IH. rewrite IH. reflexivity.
Qed.

Lemma skipn_two_more {A : Type} (pre post : list A) (a b : A) :
  skipn (S (S (List.length pre))) (pre ++ a :: b :: post) = post.
Proof.
  induction pre as [| x pre IH]; simpl; [reflexivity | exact IH].
Qed.

Lemma splice_at {A : Type} (l : list A) (i : nat) (x item : A) :
  nth_error l i = Some x ->
  firstn (S (S i)) (splice l i item) = (firstn i l ++ [item; x])%list
  /\ skipn (S (S i)) (splice l i item) = skipn (S i) l.
Proof.
  intros H.
  assert (Hlen : List.length (firstn i l) = i).
  { apply firstn_length_le. apply Nat.lt_le_incl, nth_error_Some. congruence. }
  unfold splice. rewrite (nth_error_skipn_cons l i x H).
  split.
  - replace (S (S i)) with (S (S (List.length (firstn i l))))
      by (rewrite Hlen; reflexivity).
    apply firstn_two_more.
  - replace (S (S i)) with (S (S (List.length (firstn i l))))
      by (rewrite Hlen; reflexivity).
    apply skipn_two_more.
Qed.

Lemma firstn_succ_nth {A : Type} (l : list A) (i : nat) (x : A) :
  nth_error l i = Some x -> firstn (S i) l = (firstn i l ++ [x])%list.
Proof.
  revert i; induction l as [| y l IH]; intros [| i] H; simpl in *;
    try discriminate.
  - congruence.
  - f_equal. apply IH. assumption.
Qed.

(** The array that the loop returns from the state [(issues, i)]: the part
    in front of [i] as it is, the rest with the placeholders put in. *)
Lemma gapLoop_result (issues : list Issue) (i : nat) :
  result (gapLoop issues i)
  = Return (firstn i issues ++ fillFrom i (skipn i issues))%list.
Proof.
  funelim (gapLoop issues i).
  - assert (Hlen : List.length issues <= i)
      by (apply nth_error_None; assumption).
    rewrite firstn_all2, skipn_all2 by assumption.
    simpl. rewrite app_nil_r. reflexivity.
  - rewrite result_bind. simpl.
    match goal with IH : unit -> result (gapLoop _ _) = _ |- _ =>
      rewrite (IH tt) end.
    destruct (splice_at issues i it placeholderItem) as [Hf Hs];
      [assumption |].
    rewrite Hf, Hs.
    rewrite (nth_error_skipn_cons issues i it) by assumption.
    simpl fillFrom.
    match goal with E : iidDiffers _ _ = true |- _ => rewrite E end.
    rewrite <- app_assoc. reflexivity.
  - match goal with IH : result (gapLoop _ _) = _ |- _ => rewrite IH end.
    rewrite (firstn_succ_nth issues i it) by assumption.
    rewrite (nth_error_skipn_cons issues i it) by assumption.
    simpl fillFrom.
    match goal with E : iidDiffers _ _ = false |- _ => rewrite E end.
    rewrite <- app_assoc. reflexivity.
Qed.

(** The iids 1, 2, 4, 5: one placeholder, at position 3. *)
Example gapLoop_1245 :
  result (gapLoop [sourceIssue 1 "a"; sourceIssue 2 "b";
                   sourceIssue 4 "d"; sourceIssue 5 "e"] 0)
  = Return [sourceIssue 1 "a"; sourceIssue 2 "b"; placeholderItem;
            sourceIssue 4 "d"; sourceIssue 5 "e"].
Proof. reflexivity. Qed.

Lemma fillFrom_aligned (rest : list Issue) :
  forall i, narrowGaps i rest -> aligned i (fillFrom i rest).
Proof.
  induction rest as [| it rest IH]; intros i Hg k x Hk.
  - destruct k; discriminate.
  - simpl in Hg, Hk. unfold iidDiffers in Hk.
    destruct Hg as [[Hi Hg] | [Hi Hg]]; rewrite Hi in Hk.
    + replace (Z.of_nat i + 1 =? Z.of_nat i + 1)%Z with true in Hk
        by (symmetry; apply Z.eqb_refl).
      simpl in Hk. destruct k as [| k]; simpl in Hk.
      * injection Hk as <-. right. rewrite Hi. f_equal. lia.
      * destruct (IH (S i) Hg k x Hk) as [Hp | Hx]; [left; exact Hp |].
        right. rewrite Hx. f_equal. lia.
    + replace (Z.of_nat i + 2 =? Z.of_nat i + 1)%Z with false in Hk
        by (symmetry; apply Z.eqb_neq; lia).
      simpl in Hk. destruct k as [| [| k]]; simpl in Hk.
      * injection Hk as <-. left. reflexivity.
      * injection Hk as <-. right. rewrite Hi. f_equal. lia.
      * destruct (IH (S (S i)) Hg k x Hk) as [Hp | Hx]; [left; exact Hp |].
        right. rewrite Hx. f_equal. lia.
Qed.

(** Where two numbers or more are missing in front of an issue, the pass
    leaves that issue in front of its position. *)
Lemma fillFrom_wide_gap (i : nat) (it : Issue) (rest : list Issue) (n : Z) :
  issue_iid it = Some n -> (Z.of_nat i + 2 < n)%Z ->
  ~ aligned i (fillFrom i (it :: rest)).
Proof.
  intros Hn Hwide H. simpl in H. unfold iidDiffers in H. rewrite Hn in H.
  replace (n =? Z.of_nat i + 1)%Z with false in H
    by (symmetry; apply Z.eqb_neq; lia).
  destruct (H 1 it eq_refl) as [E | E].
  - rewrite E in Hn. discriminate.
  - rewrite Hn in E. injection E as E. lia.
Qed.

(** Where no more than one number is missing between neighbours, the pass
    aligns every issue with its iid. *)
Lemma gapLoop_aligned_narrow (issues : list Issue) :
  narrowGaps 0 issues ->
  exists filled, result (gapLoop issues 0) = Return filled
                 /\ aligned 0 filled.
Proof.
  intros Hg. exists (fillFrom 0 issues). split.
  - rewrite gapLoop_result. reflexivity.
  - apply fillFrom_aligned. assumption.
Qed.

(** The source iids 1, 2, 4, 5, fetched in another order, with an empty
    destination: the issues are created in the order 1, 2, placeholder,
    4, 5. *)
Example transferIssues_1245 :
  createdTitles
    (trace (transferIssues demoSettings
              (issuesWorld [sourceIssue 5 "e"; sourceIssue 2 "b";
                            sourceIssue 1 "a"; sourceIssue 4 "d"] [])
              demoFormat "octo" "repo" 5))
  = ["a"; "b"; issue_title placeholderItem; "d"; "e"].
Proof. reflexivity. Qed.

(** C1.  The gap-filling pass on the iids 1, 4: one placeholder is put in
    for the two missing numbers, so the issue with iid 4 stands at
    position 3, the array is not aligned with the source numbering, and
    [transferIssues] creates that issue third. *)
Theorem gapLoop_wide_gap_misaligned :
  result (gapLoop [sourceIssue 1 "a"; sourceIssue 4 "d"] 0)
  = Return [sourceIssue 1 "a"; placeholderItem; sourceIssue 4 "d"]
  /\ ~ aligned 0 [sourceIssue 1 "a"; placeholderItem; sourceIssue 4 "d"]
  /\ createdTitles
       (trace (transferIssues demoSettings
                 (issuesWorld [sourceIssue 1 "a"; sourceIssue 4 "d"] [])
                 demoFormat "octo" "repo" 5))
     = ["a"; issue_title placeholderItem; "d"].
Proof.
  split; [reflexivity | split; [| reflexivity]].
  intros H. destruct (H 2 (sourceIssue 4 "d") eq_refl) as [E | E];
    discriminate E.
Qed.

(* ===================================================================== *)
(** ** Sorting *)
(* ===================================================================== *)

Section SortFacts.
Context {A : Type}.
Variable key : A -> Z.

Let le (a b : A) : Prop := (key a <= key b)%Z.

Lemma insertSorted_perm (cmp : A -> A -> Z) (x : A) (l : list A) :
  Permutation (x :: l) (insertSorted cmp x l).
Proof.
  induction l as [| y l IH]; simpl.
  - apply Permutation_refl.
  - destruct (cmp x y <=? 0)%Z.
    + apply Permutation_refl.
    + eapply perm_trans; [apply perm_swap |].
      apply perm_skip. exact IH.
Qed.

Lemma jsSort_perm (cmp : A -> A -> Z) (l : list A) :
  Permutation l (jsSort cmp l).
Proof.
  induction l as [| x l IH]; simpl.
  - apply perm_nil.
  - eapply perm_trans; [apply perm_skip, IH |].
    apply insertSorted_perm.
Qed.

Lemma insertSorted_sorted (x : A) (l : list A) :
  StronglySorted le l -> StronglySorted le (insertSorted (byId key) x l).
Proof.
  induction 1 as [| y l Hs IH Hall]; simpl.
  - repeat constructor.
  - unfold byId at 1. destruct (Z.leb_spec (key x - key y) 0) as [Hle | Hgt].
    + constructor; [constructor; assumption |].
      constructor; [unfold le; lia |].
      eapply Forall_impl; [| exact Hall].
      intros z Hz. unfold le in *. lia.
    + constructor; [exact IH |].
      eapply Permutation_Forall; [apply insertSorted_perm |].
      constructor; [unfold le; lia | exact Hall].
Qed.

(** After [l.sort((a, b) => a.id - b.id)] the ids go up. *)
Lemma jsSort_sorted (l : list A) :
  StronglySorted le (jsSort (byId key) l).
Proof.
  induction l as [| x l IH]; simpl.
  - constructor.
  - apply insertSorted_sorted. exact IH.
Qed.
End SortFacts.

(* ===================================================================== *)
(** ** Properties of every event of a computation *)
(* ===================================================================== *)

Section TraceInvariant.
Variable P : event -> Prop.

Lemma always_ret {A : Type} (a : A) : always P (ret a).
Proof. constructor. Qed.

Lemma always_throw {A : Type} (e : error) : always P (@throw A e).
Proof. constructor. Qed.

Lemma always_exit {A : Type} (c : Z) : always P (@exit A c).
Proof. constructor. Qed.

Lemma always_emit (e : event) : P e -> always P (emit e).
Proof. intros H. repeat constructor. exact H. Qed.

Lemma always_await {A : Type} (r : request) (answer : error + A) :
  P (Call r) -> always P (await r answer).
Proof. intros H. repeat constructor. exact H. Qed.

Lemma always_liftE {A : Type} (x : error + A) : always P (liftE x).
Proof. destruct x; constructor. Qed.

Lemma always_bind {A B : Type} (m : Js A) (k : A -> Js B) :
  always P m -> (forall a, always P (k a)) -> always P (bind m k).
Proof.
  unfold always. intros Hm Hk. rewrite trace_bind.
  destruct (result m); try assumption.
  apply Forall_app. split; [assumption | apply Hk].
Qed.

Lemma always_tryCatch {A : Type} (m : Js A) (handler : error -> Js A) :
  always P m -> (forall e, always P (handler e)) ->
  always P (tryCatch m handler).
Proof.
  unfold always. intros Hm Hh.
  destruct m as [t [a | e | c]]; simpl in *; try assumption.
  specialize (Hh e). destruct (handler e) as [t' r]. simpl in *.
  apply Forall_app. split; assumption.
Qed.

Lemma always_forOf {A : Type} (l : list A) (body : A -> Js unit) :
  (forall x, In x l -> always P (body x)) -> always P (forOf l body).
Proof.
  induction l as [| x l IH]; intros H; simpl.
  - apply always_ret.
  - apply always_bind.
    + apply H. left. reflexivity.
    + intros _. apply IH. intros y Hy. apply H. right. exact Hy.
Qed.

Lemma always_dropPromise {A : Type} (m : Js A) :
  (forall err, P (Unhandled err)) ->
  always (fun e => P (detachEvent e)) m -> always P (dropPromise m).
Proof.
  unfold always, dropPromise. simpl. intros Hu Hm.
  apply Forall_app. split.
  - induction Hm; simpl; constructor; auto.
  - destruct (result m); repeat constructor. apply Hu.
Qed.

Lemma always_gapLoop (issues : list Issue) (i : nat) :
  (forall msg, P (ConsoleLog msg)) -> always P (gapLoop issues i).
Proof.
  intros Hlog. funelim (gapLoop issues i).
  - apply always_ret.
  - apply always_bind; [apply always_emit, Hlog |].
    intros _. match goal with IH : unit -> _ |- _ => apply (IH tt Hlog) end.
  - auto.
Qed.
Lemma always_getAllGHIssuesFrom (W : World) (owner repo : string)
    (allIssues : list GhIssue) (page : positive) :
  (forall p, P (Call (GhGetForRepo owner repo p))) ->
  always P (getAllGHIssuesFrom W owner repo allIssues page).
Proof.
  intros Hcall. funelim (getAllGHIssuesFrom W owner repo allIssues page).
  - apply always_await, Hcall.
  - apply always_bind; [apply always_await, Hcall | intros _; apply always_ret].
  - apply always_bind; [apply always_await, Hcall | intros _; apply always_ret].
  - apply always_bind; [apply always_await, Hcall |].
    intros _.
    match goal with IH : _ -> _ -> always _ _ |- _ => apply IH; assumption end.
Qed.

End TraceInvariant.

(** One step of a proof that every event of a computation has a property:
    through the monad's operations and the case analyses of the script. *)
Ltac always_step :=
  match goal with
  | |- always _ (bind _ _) => apply always_bind; [| intros]
  | |- always _ (tryCatch _ _) => apply always_tryCatch; [| intros]
  | |- always _ (forOf _ _) => apply always_forOf; intros
  | |- always _ (dropPromise _) => apply always_dropPromise; [intros |]
  | |- always _ (ret _) => apply always_ret
  | |- always _ (throw _) => apply always_throw
  | |- always _ (exit _) => apply always_exit
  | |- always _ (liftE _) => apply always_liftE
  | |- always _ (console_log _) => apply always_emit
  | |- always _ (console_error _) => apply always_emit
  | |- always _ (console_error_obj _) => apply always_emit
  | |- always _ (await _ _) => apply always_await
  | |- always _ (gapLoop _ _) => apply always_gapLoop; intros
  | |- always _ (getAllGHIssuesFrom _ _ _ _ _) =>
      apply always_getAllGHIssuesFrom; intros
  | |- always _ (if ?b then _ else _) => destruct b eqn:?
  | |- always _ (match ?x with _ => _ end) => destruct x eqn:?
  end.

(* ===================================================================== *)
(** ** Reading the destination issues page by page *)
(* ===================================================================== *)

Lemma firstn_add {A : Type} (a b : nat) (l : list A) :
  firstn (a + b) l = (firstn a l ++ firstn b (skipn a l))%list.
Proof.
  revert l. induction a as [| a IH]; intros l; [reflexivity |].
  destruct l as [| x l]; simpl.
  - rewrite firstn_nil. reflexivity.
  - rewrite IH. reflexivity.
Qed.

Lemma result_await_then {A B : Type} (r : request) (a : A) (m : Js B) :
  result (await r (inr a) ;;; m) = result m.
Proof. rewrite result_bind. reflexivity. Qed.

(** From a state that holds the pages before [page], the loop returns all
    issues of the repository. *)
Lemma getAllGHIssuesFrom_result (W : World) (owner repo : string)
    (all allIssues : list GhIssue) (page : positive) :
  gh_issues W owner repo = inr all ->
  allIssues = firstn (perPage * (Pos.to_nat page - 1)) all ->
  result (getAllGHIssuesFrom W owner repo allIssues page) = Return all.
Proof.
  intros Hall. funelim (getAllGHIssuesFrom W owner repo allIssues page);
    intros Hacc;
    repeat match goal with
           | H : {| pr1 := _; pr2 := _ |} = _ |- _ => clear H
           end;
    match goal with E : issuesPage _ _ _ _ = _ |- _ =>
      unfold issuesPage in E; rewrite Hall in E end;
    try discriminate;
    match goal with E : inr _ = inr ?x |- _ =>
      assert (Hx : x = firstn perPage
                         (skipn (perPage * (Pos.to_nat page - 1)) all))
        by congruence
    end;
    assert (Hpos : 0 < perPage) by (unfold perPage; lia);
    rewrite result_await_then.
  - match goal with E : (_ =? 0)%nat = true |- _ =>
      apply Nat.eqb_eq in E;
      rewrite Hx, length_firstn, length_skipn in E end.
    subst allIssues. unfold ret, result. cbn [snd].
    rewrite firstn_all2 by lia. reflexivity.
  - match goal with E : (_ <? _)%nat = true |- _ =>
      apply Nat.ltb_lt in E;
      rewrite Hx, length_firstn, length_skipn in E end.
    subst allIssues. unfold ret, result. cbn [snd].
    rewrite Hx, (firstn_all2 (n := perPage))
      by (rewrite length_skipn; lia).
    rewrite firstn_skipn. reflexivity.
  - match goal with IH : list GhIssue -> forall a, _ -> _ -> result _ = _ |- _ =>
      apply (IH issues all Hall) end.
    pose proof (Pos2Nat.is_pos page) as Hpage.
    rewrite Pos2Nat.inj_succ.
    replace (S (Pos.to_nat page) - 1) with (S (Pos.to_nat page - 1)) by lia.
    rewrite Nat.mul_succ_r, firstn_add, <- Hacc, Hx. reflexivity.
Qed.

(** [getAllGHIssues] returns every issue of the destination repository. *)
Lemma getAllGHIssues_result (W : World) (owner repo : string)
    (all : list GhIssue) :
  gh_issues W owner repo = inr all ->
  result (getAllGHIssues W owner repo) = Return all.
Proof.
  intros Hall. unfold getAllGHIssues.
  apply (getAllGHIssuesFrom_result W owner repo all); [exact Hall |].
  rewrite Nat.mul_0_r. reflexivity.
Qed.

(* ===================================================================== *)
(** ** The regular-expression matcher *)
(* ===================================================================== *)

Module RegexFacts.
Import Regex.

Lemma append_nil_r (s : string) : s ++ EmptyString = s.
Proof. induction s as [| c s IH]; simpl; [| rewrite IH]; reflexivity. Qed.

Lemma append_assoc (s1 s2 s3 : string) : (s1 ++ s2) ++ s3 = s1 ++ s2 ++ s3.
Proof. induction s1 as [| c s1 IH]; simpl; [| rewrite IH]; reflexivity. Qed.

Lemma append_eq_nil (s1 s2 : string) : s1 ++ s2 = EmptyString -> s1 = EmptyString /\ s2 = EmptyString.
Proof. destruct s1; simpl; [auto | discriminate]. Qed.

Lemma append_eq_cons (s1 s2 s : string) (c : ascii) :
  s1 ++ s2 = String c s ->
  (s1 = EmptyString /\ s2 = String c s)
  \/ exists s1', s1 = String c s1' /\ s = s1' ++ s2.
Proof.
  destruct s1 as [| d s1]; simpl; intros H.
  - left. auto.
  - injection H as -> <-. right. eauto.
Qed.

Lemma nullable_matches (r : re) : nullable r = true <-> matches r EmptyString.
Proof.
  split.
  - induction r; simpl; intros H; try discriminate.
    + constructor.
    + apply andb_prop in H. destruct H as [H1 H2].
      change EmptyString with (EmptyString ++ EmptyString). constructor; auto.
    + apply orb_prop in H. destruct H as [H | H];
        [apply MAltL | apply MAltR]; auto.
    + constructor.
  - intros H. remember EmptyString as s eqn:Es.
    induction H; simpl; try discriminate; try reflexivity.
    + apply append_eq_nil in Es. destruct Es as [-> ->].
      rewrite IHmatches1, IHmatches2; reflexivity.
    + rewrite (IHmatches Es). reflexivity.
    + rewrite (IHmatches Es). apply orb_true_r.
Qed.

Lemma deriv_sound (c : ascii) (r : re) :
  forall s, matches (deriv c r) s -> matches r (String c s).
Proof.
  induction r; simpl; intros s H.
  - inversion H.
  - inversion H.
  - destruct (Ascii.eqb_spec c c0) as [-> |]; inversion H. constructor.
  - destruct (isLineTerminator c) eqn:E; inversion H.
    constructor. exact E.
  - destruct (nullable r1) eqn:En.
    + inversion H as [| | | | ? ? ? H' | ? ? ? H' | |]; subst.
      * inversion H'; subst.
        change (String c (s1 ++ s2)) with (String c s1 ++ s2).
        constructor; auto.
      * change (String c s) with (EmptyString ++ String c s).
        constructor; [apply nullable_matches; exact En | auto].
    + inversion H; subst.
      change (String c (s1 ++ s2)) with (String c s1 ++ s2).
      constructor; auto.
  - inversion H; subst; [apply MAltL | apply MAltR]; auto.
  - inversion H; subst.
    change (String c (s1 ++ s2)) with (String c s1 ++ s2).
    constructor; auto.
Qed.

Lemma deriv_complete (r : re) (s' : string) :
  matches r s' ->
  forall c s, s' = String c s -> matches (deriv c r) s.
Proof.
  induction 1 as [| d | d Hd | r1 r2 s1 s2 H1 IH1 H2 IH2
                  | r1 r2 s0 H0 IH0 | r1 r2 s0 H0 IH0
                  | r0 | r0 s1 s2 H1 IH1 H2 IH2];
    intros c s E; simpl.
  - discriminate.
  - injection E as -> <-. rewrite Ascii.eqb_refl. constructor.
  - injection E as -> <-. rewrite Hd. constructor.
  - apply append_eq_cons in E. destruct E as [[-> ->] | [s1' [-> ->]]].
    + apply nullable_matches in H1. rewrite H1.
      apply MAltR. apply IH2. reflexivity.
    + assert (Hseq : matches (Seq (deriv c r1) r2) (s1' ++ s2))
        by (constructor; [apply IH1; reflexivity | assumption]).
      destruct (nullable r1); [apply MAltL |]; exact Hseq.
  - apply MAltL. apply IH0. exact E.
  - apply MAltR. apply IH0. exact E.
  - discriminate.
  - apply append_eq_cons in E. destruct E as [[-> ->] | [s1' [-> ->]]].
    + apply (IH2 c s eq_refl).
    + constructor; [apply IH1; reflexivity | assumption].
Qed.

(** [matchesPrefix] finds the prefixes that match. *)
Lemma matchesPrefix_correct (s : string) :
  forall r, matchesPrefix r s = true
            <-> exists p q, s = p ++ q /\ matches r p.
Proof.
  induction s as [| c s IH]; intros r; simpl.
  - rewrite orb_false_r, nullable_matches. split.
    + intros H. exists EmptyString, EmptyString. auto.
    + intros [p [q [E H]]]. symmetry in E.
      apply append_eq_nil in E. destruct E as [-> _]. exact H.
  - split.
    + intros H. apply orb_prop in H. destruct H as [H | H].
      * exists EmptyString, (String c s). split; [reflexivity |].
        apply nullable_matches. exact H.
      * apply IH in H. destruct H as [p [q [-> H]]].
        exists (String c p), q. split; [reflexivity |].
        apply deriv_sound. exact H.
    + intros [p [q [E H]]]. symmetry in E. apply append_eq_cons in E.
      destruct E as [[-> _] | [p' [-> ->]]].
      * apply nullable_matches in H. rewrite H. reflexivity.
      * apply orb_true_intro. right. apply IH. exists p', q.
        split; [reflexivity |].
        apply (deriv_complete _ _ H c p' eq_refl).
Qed.

(** [test] finds the pieces that match. *)
Lemma test_correct (r : re) (s : string) :
  test r s = true
  <-> exists before p after, s = before ++ p ++ after /\ matches r p.
Proof.
  induction s as [| c s IH]; cbn [test].
  - rewrite orb_false_r, matchesPrefix_correct. split.
    + intros [p [q [E H]]]. exists EmptyString, p, q. auto.
    + intros [b [p [q [E H]]]]. symmetry in E.
      apply append_eq_nil in E. destruct E as [-> E].
      exists p, q. auto.
  - split.
    + intros H. apply orb_prop in H. destruct H as [H | H].
      * apply matchesPrefix_correct in H. destruct H as [p [q [E H]]].
        exists EmptyString, p, q. auto.
      * apply IH in H. destruct H as [b [p [q [-> H]]]].
        exists (String c b), p, q. auto.
    + intros [b [p [q [E H]]]]. apply orb_true_intro.
      destruct b as [| d b]; simpl in E.
      * left. apply matchesPrefix_correct. exists p, q. auto.
      * injection E as <- ->. right. apply IH. exists b, p, q. auto.
Qed.

Lemma matches_lit (p s : string) : matches (lit p) s <-> s = p.
Proof.
  revert s. induction p as [| c p IH]; intros s; simpl; split; intros H.
  - inversion H. reflexivity.
  - subst. constructor.
  - inversion H as [| | | ? ? ? ? H1 H2 | | | |]; subst.
    inversion H1; subst. apply IH in H2. subst. reflexivity.
  - subst. change (String c p) with (String c EmptyString ++ p).
    constructor; [constructor | apply IH; reflexivity].
Qed.

(** A pattern [/p.*/] tests for the piece [p]. *)
Lemma test_lit_dotstar (p s : string) :
  test (Seq (lit p) (Star Dot)) s = true <-> contains s p.
Proof.
  rewrite test_correct. unfold contains. split.
  - intros [b [m [a [-> H]]]].
    inversion H as [| | | ? ? s1 s2 H1 H2 | | | |]; subst.
    apply matches_lit in H1. subst.
    exists b, (s2 ++ a). rewrite append_assoc. reflexivity.
  - intros [b [a ->]]. exists b, p, a. split; [reflexivity |].
    rewrite <- (append_nil_r p) at 2.
    constructor; [apply matches_lit; reflexivity | constructor].
Qed.

(** A pattern that is a literal tests for that piece. *)
Lemma test_lit (p s : string) : test (lit p) s = true <-> contains s p.
Proof.
  rewrite test_correct. unfold contains. split.
  - intros [b [m [a [-> H]]]]. apply matches_lit in H. subst. eauto.
  - intros [b [a ->]]. exists b, p, a. split; [reflexivity |].
    apply matches_lit. reflexivity.
Qed.

End RegexFacts.

(** A note that tells of a status change, other than one closed by a
    commit, is not transferred. *)
Lemma isStateChangeNote_status (body : string) :
  Regex.contains body "Status changed to " ->
  ~ Regex.contains body "Status changed to closed by commit" ->
  isStateChangeNote body = true.
Proof.
  intros Hs Hc. unfold isStateChangeNote.
  apply (RegexFacts.test_lit_dotstar "Status changed to ") in Hs.
  fold reStatusChanged in Hs. rewrite Hs.
  destruct (Regex.test reClosedByCommit body) eqn:E; [| reflexivity].
  exfalso. apply Hc.
  apply (RegexFacts.test_lit_dotstar "Status changed to closed by commit").
  exact E.
Qed.

(** A note is transferred exactly when it has none of the fixed phrases,
    or only that of a status change and the one of a closing commit. *)
Lemma isStateChangeNote_false_iff (body : string) :
  isStateChangeNote body = false
  <-> ((Regex.contains body "Status changed to " ->
        Regex.contains body "Status changed to closed by commit")
       /\ ~ Regex.contains body "changed milestone to "
       /\ ~ Regex.contains body "Milestone changed to "
       /\ ~ Regex.contains body "Reassigned to "
       /\ Regex.test reAddedLabels body = false
       /\ Regex.test reAddedLabel body = false
       /\ ~ Regex.contains body "mentioned in issue").
Proof.
  unfold isStateChangeNote.
  rewrite <- (RegexFacts.test_lit_dotstar "Status changed to ").
  rewrite <- (RegexFacts.test_lit_dotstar "Status changed to closed by commit").
  rewrite <- (RegexFacts.test_lit_dotstar "changed milestone to ").
  rewrite <- (RegexFacts.test_lit_dotstar "Milestone changed to ").
  rewrite <- (RegexFacts.test_lit "Reassigned to ").
  rewrite <- (RegexFacts.test_lit_dotstar "mentioned in issue").
  fold reStatusChanged reClosedByCommit reChangedMilestone
       reMilestoneChanged reReassigned reMentioned.
  destruct (Regex.test reStatusChanged body),
           (Regex.test reClosedByCommit body),
           (Regex.test reChangedMilestone body),
           (Regex.test reMilestoneChanged body),
           (Regex.test reReassigned body),
           (Regex.test reAddedLabels body),
           (Regex.test reAddedLabel body),
           (Regex.test reMentioned body); simpl;
    split; intros H; try discriminate; try reflexivity;
    try (repeat split; congruence);
    try (destruct H as [H1 [H2 [H3 [H4 [H5 [H6 H7]]]]]];
         first [ discriminate (H1 eq_refl) | discriminate
               | exfalso; auto ]).
Qed.

(* ===================================================================== *)
(** ** Merge requests *)
(* ===================================================================== *)

(** A merge request is passed over when it is not the one with iid 1, or
    when its state is neither [merged] nor [open]. *)
Lemma createPRAndComments_skips (settings : Settings) (W : World)
    (owner repo : string) (mr : MergeRequest) :
  mr_iid mr <> 1%Z
  \/ (mr_state mr <> "merged" /\ mr_state mr <> "open") ->
  createPRAndComments settings W owner repo mr = ret tt.
Proof.
  unfold createPRAndComments. intros [H | [H1 H2]].
  - apply Z.eqb_neq in H. rewrite H. reflexivity.
  - apply String.eqb_neq in H1, H2. rewrite H1, H2.
    destruct (mr_iid mr =? 1)%Z; reflexivity.
Qed.

(** The merge request with iid 1, merged by a commit with the parents
    [bbb222] (the target branch) and [aaa111] (its head): head branch at
    the head sha, base branch at the other parent, then the pull request. *)
Example createPRAndComments_first_request :
  trace (createPRAndComments demoSettings
           (worldWith [] [] [] ["bbb222"; "aaa111"] (inr tt))
           "octo" "repo" (mergedRequest 1))
  = [ Call (GhCreateReference
              {| rp_owner := "octo"; rp_repo := "repo";
                 rp_ref := "refs/heads/MR1-feature-head";
                 rp_sha := Some "aaa111" |});
      Call (GlCommitsShow 5 (Some "ccc333"));
      Call (GhCreateReference
              {| rp_owner := "octo"; rp_repo := "repo";
                 rp_ref := "refs/heads/MR1-master-base";
                 rp_sha := Some "bbb222" |});
      Call (GhCreatePullRequest
              {| pp_owner := "octo"; pp_repo := "repo";
                 pp_title := "Add feature"; pp_body := Some "text";
                 pp_head := "MR1-feature-head";
                 pp_base := "MR1-master-base" |}) ].
Proof. reflexivity. Qed.

(** What [createGHBranch] does: it asks for the reference and, when that
    is refused, logs one or two lines; it never throws. *)
Lemma createGHBranch_trace (W : World) (owner repo name : string)
    (sha : option string) :
  exists logs,
    createGHBranch W owner repo name sha
    = (Call (GhCreateReference
               {| rp_owner := owner; rp_repo := repo;
                  rp_ref := "refs/heads/" ++ name; rp_sha := sha |})
         :: logs, Return tt)
    /\ Forall (fun e => forall r, e <> Call r) logs.
Proof.
  unfold createGHBranch, await.
  destruct (gh_createReference W _) as [err | []]; cbn [tryCatch].
  - destruct (JsString.indexOf (err_message err) "Reference already exists"
                >? 0)%Z; cbn; eexists; (split; [reflexivity |]);
      repeat constructor; discriminate.
  - exists []. split; [reflexivity | constructor].
Qed.

(** The merge request with iid 1, in state [merged] or [open], whose merge
    commit has one parent other than the head: the head branch is asked
    for at the head sha, the base branch at that parent, and then the pull
    request from head to base; between these calls only the console is
    written to. *)
Lemma createPRAndComments_eligible (settings : Settings) (W : World)
    (owner repo : string) (mr : MergeRequest) (parents : list string)
    (parent : string) :
  mr_iid mr = 1%Z ->
  mr_state mr = "merged" \/ mr_state mr = "open" ->
  gl_commitParents W (gitlab_projectId settings) (mr_merge_commit_sha mr)
  = inr parents ->
  filter (fun sha => negb (sha =? mr_sha mr)) parents = [parent] ->
  exists logs1 logs2,
    trace (createPRAndComments settings W owner repo mr)
    = (Call (GhCreateReference
               {| rp_owner := owner; rp_repo := repo;
                  rp_ref := "refs/heads/MR1-" ++ mr_source_branch mr
                            ++ "-head";
                  rp_sha := Some (mr_sha mr) |})
         :: logs1
         ++ Call (GlCommitsShow (gitlab_projectId settings)
                                (mr_merge_commit_sha mr))
         :: Call (GhCreateReference
                    {| rp_owner := owner; rp_repo := repo;
                       rp_ref := "refs/heads/MR1-" ++ mr_target_branch mr
                                 ++ "-base";
                       rp_sha := Some parent |})
         :: logs2
         ++ [Call (GhCreatePullRequest
                     {| pp_owner := owner; pp_repo := repo;
                        pp_title := mr_title mr;
                        pp_body := mr_description mr;
                        pp_head := "MR1-" ++ mr_source_branch mr ++ "-head";
                        pp_base := "MR1-" ++ mr_target_branch mr
                                   ++ "-base" |})])%list
    /\ Forall (fun e => forall r, e <> Call r) (logs1 ++ logs2)%list.
Proof.
  intros Hiid Hstate Hparents Hfilter. unfold createPRAndComments.
  rewrite Hiid. cbn [Z.eqb Pos.eqb negb].
  replace (negb (mr_state mr =? "merged") && negb (mr_state mr =? "open"))
    with false
    by (destruct Hstate as [-> | ->]; reflexivity).
  change (JsString.ofNumber 1) with "1".
  destruct (createGHBranch_trace W owner repo
              ("MR" ++ "1" ++ "-" ++ mr_source_branch mr ++ "-head")
              (Some (mr_sha mr))) as [logs1 [E1 H1]].
  destruct (createGHBranch_trace W owner repo
              ("MR" ++ "1" ++ "-" ++ mr_target_branch mr ++ "-base")
              (Some parent)) as [logs2 [E2 H2]].
  exists logs1, logs2. split; [| apply Forall_app; split; assumption].
  rewrite E1, bind_return. unfold await at 1. rewrite Hparents.
  rewrite bind_return. cbv beta. rewrite Hfilter.
  cbn [List.length Nat.eqb nth_error]. rewrite E2, bind_return.
  unfold createPR, await, trace. cbn [fst app].
  reflexivity.
Qed.

(** C2.  A merged merge request whose iid is 2 is eligible, yet
    [createPRAndComments] returns at its first line: no branch and no pull
    request is created, whatever the remote services answer. *)
Theorem createPRAndComments_second_request_skipped :
  forall (settings : Settings) (W : World) (owner repo : string),
    mr_state (mergedRequest 2) = "merged"
    /\ createPRAndComments settings W owner repo (mergedRequest 2) = ret tt.
Proof.
  intros. split; [reflexivity |].
  apply createPRAndComments_skips. left. discriminate.
Qed.

(** [transferMergeRequests] never asks for the merge requests of a project
    other than 188. *)
Lemma transferMergeRequests_other_project (settings : Settings) (W : World)
    (owner repo : string) (projectId requested : Z) :
  requested <> 188%Z ->
  always (fun e => e <> Call (GlMergeRequestsAll requested))
         (transferMergeRequests settings W owner repo projectId).
Proof.
  intros Hne.
  unfold transferMergeRequests, getAllGHPullRequests, getAllGHIssues,
    inform, createPRAndComments, createGHBranch, createPR.
  repeat always_step; try discriminate.
  intros [= E]. apply Hne. symmetry. exact E.
Qed.

(** C3.  Called for project 5, [transferMergeRequests] first asks GitLab
    for the merge requests of project 188 and it never asks for those of
    project 5. *)
Theorem transferMergeRequests_fetches_project_188 :
  forall (settings : Settings) (W : World) (owner repo : string),
    (exists rest,
        trace (transferMergeRequests settings W owner repo 5)
        = Call (GlMergeRequestsAll 188) :: rest)
    /\ ~ In (Call (GlMergeRequestsAll 5))
            (trace (transferMergeRequests settings W owner repo 5)).
Proof.
  intros. split.
  - unfold transferMergeRequests. rewrite trace_bind. simpl.
    destruct (gl_mergeRequests W 188); eauto.
  - intros Hin.
    pose proof (transferMergeRequests_other_project settings W owner repo
                  5 5 ltac:(discriminate)) as H.
    unfold always in H. rewrite Forall_forall in H.
    exact (H _ Hin eq_refl).
Qed.

(** The merge requests are reconciled in ascending order of their ids. *)
Lemma mergeRequests_sorted (l : list MergeRequest) :
  StronglySorted (fun a b => (mr_id a <= mr_id b)%Z) (jsSort (byId mr_id) l)
  /\ Permutation l (jsSort (byId mr_id) l).
Proof.
  split; [apply jsSort_sorted | apply jsSort_perm].
Qed.

(* ===================================================================== *)
(** ** The text transformer *)
(* ===================================================================== *)

(** Whatever the maps hold, a body that [convertIssuesAndComments] returns
    is the body with the attribution line and nothing else done to it. *)
Lemma convertIssuesAndComments_returns_migration_line (settings : Settings)
    (formatDate : string -> string) (str : option string)
    (item : option Item) (body : option string) :
  convertIssuesAndComments settings formatDate str item = inr body ->
  body = addMigrationLine formatDate str item.
Proof.
  unfold convertIssuesAndComments.
  destruct (isEmptyMap (usermap settings) && isEmptyMap (projectmap settings)).
  - intros [= <-]. reflexivity.
  - destruct (addMigrationLine formatDate str item) as [s |];
      [| discriminate].
    destruct (replaceGlobal s (userProjectRe settings)
                (renameMatched settings)); [discriminate |].
    intros [= <-]. reflexivity.
Qed.

(** The replacement ends without exception when its callback does. *)
Lemma replaceFrom_total (alts : list string)
    (callback : string -> error + string) :
  (forall matched, exists r, callback matched = inr r) ->
  forall s skip, exists r, replaceFrom alts callback skip s = inr r.
Proof.
  intros Hcb. induction s as [| c s IH]; intros skip.
  - destruct skip; simpl; [| eauto].
    destruct (firstMatch alts EmptyString) as [m |]; [| eauto].
    destruct (Hcb m) as [r Hr]. rewrite Hr. eauto.
  - destruct skip as [| k]; simpl; [| apply IH].
    destruct (firstMatch alts (String c s)) as [m |].
    + destruct (Hcb m) as [r Hr]. rewrite Hr.
      destruct (IH (String.length m - 1)) as [rest Hrest]. rewrite Hrest.
      eauto.
    + destruct (IH 0) as [rest Hrest]. rewrite Hrest. eauto.
Qed.

(** With both maps present in the configuration, empty or not, the
    callback of the replacement reads no property of [null]. *)
Lemma renameMatched_total (settings : Settings) :
  usermap settings <> None -> projectmap settings <> None ->
  forall matched, exists r, renameMatched settings matched = inr r.
Proof.
  intros Hu Hp matched. unfold renameMatched.
  destruct (usermap settings); [| contradiction].
  destruct (projectmap settings); [| contradiction].
  destruct (JsString.startsWith matched "@"); [eauto |].
  destruct (JsString.endsWith matched "#"); eauto.
Qed.

(** With both maps present, the conversion of a body that is a string
    returns the body behind its attribution line. *)
Lemma convertIssuesAndComments_total (settings : Settings)
    (formatDate : string -> string) (str : option string)
    (item : option Item) (s : string) :
  usermap settings <> None -> projectmap settings <> None ->
  addMigrationLine formatDate str item = Some s ->
  convertIssuesAndComments settings formatDate str item = inr (Some s).
Proof.
  intros Hu Hp Hs. unfold convertIssuesAndComments. rewrite Hs.
  destruct (isEmptyMap (usermap settings) && isEmptyMap (projectmap settings));
    [reflexivity |].
  unfold replaceGlobal.
  destruct (replaceFrom_total (userProjectRe settings)
              (renameMatched settings)
              (renameMatched_total settings Hu Hp) s 0) as [r Hr].
  rewrite Hr. reflexivity.
Qed.

(** C4.  With [alice] mapped to [bob], the replacement turns [ping @alice]
    into [ping @bob], but [convertIssuesAndComments] returns
    [ping @alice]: the text before the mapping. *)
Theorem convertIssuesAndComments_mention_not_rewritten :
  forall formatDate : string -> string,
    lookup [("alice", "bob")] "alice" = Some "bob"
    /\ replaceGlobal "ping @alice" (userProjectRe demoSettings)
         (renameMatched demoSettings) = inr "ping @bob"
    /\ convertIssuesAndComments demoSettings formatDate
         (Some "ping @alice") None = inr (Some "ping @alice").
Proof.
  intros. repeat split; reflexivity.
Qed.

(** The same for a cross-project reference. *)
Example convertIssuesAndComments_project_not_rewritten :
  forall formatDate : string -> string,
    replaceGlobal "see grp/proj#12" (userProjectRe demoSettings)
      (renameMatched demoSettings) = inr "see Org/proj#12"
    /\ convertIssuesAndComments demoSettings formatDate
         (Some "see grp/proj#12") None = inr (Some "see grp/proj#12").
Proof.
  intros. split; reflexivity.
Qed.

(* ===================================================================== *)
(** ** Issue creation: the assignee *)
(* ===================================================================== *)

(** The assignee is the migration user: the issue is created with that
    one assignee. *)
Example createIssue_assignee_self :
  trace (createIssue demoSettings (worldWith [] [] [] [] (inr tt))
           demoFormat "octo" "repo" []
           (assignedIssue "migrator" (Some ["bug"]) "text"))
  = [ Call (GhCreateIssue
              {| ip_owner := "octo"; ip_repo := "repo";
                 ip_title := "Crash";
                 ip_body :=
                   Some ("In GitLab by @ann on Mar 1, 2018, 10:00"
                         ++ nl ++ nl ++ "text");
                 ip_assignees := Some ["migrator"];
                 ip_milestone := None;
                 ip_labels := Some ["bug"] |}) ].
Proof. reflexivity. Qed.

(** The assignee is neither the migration user nor a key of the user map:
    the issue is created with an empty assignee list. *)
Example createIssue_assignee_unmapped :
  exists props,
    trace (createIssue demoSettings (worldWith [] [] [] [] (inr tt))
             demoFormat "octo" "repo" []
             (assignedIssue "zed" (Some ["bug"]) "text"))
    = [Call (GhCreateIssue props)]
    /\ ip_assignees props = Some [].
Proof. eexists. split; reflexivity. Qed.

(** A mapped assignee ends [createIssue] with a reference error before any
    remote call, for every configuration and issue. *)
Lemma createIssue_mapped_assignee (settings : Settings) (W : World)
    (formatDate : string -> string) (owner repo : string)
    (milestones : list GhMilestone) (issue : Issue) (assignee : User)
    (body : option string) :
  convertIssuesAndComments settings formatDate (issue_description issue)
    (Some (issueItem issue)) = inr body ->
  issue_assignee issue = Some assignee ->
  username assignee <> github_username settings ->
  usermapHas settings (username assignee) = true ->
  createIssue settings W formatDate owner repo milestones issue
  = throw (ReferenceError "item is not defined").
Proof.
  intros Hc Ha Hne Hmap. unfold createIssue.
  rewrite Hc, Ha. apply String.eqb_neq in Hne. rewrite Hne, Hmap.
  reflexivity.
Qed.

(** A name that the user map inherits counts as mapped: an assignee called
    [constructor] ends [createIssue] in the same way. *)
Example createIssue_inherited_assignee :
  forall (W : World) (formatDate : string -> string)
         (milestones : list GhMilestone),
    lookup [("alice", "bob")] "constructor" = None
    /\ usermapHas demoSettings "constructor" = true
    /\ usermapHas demoSettings "zed" = false
    /\ createIssue demoSettings W formatDate "octo" "repo" milestones
         (assignedIssue "constructor" (Some ["bug"]) "text")
       = throw (ReferenceError "item is not defined").
Proof.
  intros. split; [reflexivity |]. split; [reflexivity |].
  split; [reflexivity |].
  eapply createIssue_mapped_assignee.
  - apply convertIssuesAndComments_total;
      [discriminate | discriminate | reflexivity].
  - reflexivity.
  - discriminate.
  - reflexivity.
Qed.

(** C5.  The assignee [alice] is a key of the user map (mapped to [bob])
    and is not the migration user: [createIssue] throws a reference error
    at the mapping step and makes no remote call, so no issue is
    created. *)
Theorem createIssue_mapped_assignee_throws :
  forall (W : World) (formatDate : string -> string)
         (milestones : list GhMilestone),
    usermapHas demoSettings "alice" = true
    /\ createIssue demoSettings W formatDate "octo" "repo" milestones
         (assignedIssue "alice" (Some ["bug"]) "text")
       = throw (ReferenceError "item is not defined").
Proof.
  intros. split; [reflexivity |].
  eapply createIssue_mapped_assignee.
  - apply convertIssuesAndComments_total;
      [discriminate | discriminate | reflexivity].
  - reflexivity.
  - discriminate.
  - reflexivity.
Qed.

(* ===================================================================== *)
(** ** Trimming *)
(* ===================================================================== *)

Module TrimFacts.
Import JsString.

Lemma reverse_involutive (s : string) : reverse (reverse s) = s.
Proof.
  unfold reverse.
  rewrite list_ascii_of_string_of_list_ascii, rev_involutive.
  apply string_of_list_ascii_of_string.
Qed.

Lemma trimStart_untrimmable (s : string) : untrimmable (trimStart s).
Proof.
  induction s as [| c s IH]; simpl; [exact I |].
  destruct (isWhiteSpace c) eqn:E; [exact IH | exact E].
Qed.

Lemma trimStart_fixed (s : string) : untrimmable s -> trimStart s = s.
Proof.
  destruct s as [| c s]; simpl; [reflexivity |].
  intros E. rewrite E. reflexivity.
Qed.

(** [trimStart] leaves a suffix, so [trimEnd] leaves a prefix. *)
Lemma trimStart_suffix (s : string) : exists w, s = w ++ trimStart s.
Proof.
  induction s as [| c s [w IH]]; simpl.
  - exists EmptyString. reflexivity.
  - destruct (isWhiteSpace c).
    + exists (String c w). simpl. rewrite <- IH. reflexivity.
    + exists EmptyString. reflexivity.
Qed.

Lemma list_ascii_of_string_app (s1 s2 : string) :
  list_ascii_of_string (s1 ++ s2)
  = (list_ascii_of_string s1 ++ list_ascii_of_string s2)%list.
Proof. induction s1 as [| c s1 IH]; simpl; [| rewrite IH]; reflexivity. Qed.

Lemma string_of_list_ascii_app (l1 l2 : list ascii) :
  string_of_list_ascii (l1 ++ l2)
  = string_of_list_ascii l1 ++ string_of_list_ascii l2.
Proof. induction l1 as [| c l1 IH]; simpl; [| rewrite IH]; reflexivity. Qed.

Lemma reverse_app (s1 s2 : string) :
  reverse (s1 ++ s2) = reverse s2 ++ reverse s1.
Proof.
  unfold reverse.
  rewrite list_ascii_of_string_app, rev_app_distr.
  apply string_of_list_ascii_app.
Qed.

Lemma trimEnd_prefix (s : string) : exists w, s = trimEnd s ++ w.
Proof.
  unfold trimEnd.
  destruct (trimStart_suffix (reverse s)) as [w Hw].
  exists (reverse w).
  rewrite <- reverse_app, <- Hw. symmetry. apply reverse_involutive.
Qed.

Lemma trimEnd_untrimmable (s : string) :
  untrimmable s -> untrimmable (trimEnd s).
Proof.
  intros Hs. destruct (trimEnd_prefix s) as [w Hw].
  destruct (trimEnd s) as [| c t]; [exact I |].
  rewrite Hw in Hs. exact Hs.
Qed.

Lemma trimEnd_idempotent (s : string) : trimEnd (trimEnd s) = trimEnd s.
Proof.
  unfold trimEnd. rewrite reverse_involutive.
  rewrite (trimStart_fixed (trimStart _)); [reflexivity |].
  apply trimStart_untrimmable.
Qed.

(** [s.trim().trim() === s.trim()] *)
Lemma trim_idempotent (s : string) : trim (trim s) = trim s.
Proof.
  unfold trim.
  rewrite (trimStart_fixed (trimEnd (trimStart s))).
  - apply trimEnd_idempotent.
  - apply trimEnd_untrimmable, trimStart_untrimmable.
Qed.

End TrimFacts.

(** An issue that [createIssue] has written, with its trimmed title, is
    found again by the title comparison of [transferIssues]. *)
Lemma findGHIssue_created (ghIssues : list GhIssue) (issue : Issue)
    (created : GhIssue) :
  gh_title created = JsString.trim (issue_title issue) ->
  In created ghIssues ->
  findGHIssue ghIssues issue <> None.
Proof.
  intros Ht Hin E. unfold findGHIssue in E.
  pose proof (find_none _ _ E created Hin) as Hf. cbv beta in Hf.
  rewrite Ht, TrimFacts.trim_idempotent, String.eqb_refl in Hf.
  discriminate.
Qed.

(* ===================================================================== *)
(** ** The reconciler *)
(* ===================================================================== *)

Lemma find_found_iff {A : Type} (f : A -> bool) (l : list A) :
  find f l <> None <-> exists x, In x l /\ f x = true.
Proof.
  split.
  - destruct (find f l) as [x |] eqn:E; [| congruence].
    intros _. exists x. apply (find_some _ _ E).
  - intros [x [Hin Hf]] E.
    pose proof (find_none _ _ E x Hin). congruence.
Qed.

(** C6, as the claim has it, fails for milestones: the destination title
    [ v1] equals the source title [v1] after trimming, and the source
    milestone is not taken as migrated. *)
Lemma findGHMilestone_untrimmed_title_not_matched :
  trimmedTitleIn (map ghm_title [ {| ghm_number := 1; ghm_title := " v1" |} ])
                 (ms_title milestoneV1)
  /\ findGHMilestone [ {| ghm_number := 1; ghm_title := " v1" |} ]
                     milestoneV1 = None.
Proof.
  split; [| reflexivity].
  exists " v1". split; [left; reflexivity | reflexivity].
Qed.

(** The same for merge requests. *)
Example findGHPullRequest_untrimmed_title_not_matched :
  trimmedTitleIn
    (map ghpr_title [ {| ghpr_number := 1; ghpr_title := "Add feature " |} ])
    (mr_title (mergedRequest 1))
  /\ findGHPullRequest [ {| ghpr_number := 1; ghpr_title := "Add feature " |} ]
                       (mergedRequest 1) = None.
Proof.
  split; [| reflexivity].
  exists "Add feature ". split; [left; reflexivity | reflexivity].
Qed.

(** For issues the comparison is made after trimming. *)
Example findGHIssue_trimmed_title_matched :
  findGHIssue [openGhIssue 1 "Crash" "open"]
              (assignedIssue "zed" (Some []) "text")
  = Some (openGhIssue 1 "Crash" "open")
  /\ issue_title (assignedIssue "zed" (Some []) "text") = " Crash ".
Proof. split; reflexivity. Qed.

(** C6, amended.  A source issue is taken as migrated exactly when a
    destination issue has the same title after trimming both; a source
    milestone or merge request exactly when a destination milestone or
    pull request has the very same title, untrimmed.  Nothing but the
    title is compared. *)
Theorem reconciler_match_keys :
  forall (ghMilestones : list GhMilestone) (milestone : Milestone)
         (ghIssues : list GhIssue) (issue : Issue)
         (ghPullRequests : list GhPullRequest) (mr : MergeRequest),
    (findGHMilestone ghMilestones milestone <> None
     <-> exists m, In m ghMilestones /\ ghm_title m = ms_title milestone)
    /\ (findGHIssue ghIssues issue <> None
        <-> exists i, In i ghIssues
                      /\ JsString.trim (gh_title i)
                         = JsString.trim (issue_title issue))
    /\ (findGHPullRequest ghPullRequests mr <> None
        <-> exists pr, In pr ghPullRequests /\ ghpr_title pr = mr_title mr).
Proof.
  intros. unfold findGHMilestone, findGHIssue, findGHPullRequest.
  repeat split; intros H.
  - apply find_found_iff in H. destruct H as [x [Hin Hx]].
    exists x. split; [assumption | apply String.eqb_eq; assumption].
  - apply find_found_iff. destruct H as [x [Hin Hx]].
    exists x. split; [assumption | apply String.eqb_eq; assumption].
  - apply find_found_iff in H. destruct H as [x [Hin Hx]].
    exists x. split; [assumption | apply String.eqb_eq; assumption].
  - apply find_found_iff. destruct H as [x [Hin Hx]].
    exists x. split; [assumption | apply String.eqb_eq; assumption].
  - apply find_found_iff in H. destruct H as [x [Hin Hx]].
    exists x. split; [assumption | apply String.eqb_eq; assumption].
  - apply find_found_iff. destruct H as [x [Hin Hx]].
    exists x. split; [assumption | apply String.eqb_eq; assumption].
Qed.

(* ===================================================================== *)
(** ** Failures of milestone and label creation *)
(* ===================================================================== *)

(** A handler around a dropped promise is dead code. *)
Lemma tryCatch_dropPromise {A : Type} (m : Js A) (handler : error -> Js unit) :
  tryCatch (dropPromise m) handler = dropPromise m.
Proof. reflexivity. Qed.

(** For every world: [transferMilestones] and [transferLabels] wait for no
    creation, and they log no error but that of reading the destination;
    the handlers around the creations are never entered. *)
Lemma transferMilestones_unnoticed (settings : Settings) (W : World)
    (projectId : ProjectId) :
  always unnoticed (transferMilestones settings W projectId).
Proof.
  unfold transferMilestones, getAllGHMilestones, inform, createMilestone.
  repeat (rewrite ?tryCatch_dropPromise; always_step); simpl; auto.
Qed.

Lemma transferLabels_unnoticed (settings : Settings) (W : World)
    (projectId : ProjectId) (attachmentLabel useLowerCase : bool) :
  always unnoticed
         (transferLabels settings W projectId attachmentLabel useLowerCase).
Proof.
  unfold transferLabels, getAllGHLabelNames, inform, createLabel.
  repeat (rewrite ?tryCatch_dropPromise; always_step); simpl; auto.
Qed.

(** C7.  Every creation is rejected.  [transferMilestones] and
    [transferLabels] start each creation without waiting for it, log
    neither a title with an error nor anything else about the rejection,
    and go on.  The rejection of the milestone is left without a handler;
    that of a label is swallowed. *)
Theorem creation_failures_unnoticed :
  gh_createMilestone rejectingWorld
    {| mp_owner := "octo"; mp_repo := "repo"; mp_title := "v1";
       mp_description := Some "first"; mp_state := "open";
       mp_due_on := None |}
  = inl (ApiError "Validation Failed")
  /\ trace (transferMilestones demoSettings rejectingWorld 5)
     = [ Call (GlProjectMilestonesAll 5);
         Call (GhGetMilestones "octo" "repo");
         ConsoleLog "====================================";
         ConsoleLog "Transferring Milestones";
         ConsoleLog "====================================";
         ConsoleLog "Creating: v1";
         Detached (GhCreateMilestone
                     {| mp_owner := "octo"; mp_repo := "repo";
                        mp_title := "v1"; mp_description := Some "first";
                        mp_state := "open"; mp_due_on := None |});
         Unhandled (ApiError "Validation Failed") ]
  /\ trace (transferLabels demoSettings rejectingWorld 5 true true)
     = [ Call (GlLabelsAll 5);
         Call (GhGetLabels "octo" "repo");
         ConsoleLog "====================================";
         ConsoleLog "Transferring Labels";
         ConsoleLog "====================================";
         ConsoleLog "Creating: bug";
         Detached (GhCreateLabel
                     {| lp_owner := "octo"; lp_repo := "repo";
                        lp_name := "bug"; lp_color := "ff0000" |});
         ConsoleLog "Creating: has attachment";
         Detached (GhCreateLabel
                     {| lp_owner := "octo"; lp_repo := "repo";
                        lp_name := "has attachment";
                        lp_color := "fbca04" |}) ].
Proof. repeat split; reflexivity. Qed.

(* ===================================================================== *)
(** ** Notes *)
(* ===================================================================== *)

(** A comment is posted and awaited; its rejection is swallowed. *)
Lemma createComment_swallowed (r : request) (answer : error + unit) :
  tryCatch (await r answer) (fun _ => ret tt) = ([Call r], Return tt).
Proof. destruct answer as [e | []]; reflexivity. Qed.

Section NoteLoop.
Variable settings : Settings.
Variable W : World.
Variable formatDate : string -> string.
Variable ghIssue : GhIssue.

(** The body of the loop over the notes. *)
Let step (note : Note) : Js unit :=
  if isStateChangeNote (note_body note) then ret tt
  else
    bodyConverted <-
      liftE (convertIssuesAndComments settings formatDate
               (Some (note_body note)) (Some (noteItem note))) ;;
    let props :=
      {| cp_owner := github_owner settings;
         cp_repo := github_repo settings;
         cp_number := gh_number ghIssue;
         cp_body := bodyConverted |} in
    tryCatch (await (GhCreateComment props) (gh_createComment W props))
             (fun _ => ret tt).

Lemma forOf_notes (l : list Note) :
  (forall note, In note l ->
     isStateChangeNote (note_body note) = false ->
     exists body,
       convertIssuesAndComments settings formatDate
         (Some (note_body note)) (Some (noteItem note)) = inr body) ->
  forOf l step
  = (map (commentCall settings formatDate ghIssue)
         (filter (fun note => negb (isStateChangeNote (note_body note))) l),
     Return tt).
Proof.
  induction l as [| note l IH]; intros Hconv; [reflexivity |].
  simpl forOf. simpl filter.
  rewrite IH by (intros n Hn; apply Hconv; right; exact Hn).
  unfold step at 1.
  destruct (isStateChangeNote (note_body note)) eqn:E; simpl negb; cbv iota.
  - rewrite bind_ret_l. reflexivity.
  - destruct (Hconv note (or_introl eq_refl) E) as [body Hbody].
    rewrite Hbody.
    apply convertIssuesAndComments_returns_migration_line in Hbody.
    subst body. simpl liftE. rewrite bind_ret_l.
    rewrite createComment_swallowed. reflexivity.
Qed.
End NoteLoop.

(** C8, as the claim has it, fails where the conversion of a note throws:
    without user map and with a project key that begins with [@], the note
    [see @grp/proj#3] matches none of the patterns and is not
    transferred. *)
Lemma createIssueComments_conversion_error_not_transferred :
  isStateChangeNote "see @grp/proj#3" = false
  /\ createIssueComments projectOnlySettings
       (worldWith [] [] [noteWith 1 "see @grp/proj#3"] [] (inr tt))
       demoFormat (openGhIssue 1 "Crash" "open") (sourceIssue 1 "Crash")
     = ([ Call (GlIssueNotesAll 5 (Some 1%Z));
          ConsoleError "Could not fetch notes for GitLab issue #undefined";
          ConsoleErrorObj (TypeError "Cannot read property of null") ],
        Return tt).
Proof. split; reflexivity. Qed.

(** C8, amended.  When the notes of the issue are fetched and the
    conversion of no transferable note throws, [createIssueComments] posts,
    in ascending order of the ids, one comment for each note whose body
    does not satisfy the filter condition, and nothing for the others.
    The body [Status changed to closed] satisfies the condition; the body
    [Status changed to closed by commit abc123] does not. *)
Theorem createIssueComments_transfers_kept_notes
    (settings : Settings) (W : World) (formatDate : string -> string)
    (ghIssue : GhIssue) (issue : Issue) (notes : list Note) :
  gl_issueNotes W (gitlab_projectId settings) (issue_iid issue) = inr notes ->
  (forall note, In note notes ->
     isStateChangeNote (note_body note) = false ->
     exists body,
       convertIssuesAndComments settings formatDate
         (Some (note_body note)) (Some (noteItem note)) = inr body) ->
  createIssueComments settings W formatDate ghIssue issue
  = (Call (GlIssueNotesAll (gitlab_projectId settings) (issue_iid issue))
       :: map (commentCall settings formatDate ghIssue) (keptNotes notes),
     Return tt)
  /\ isStateChangeNote "Status changed to closed" = true
  /\ isStateChangeNote "Status changed to closed by commit abc123" = false.
Proof.
  intros Hfetch Hconv. split; [| split; reflexivity].
  unfold createIssueComments. unfold await at 1. rewrite Hfetch.
  destruct notes as [| n0 notes']; [reflexivity |].
  rewrite bind_return. cbv beta.
  change (List.length (n0 :: notes') =? 0)%nat with false. cbv iota zeta.
  rewrite forOf_notes.
  - reflexivity.
  - intros note Hin. apply Hconv.
    eapply Permutation_in; [| exact Hin].
    apply Permutation_sym, jsSort_perm.
Qed.

(** Three notes, fetched in descending order of their ids: the greeting
    and the narration of the closing commit are posted, in this order. *)
Lemma createIssueComments_transfers_kept_notes_witness :
  createIssueComments demoSettings
    (worldWith [] []
       [ noteWith 3 "Status changed to closed by commit abc123";
         noteWith 2 "Status changed to closed";
         noteWith 1 "hello @alice" ] [] (inr tt))
    demoFormat (openGhIssue 1 "Crash" "open") (sourceIssue 1 "Crash")
  = (Call (GlIssueNotesAll 5 (Some 1%Z))
       :: map (commentCall demoSettings demoFormat
                 (openGhIssue 1 "Crash" "open"))
              [ noteWith 1 "hello @alice";
                noteWith 3 "Status changed to closed by commit abc123" ],
     Return tt).
Proof.
  refine (proj1 (createIssueComments_transfers_kept_notes demoSettings
                   (worldWith [] []
                      [ noteWith 3 "Status changed to closed by commit abc123";
                        noteWith 2 "Status changed to closed";
                        noteWith 1 "hello @alice" ] [] (inr tt))
                   demoFormat (openGhIssue 1 "Crash" "open")
                   (sourceIssue 1 "Crash") _ eq_refl _)).
  intros note [<- | [<- | [<- | []]]] _; eexists; reflexivity.
Defined.

(* ===================================================================== *)
(** ** The state of destination issues *)
(* ===================================================================== *)

Lemma updateIssueState_trace (settings : Settings) (W : World)
    (ghIssue : GhIssue) (issue : Issue) :
  trace (updateIssueState settings W ghIssue issue)
  = if (issue_state issue =? "closed") && negb (gh_state ghIssue =? "closed")
    then [closingEdit settings ghIssue] else [].
Proof.
  unfold updateIssueState, closingEdit.
  destruct (issue_state issue =? "closed") eqn:Es;
    destruct (gh_state ghIssue =? "closed"); simpl; try reflexivity.
  apply String.eqb_eq in Es. rewrite Es. reflexivity.
Qed.

Lemma updateIssueState_editsClose (P : event -> Prop) (settings : Settings)
    (W : World) (ghIssue : GhIssue) (issue : Issue) :
  (forall p, ep_state p = "closed" -> P (Call (GhEditIssue p))) ->
  always P (updateIssueState settings W ghIssue issue).
Proof.
  intros HP. unfold always. rewrite updateIssueState_trace.
  destruct ((issue_state issue =? "closed")
            && negb (gh_state ghIssue =? "closed")); repeat constructor.
  apply HP. reflexivity.
Qed.

(** No run of the migration edits a destination issue to a state other
    than [closed]. *)
Lemma migrate_editsClose (settings : Settings) (W : World)
    (formatDate : string -> string) :
  always editsClose (migrate settings W formatDate).
Proof.
  unfold migrate, transferMilestones, transferLabels, transferIssues,
    transferMergeRequests, getAllGHMilestones, getAllGHLabelNames,
    getAllGHPullRequests, getAllGHIssues, inform, createMilestone,
    createLabel, createIssueAndComments, createIssue, createIssueComments,
    createPRAndComments, createGHBranch, createPR.
  repeat first
    [ apply updateIssueState_editsClose; intros; simpl; assumption
    | always_step ];
    simpl; auto.
Qed.

Lemma stateAfter_closed (number : Z) (t : list event) :
  Forall editsClose t -> stateAfter number "closed" t = "closed".
Proof.
  induction 1 as [| e t He Ht IH]; [reflexivity |].
  destruct e as [| | | [] | [] |]; simpl in *; try exact IH;
    rewrite He; destruct (_ =? number)%Z; exact IH.
Qed.

(** C9.  [updateIssueState] edits the destination issue exactly when the
    source issue is closed and the destination issue is not; the edit sets
    the state [closed].  In a whole run every edit sets the state
    [closed], so an issue that is closed stays closed; and where source
    and destination are both open nothing is edited. *)
Theorem updateIssueState_closes_only :
  forall (settings : Settings) (W : World) (formatDate : string -> string)
         (ghIssue : GhIssue) (issue : Issue),
    ((exists p, In (Call (GhEditIssue p))
                   (trace (updateIssueState settings W ghIssue issue)))
     <-> (issue_state issue = "closed" /\ gh_state ghIssue <> "closed"))
    /\ trace (updateIssueState settings W ghIssue issue)
       = (if (issue_state issue =? "closed")
             && negb (gh_state ghIssue =? "closed")
          then [closingEdit settings ghIssue] else [])
    /\ always editsClose (migrate settings W formatDate)
    /\ (forall number,
          stateAfter number "closed" (trace (migrate settings W formatDate))
          = "closed")
    /\ trace (updateIssueState settings W (openGhIssue 1 "Crash" "open")
                (sourceIssue 1 "Crash")) = [].
Proof.
  intros. split; [split | split; [| split; [| split]]].
  - rewrite updateIssueState_trace. intros [p Hp].
    destruct (issue_state issue =? "closed") eqn:Es; [| destruct Hp].
    destruct (gh_state ghIssue =? "closed") eqn:Eg; [destruct Hp |].
    split; [apply String.eqb_eq; exact Es | apply String.eqb_neq; exact Eg].
  - intros [Hs Hg]. rewrite updateIssueState_trace.
    apply String.eqb_eq in Hs. apply String.eqb_neq in Hg.
    rewrite Hs, Hg. eexists. left. reflexivity.
  - apply updateIssueState_trace.
  - apply migrate_editsClose.
  - intros number. apply stateAfter_closed. apply migrate_editsClose.
  - reflexivity.
Qed.

(* ===================================================================== *)
(** ** Issue creation: the attachment label *)
(* ===================================================================== *)

(** The test of the attachment step holds exactly for a body that is a
    string with [/uploads/] somewhere in it. *)
Lemma hasAttachment_iff (body : option string) :
  hasAttachment body = true
  <-> exists b k, body = Some b /\ substring k 9 b = "/uploads/".
Proof.
  unfold hasAttachment, JsString.indexOf. split.
  - destruct body as [b |]; [| discriminate].
    destruct (index 0 "/uploads/" b) as [k |] eqn:E.
    + intros _. exists b, k. split; [reflexivity |].
      apply (index_correct1 _ _ _ _ E).
    + rewrite andb_false_r. discriminate.
  - intros [b [k [-> Hk]]].
    destruct (index 0 "/uploads/" b) as [k' |] eqn:E.
    + assert (Hb : JsString.truthy b = true).
      { destruct b; [destruct k; discriminate | reflexivity]. }
      rewrite Hb. simpl. apply Z.gtb_lt. lia.
    + exfalso.
      apply (index_correct3 0 k "/uploads/" b E); [discriminate | lia |].
      exact Hk.
Qed.

(** C10, as the claim has it, fails for an issue whose assignee is a key
    of the user map: it has no labels field, its converted body contains
    [/uploads/], and [createIssue] throws a reference error, not a type
    error. *)
Lemma createIssue_without_labels_reference_error :
  issue_labels (assignedIssue "alice" None "see /uploads/a.png") = None
  /\ convertIssuesAndComments demoSettings demoFormat
       (Some "see /uploads/a.png")
       (Some (issueItem (assignedIssue "alice" None "see /uploads/a.png")))
     = inr (Some ("In GitLab by @ann on Mar 1, 2018, 10:00" ++ nl ++ nl
                  ++ "see /uploads/a.png"))
  /\ hasAttachment (Some ("In GitLab by @ann on Mar 1, 2018, 10:00" ++ nl
                          ++ nl ++ "see /uploads/a.png")) = true
  /\ createIssue demoSettings (worldWith [] [] [] [] (inr tt)) demoFormat
       "octo" "repo" [] (assignedIssue "alice" None "see /uploads/a.png")
     = throw (ReferenceError "item is not defined").
Proof. repeat split; reflexivity. Qed.

(** C10, amended.  Let the converted body of an issue contain [/uploads/]
    and let the assignee step not take the branch of the user map.  If the
    issue has no labels field, [createIssue] throws a type error at the
    attachment step and makes no remote call; if it has a labels list, the
    issue is created with that list and [has attachment] after it. *)
Theorem createIssue_attachment_needs_labels
    (settings : Settings) (W : World) (formatDate : string -> string)
    (owner repo : string) (milestones : list GhMilestone) (issue : Issue)
    (body : option string) :
  convertIssuesAndComments settings formatDate (issue_description issue)
    (Some (issueItem issue)) = inr body ->
  hasAttachment body = true ->
  assigneeMapped settings issue = false ->
  match issue_labels issue with
  | None =>
      createIssue settings W formatDate owner repo milestones issue
      = throw (TypeError "Cannot read property 'push' of undefined")
  | Some labels =>
      exists props,
        createIssue settings W formatDate owner repo milestones issue
        = await (GhCreateIssue props) (gh_createIssue W props)
        /\ ip_body props = body
        /\ ip_labels props = Some (labels ++ ["has attachment"])%list
  end.
Proof.
  intros Hc Ha Hm. unfold createIssue. rewrite Hc. simpl liftE.
  rewrite bind_ret_l. unfold assigneeMapped in Hm.
  destruct (issue_assignee issue) as [assignee |].
  - destruct (username assignee =? github_username settings); simpl in Hm.
    + rewrite bind_ret_l, Ha.
      destruct (issue_labels issue) as [labels |]; [| reflexivity].
      rewrite bind_ret_l. eexists. repeat split.
    + rewrite Hm, bind_ret_l, Ha.
      destruct (issue_labels issue) as [labels |]; [| reflexivity].
      rewrite bind_ret_l. eexists. repeat split.
  - rewrite bind_ret_l, Ha.
    destruct (issue_labels issue) as [labels |]; [| reflexivity].
    rewrite bind_ret_l. eexists. repeat split.
Qed.

(** A placeholder whose description names an upload. *)
Lemma createIssue_attachment_needs_labels_witness :
  createIssue demoSettings (worldWith [] [] [] [] (inr tt)) demoFormat
    "octo" "repo" []
    {| issue_id := None; issue_iid := None;
       issue_title := issue_title placeholderItem;
       issue_description := Some "moved to /uploads/a.png";
       issue_state := "closed"; issue_author := None;
       issue_created_at := None; issue_assignee := None;
       issue_milestone := None; issue_labels := None |}
  = throw (TypeError "Cannot read property 'push' of undefined").
Proof.
  exact (createIssue_attachment_needs_labels demoSettings
           (worldWith [] [] [] [] (inr tt)) demoFormat "octo" "repo" []
           {| issue_id := None; issue_iid := None;
              issue_title := issue_title placeholderItem;
              issue_description := Some "moved to /uploads/a.png";
              issue_state := "closed"; issue_author := None;
              issue_created_at := None; issue_assignee := None;
              issue_milestone := None; issue_labels := None |}
           (Some "moved to /uploads/a.png") eq_refl eq_refl eq_refl).
Defined.

(* ===================================================================== *)
(** ** Further properties: reading the destination *)
(* ===================================================================== *)

Lemma await_then_ret {A B : Type} (r : request) (a : A) (b : B) :
  (await r (inr a) ;;; ret b) = ([Call r], Return b).
Proof. reflexivity. Qed.

(** The whole run of the page loop from a state that holds the pages
    before [page]: one request for each page up to the first that is not
    full, and all issues as the result. *)
Lemma getAllGHIssuesFrom_run (W : World) (owner repo : string)
    (all allIssues : list GhIssue) (page : positive) :
  gh_issues W owner repo = inr all ->
  perPage * (Pos.to_nat page - 1) <= List.length all ->
  allIssues = firstn (perPage * (Pos.to_nat page - 1)) all ->
  getAllGHIssuesFrom W owner repo allIssues page
  = (pageCalls owner repo (Pos.to_nat page)
       (List.length all / perPage + 2 - Pos.to_nat page),
     Return all).
Proof.
  intros Hall. funelim (getAllGHIssuesFrom W owner repo allIssues page);
    intros Hoff Hacc;
    repeat match goal with
           | H : {| pr1 := _; pr2 := _ |} = _ |- _ => clear H
           end;
    match goal with E : issuesPage _ _ _ _ = _ |- _ =>
      unfold issuesPage in E; rewrite Hall in E end;
    try discriminate;
    match goal with E : inr _ = inr ?x |- _ =>
      assert (Hx : x = firstn perPage
                         (skipn (perPage * (Pos.to_nat page - 1)) all))
        by congruence
    end;
    assert (Hpos : 0 < perPage) by (unfold perPage; lia);
    pose proof (Pos2Nat.is_pos page) as Hpage.
  - match goal with E : (_ =? 0)%nat = true |- _ =>
      apply Nat.eqb_eq in E;
      rewrite Hx, length_firstn, length_skipn in E end.
    assert (Hq : List.length all / perPage = Pos.to_nat page - 1).
    { symmetry.
      apply (Nat.div_unique _ _ _
               (List.length all - perPage * (Pos.to_nat page - 1))); lia. }
    rewrite await_then_ret, Hq.
    replace (Pos.to_nat page - 1 + 2 - Pos.to_nat page) with 1 by lia.
    unfold pageCalls. cbn [seq map]. rewrite Pos2Nat.id.
    subst allIssues. rewrite firstn_all2 by lia. reflexivity.
  - match goal with E : (_ <? _)%nat = true |- _ =>
      apply Nat.ltb_lt in E;
      rewrite Hx, length_firstn, length_skipn in E end.
    assert (Hq : List.length all / perPage = Pos.to_nat page - 1).
    { symmetry.
      apply (Nat.div_unique _ _ _
               (List.length all - perPage * (Pos.to_nat page - 1))); lia. }
    rewrite await_then_ret, Hq.
    replace (Pos.to_nat page - 1 + 2 - Pos.to_nat page) with 1 by lia.
    unfold pageCalls. cbn [seq map]. rewrite Pos2Nat.id.
    subst allIssues.
    rewrite Hx, (firstn_all2 (n := perPage))
      by (rewrite length_skipn; lia).
    rewrite firstn_skipn. reflexivity.
  - match goal with E : (_ <? _)%nat = false |- _ =>
      apply Nat.ltb_ge in E;
      rewrite Hx, length_firstn, length_skipn in E end.
    assert (Hnext : perPage * (Pos.to_nat (Pos.succ page) - 1)
                    = perPage * (Pos.to_nat page - 1) + perPage).
    { rewrite Pos2Nat.inj_succ.
      replace (S (Pos.to_nat page) - 1) with (S (Pos.to_nat page - 1))
        by lia.
      apply Nat.mul_succ_r. }
    assert (Hq : Pos.to_nat page <= List.length all / perPage).
    { apply Nat.div_le_lower_bound; [lia |].
      replace (Pos.to_nat page) with (S (Pos.to_nat page - 1)) by lia.
      rewrite Nat.mul_succ_r. lia. }
    match goal with
    | IH : list GhIssue -> forall a, _ -> _ -> _ -> _ = _ |- _ =>
        rewrite (IH issues all Hall)
    end.
    + unfold await. rewrite bind_return. cbn [trace result fst snd].
      unfold pageCalls.
      replace (List.length all / perPage + 2 - Pos.to_nat page)
        with (S (List.length all / perPage + 2
                 - Pos.to_nat (Pos.succ page)))
        by (rewrite Pos2Nat.inj_succ; lia).
      cbn [seq map]. rewrite Pos2Nat.id, Pos2Nat.inj_succ. reflexivity.
    + rewrite Hnext. lia.
    + rewrite Hnext, firstn_add, <- Hacc, Hx. reflexivity.
Qed.

Lemma getAllGHIssues_run (W : World) (owner repo : string)
    (all : list GhIssue) :
  gh_issues W owner repo = inr all ->
  getAllGHIssues W owner repo
  = (pageCalls owner repo 1 (List.length all / perPage + 1), Return all).
Proof.
  intros Hall. unfold getAllGHIssues.
  rewrite (getAllGHIssuesFrom_run W owner repo all [] 1 Hall).
  - change (Pos.to_nat 1) with 1.
    replace (List.length all / perPage + 2 - 1)
      with (List.length all / perPage + 1) by lia.
    reflexivity.
  - change (Pos.to_nat 1) with 1. rewrite Nat.mul_0_r. lia.
  - change (Pos.to_nat 1) with 1. rewrite Nat.mul_0_r. reflexivity.
Qed.

(** X1.  When the destination can be asked for its issues,
    [getAllGHIssues] returns all of them, in order, and asks for the pages
    1, 2, ... up to the first that is not full: one request more than
    there are full pages, also when the last issue fills a page. *)
Theorem getAllGHIssues_reads_every_page (W : World) (owner repo : string)
    (all : list GhIssue) :
  gh_issues W owner repo = inr all ->
  getAllGHIssues W owner repo
  = (pageCalls owner repo 1 (List.length all / perPage + 1), Return all).
Proof. exact (getAllGHIssues_run W owner repo all). Qed.

(** Two destination issues: one request, for page 1. *)
Lemma getAllGHIssues_reads_every_page_witness :
  getAllGHIssues
    (issuesWorld [] [openGhIssue 1 "a" "open"; openGhIssue 2 "b" "closed"])
    "octo" "repo"
  = ([Call (GhGetForRepo "octo" "repo" 1)],
     Return [openGhIssue 1 "a" "open"; openGhIssue 2 "b" "closed"]).
Proof.
  exact (getAllGHIssues_reads_every_page
           (issuesWorld [] [openGhIssue 1 "a" "open";
                            openGhIssue 2 "b" "closed"])
           "octo" "repo" _ eq_refl).
Defined.

(** When the destination refuses, the first request throws. *)
Lemma getAllGHIssuesFrom_fails (W : World) (owner repo : string)
    (allIssues : list GhIssue) (page : positive) (err : error) :
  gh_issues W owner repo = inl err ->
  getAllGHIssuesFrom W owner repo allIssues page
  = ([Call (GhGetForRepo owner repo page)], Throw err).
Proof.
  intros Hall. funelim (getAllGHIssuesFrom W owner repo allIssues page);
    repeat match goal with
           | H : {| pr1 := _; pr2 := _ |} = _ |- _ => clear H
           end;
    match goal with E : issuesPage _ _ _ _ = _ |- _ =>
      unfold issuesPage in E; rewrite Hall in E end;
    try discriminate.
  match goal with E : inl _ = inl _ |- _ => injection E as <- end.
  reflexivity.
Qed.

Lemma fold_left_push (all : list GhIssue) (arr : list GhPullRequest) :
  fold_left
    (fun arr x =>
       if gh_pull_request x
       then (arr ++ [ {| ghpr_number := gh_number x;
                         ghpr_title := gh_title x |} ])%list
       else arr)
    all arr
  = (arr ++ map asPullRequest (filter gh_pull_request all))%list.
Proof.
  revert arr. induction all as [| x all IH]; intros arr; simpl.
  - rewrite app_nil_r. reflexivity.
  - rewrite IH. destruct (gh_pull_request x); [| reflexivity].
    simpl. rewrite <- app_assoc. reflexivity.
Qed.

(** X2.  When the destination can be asked for its issues,
    [getAllGHPullRequests] returns the number and title of exactly those
    that carry the [pull_request] field, in the order of the listing, and
    writes nothing to the console. *)
Theorem getAllGHPullRequests_keeps_pull_requests (W : World)
    (owner repo : string) (all : list GhIssue) :
  gh_issues W owner repo = inr all ->
  getAllGHPullRequests W owner repo
  = (pageCalls owner repo 1 (List.length all / perPage + 1),
     Return (map asPullRequest (filter gh_pull_request all))).
Proof.
  intros Hall. unfold getAllGHPullRequests.
  rewrite (getAllGHIssues_run W owner repo all Hall), bind_return.
  cbv beta. rewrite fold_left_push. unfold ret, trace, result.
  cbn [fst snd app tryCatch]. rewrite app_nil_r. reflexivity.
Qed.

(** An issue and a pull request in the listing: the pull request is
    kept. *)
Lemma getAllGHPullRequests_keeps_pull_requests_witness :
  getAllGHPullRequests
    (issuesWorld []
       [ openGhIssue 1 "a" "open";
         {| gh_number := 2; gh_title := "b"; gh_state := "open";
            gh_pull_request := true |} ])
    "octo" "repo"
  = ([Call (GhGetForRepo "octo" "repo" 1)],
     Return [ {| ghpr_number := 2; ghpr_title := "b" |} ]).
Proof.
  exact (getAllGHPullRequests_keeps_pull_requests
           (issuesWorld []
              [ openGhIssue 1 "a" "open";
                {| gh_number := 2; gh_title := "b"; gh_state := "open";
                   gh_pull_request := true |} ])
           "octo" "repo" _ eq_refl).
Defined.

(** X3.  When the milestones of the destination cannot be read, the run
    ends there with exit code 1: the failure is written to the console and
    neither a label, an issue nor a merge request is looked at. *)
Theorem migrate_exits_when_milestones_unreadable (settings : Settings)
    (W : World) (formatDate : string -> string) (rate : Z * Z)
    (milestones : list Milestone) (err : error) :
  gh_rateLimit W = inr rate ->
  gl_milestones W (gitlab_projectId settings) = inr milestones ->
  gh_milestones W (github_owner settings) (github_repo settings) = inl err ->
  migrate settings W formatDate
  = ([ Call GhGetRateLimit;
       ConsoleLog "====================================";
       ConsoleLog "Beginning GitLab to GitHub Migration";
       ConsoleLog (rateLine rate);
       ConsoleLog "====================================";
       Call (GlProjectMilestonesAll (gitlab_projectId settings));
       Call (GhGetMilestones (github_owner settings) (github_repo settings));
       ConsoleError "Could not access all GitHub milestones";
       ConsoleErrorObj err ],
     Exit 1).
Proof.
  intros Hrate Hms Hgh.
  unfold migrate, transferMilestones, getAllGHMilestones, await.
  rewrite Hrate, Hms, Hgh. reflexivity.
Qed.

Lemma migrate_exits_when_milestones_unreadable_witness :
  result (migrate demoSettings unreadableMilestonesWorld demoFormat)
  = Exit 1.
Proof.
  exact (f_equal snd
           (migrate_exits_when_milestones_unreadable demoSettings
              unreadableMilestonesWorld demoFormat (5000, 5000)%Z
              [milestoneV1] (ApiError "Not Found")
              eq_refl eq_refl eq_refl)).
Defined.

(** X4.  When the issues of the destination cannot be listed,
    [transferIssues] throws the error of the listing to its caller after
    its three reads, while [transferMergeRequests] (through
    [getAllGHPullRequests]) catches the same error, writes it to the
    console and ends the process with exit code 1; neither writes to the
    destination. *)
Theorem listing_failure_throws_or_exits (settings : Settings) (W : World)
    (formatDate : string -> string) (owner repo : string)
    (projectId : ProjectId)
    (ghMilestones : list GhMilestone) (issues : list Issue)
    (mergeRequests : list MergeRequest) (err : error) :
  gh_issues W owner repo = inl err ->
  gh_issues W (github_owner settings) (github_repo settings) = inl err ->
  gh_milestones W owner repo = inr ghMilestones ->
  gl_issues W projectId = inr issues ->
  gl_mergeRequests W 188 = inr mergeRequests ->
  transferIssues settings W formatDate owner repo projectId
  = ([ Call (GhGetMilestones owner repo);
       Call (GlIssuesAll projectId);
       Call (GhGetForRepo (github_owner settings) (github_repo settings) 1) ],
     Throw err)
  /\ transferMergeRequests settings W owner repo projectId
     = ([ Call (GlMergeRequestsAll 188);
          Call (GhGetForRepo owner repo 1);
          ConsoleError "Could not access all GitHub pull requests!";
          ConsoleErrorObj err ],
        Exit 1).
Proof.
  intros Hgh Hgh' Hms His Hmrs. split.
  - unfold transferIssues, getAllGHMilestones, getAllGHIssues, await.
    rewrite Hms, His.
    rewrite (getAllGHIssuesFrom_fails W _ _ [] 1 err Hgh').
    reflexivity.
  - unfold transferMergeRequests, getAllGHPullRequests, getAllGHIssues,
      await.
    rewrite Hmrs.
    rewrite (getAllGHIssuesFrom_fails W _ _ [] 1 err Hgh).
    reflexivity.
Qed.

Lemma listing_failure_throws_or_exits_witness :
  result (transferIssues demoSettings unlistableWorld demoFormat
            "octo" "repo" 5)
  = Throw (ApiError "Not Found")
  /\ result (transferMergeRequests demoSettings unlistableWorld
               "octo" "repo" 5)
     = Exit 1.
Proof.
  destruct (listing_failure_throws_or_exits demoSettings unlistableWorld
              demoFormat "octo" "repo" 5 [] [] [] (ApiError "Not Found")
              eq_refl eq_refl eq_refl eq_refl eq_refl) as [H1 H2].
  split; [exact (f_equal snd H1) | exact (f_equal snd H2)].
Defined.

(* ===================================================================== *)
(** ** Further properties: how a run ends *)
(* ===================================================================== *)

Section NoExit.

Lemma noExit_ret {A : Type} (a : A) : noExit (ret a).
Proof. intros c. discriminate. Qed.

Lemma noExit_throw {A : Type} (e : error) : noExit (@throw A e).
Proof. intros c. discriminate. Qed.

Lemma noExit_emit (e : event) : noExit (emit e).
Proof. intros c. discriminate. Qed.

Lemma noExit_await {A : Type} (r : request) (answer : error + A) :
  noExit (await r answer).
Proof. intros c. destruct answer; discriminate. Qed.

Lemma noExit_liftE {A : Type} (x : error + A) : noExit (liftE x).
Proof. intros c. destruct x; discriminate. Qed.

Lemma noExit_dropPromise {A : Type} (m : Js A) : noExit (dropPromise m).
Proof. intros c. discriminate. Qed.

Lemma noExit_bind {A B : Type} (m : Js A) (k : A -> Js B) :
  noExit m -> (forall a, noExit (k a)) -> noExit (bind m k).
Proof.
  intros Hm Hk c. rewrite result_bind.
  destruct (result m) as [a | e | c'] eqn:E.
  - apply Hk.
  - discriminate.
  - exfalso. exact (Hm c' E).
Qed.

Lemma noExit_tryCatch {A : Type} (m : Js A) (handler : error -> Js A) :
  noExit m -> (forall e, noExit (handler e)) -> noExit (tryCatch m handler).
Proof.
  intros Hm Hh c. destruct m as [t [a | e | c']]; simpl.
  - discriminate.
  - specialize (Hh e c). destruct (handler e). exact Hh.
  - exact (Hm c).
Qed.

Lemma noExit_forOf {A : Type} (l : list A) (body : A -> Js unit) :
  (forall x, noExit (body x)) -> noExit (forOf l body).
Proof.
  intros H. induction l as [| x l IH]; simpl.
  - apply noExit_ret.
  - apply noExit_bind; [apply H | intros _; exact IH].
Qed.

End NoExit.

(** One step of a proof that a computation does not end the process. *)
Ltac noExit_step :=
  match goal with
  | |- noExit (bind _ _) => apply noExit_bind; [| intros]
  | |- noExit (tryCatch _ _) => apply noExit_tryCatch; [| intros]
  | |- noExit (forOf _ _) => apply noExit_forOf; intros
  | |- noExit (dropPromise _) => apply noExit_dropPromise
  | |- noExit (ret _) => apply noExit_ret
  | |- noExit (throw _) => apply noExit_throw
  | |- noExit (liftE _) => apply noExit_liftE
  | |- noExit (console_log _) => apply noExit_emit
  | |- noExit (console_error _) => apply noExit_emit
  | |- noExit (console_error_obj _) => apply noExit_emit
  | |- noExit (await _ _) => apply noExit_await
  | |- noExit (if ?b then _ else _) => destruct b
  | |- noExit (match ?x with _ => _ end) => destruct x
  end.

(** A guarded computation whose handler returns, returns. *)
Lemma tryCatch_returns (m : Js unit) (handler : error -> Js unit) :
  noExit m -> (forall e, result (handler e) = Return tt) ->
  result (tryCatch m handler) = Return tt.
Proof.
  intros Hm Hh. destruct m as [t [[] | e | c]]; simpl.
  - reflexivity.
  - specialize (Hh e). destruct (handler e). exact Hh.
  - exfalso. exact (Hm c eq_refl).
Qed.

Lemma forOf_returns {A : Type} (l : list A) (body : A -> Js unit) :
  (forall x, result (body x) = Return tt) ->
  result (forOf l body) = Return tt.
Proof.
  intros H. induction l as [| x l IH]; simpl; [reflexivity |].
  rewrite result_bind, H. exact IH.
Qed.

Lemma result_log_then {A : Type} (msg : string) (m : Js A) :
  result (console_log msg ;;; m) = result m.
Proof. rewrite result_bind. reflexivity. Qed.

Lemma inform_returns (msg : string) : result (inform msg) = Return tt.
Proof. reflexivity. Qed.

Lemma inform_run (msg : string) :
  inform msg
  = ([ ConsoleLog "====================================";
       ConsoleLog msg;
       ConsoleLog "====================================" ],
     Return tt).
Proof. reflexivity. Qed.

Lemma createIssueAndComments_noExit (settings : Settings) (W : World)
    (formatDate : string -> string) (owner repo : string)
    (milestones : list GhMilestone) (issue : Issue) :
  noExit (createIssueAndComments settings W formatDate owner repo
            milestones issue).
Proof.
  unfold createIssueAndComments, createIssue, createIssueComments,
    updateIssueState.
  repeat noExit_step.
Qed.

Lemma createPRAndComments_noExit (settings : Settings) (W : World)
    (owner repo : string) (mr : MergeRequest) :
  noExit (createPRAndComments settings W owner repo mr).
Proof.
  unfold createPRAndComments, createGHBranch, createPR.
  repeat noExit_step.
Qed.

Lemma transferMilestones_returns (settings : Settings) (W : World)
    (projectId : ProjectId) (milestones : list Milestone)
    (ghMilestones : list GhMilestone) :
  gl_milestones W projectId = inr milestones ->
  gh_milestones W (github_owner settings) (github_repo settings)
  = inr ghMilestones ->
  result (transferMilestones settings W projectId) = Return tt.
Proof.
  intros Hms Hgh. unfold transferMilestones, getAllGHMilestones, await.
  rewrite Hms, Hgh. rewrite bind_return. cbn [result snd tryCatch].
  rewrite bind_return. cbn [result snd].
  rewrite result_bind, inform_returns.
  apply forOf_returns. intros m.
  destruct (findGHMilestone ghMilestones m); reflexivity.
Qed.

Lemma transferLabels_returns (settings : Settings) (W : World)
    (projectId : ProjectId) (attachmentLabel useLowerCase : bool)
    (labels : list Label) (ghLabels : list string) :
  gl_labels W projectId = inr labels ->
  gh_labelNames W (github_owner settings) (github_repo settings)
  = inr ghLabels ->
  result (transferLabels settings W projectId attachmentLabel useLowerCase)
  = Return tt.
Proof.
  intros Hls Hgh. unfold transferLabels, getAllGHLabelNames, await.
  rewrite Hls, Hgh. rewrite bind_return. cbn [result snd tryCatch].
  rewrite bind_return. cbn [result snd].
  rewrite result_bind, inform_returns.
  apply forOf_returns. intros l. cbv zeta.
  match goal with |- context [if ?c then _ else console_log _] =>
    destruct c end; reflexivity.
Qed.

Lemma transferIssues_returns (settings : Settings) (W : World)
    (formatDate : string -> string) (owner repo : string)
    (projectId : ProjectId)
    (ghMilestones : list GhMilestone) (issues : list Issue)
    (ghIssues : list GhIssue) :
  gh_milestones W owner repo = inr ghMilestones ->
  gl_issues W projectId = inr issues ->
  gh_issues W (github_owner settings) (github_repo settings)
  = inr ghIssues ->
  result (transferIssues settings W formatDate owner repo projectId)
  = Return tt.
Proof.
  intros Hms His Hgh. unfold transferIssues, getAllGHMilestones, await.
  rewrite Hms, His. cbn [tryCatch]. rewrite bind_return. cbv beta.
  rewrite bind_return. cbv beta zeta.
  rewrite (getAllGHIssues_run W _ _ ghIssues Hgh).
  cbn [result snd]. rewrite bind_return. cbn [result snd].
  rewrite result_bind, inform_returns.
  rewrite result_bind, gapLoop_result.
  apply forOf_returns. intros issue.
  destruct (findGHIssue ghIssues issue); [reflexivity |].
  rewrite result_log_then. apply tryCatch_returns; [| reflexivity].
  apply createIssueAndComments_noExit.
Qed.

Lemma transferMergeRequests_returns (settings : Settings) (W : World)
    (owner repo : string) (projectId : ProjectId)
    (mergeRequests : list MergeRequest) (ghIssues : list GhIssue) :
  gl_mergeRequests W 188 = inr mergeRequests ->
  gh_issues W owner repo = inr ghIssues ->
  result (transferMergeRequests settings W owner repo projectId)
  = Return tt.
Proof.
  intros Hmrs Hgh. unfold transferMergeRequests, await.
  rewrite Hmrs. rewrite bind_return. cbv beta zeta.
  unfold getAllGHPullRequests.
  rewrite (getAllGHIssues_run W _ _ ghIssues Hgh).
  rewrite (bind_return (pageCalls _ _ _ _)). cbn [result snd tryCatch ret].
  cbn [result snd]. rewrite bind_return. cbn [result snd].
  rewrite result_bind, inform_returns.
  apply forOf_returns. intros mr.
  destruct (findGHPullRequest _ mr); [reflexivity |].
  rewrite result_log_then. apply tryCatch_returns; [| reflexivity].
  apply createPRAndComments_noExit.
Qed.

(** No event of a trace is a rejection without handler exactly when the
    trace has no such rejection. *)
Lemma settled_unhandled (t : list event) :
  Forall settled t <-> unhandled t = [].
Proof.
  induction t as [| e t IH]; [split; constructor |].
  split.
  - intros H. inversion H as [| ? ? He Ht]; subst.
    destruct e; simpl in *; try (apply IH; exact Ht). destruct He.
  - intros H. destruct e; simpl in *;
      try (constructor; [exact I | apply IH; exact H]).
    discriminate.
Qed.

(** Dropping the promise of a computation that does not throw leaves no
    rejection. *)
Lemma always_dropPromise_kept (P : event -> Prop) {A : Type} (m : Js A) :
  (forall err, result m <> Throw err) ->
  always (fun e => P (detachEvent e)) m -> always P (dropPromise m).
Proof.
  unfold always, dropPromise. simpl. intros Hr Hm.
  apply Forall_app. split.
  - induction Hm; simpl; constructor; auto.
  - destruct (result m) as [a | err | c] eqn:E;
      [apply Forall_nil | exfalso; exact (Hr err eq_refl) | apply Forall_nil].
Qed.

(** The promise of [createLabel] is given a handler before it is dropped:
    it does not reject. *)
Lemma createLabel_caught (settings : Settings) (W : World)
    (owner repo : string) (label : Label) (err : error) :
  result (tryCatch (createLabel settings W owner repo label)
                   (fun _ => ret tt)) <> Throw err.
Proof.
  unfold createLabel, await.
  destruct (gh_createLabel W _) as [e | []]; discriminate.
Qed.

Lemma createMilestone_accepted (W : World) (owner repo : string)
    (milestone : Milestone) (err : error) :
  (forall p, gh_createMilestone W p = inr tt) ->
  result (createMilestone W owner repo milestone) <> Throw err.
Proof.
  intros H. unfold createMilestone, await. rewrite H. discriminate.
Qed.

Lemma updateIssueState_accepted (settings : Settings) (W : World)
    (ghIssue : GhIssue) (issue : Issue) (err : error) :
  (forall p, gh_editIssue W p = inr tt) ->
  result (updateIssueState settings W ghIssue issue) <> Throw err.
Proof.
  intros H. unfold updateIssueState, await.
  destruct (_ || _); [discriminate |]. rewrite H. discriminate.
Qed.

(** One step of a proof that a computation leaves no rejection without a
    handler, where the requests that it does not wait for are accepted. *)
Ltac settled_step Hmilestone Hedit :=
  first
    [ apply always_dropPromise_kept;
        [ intros;
          first [ apply createLabel_caught
                | apply createMilestone_accepted; exact Hmilestone
                | apply updateIssueState_accepted; exact Hedit ]
        | ]
    | always_step ].

Lemma createIssueAndComments_settled (settings : Settings) (W : World)
    (formatDate : string -> string) (owner repo : string)
    (milestones : list GhMilestone) (issue : Issue) :
  always settled (createIssueAndComments settings W formatDate owner repo
                    milestones issue).
Proof.
  unfold createIssueAndComments, createIssue, createIssueComments,
    updateIssueState.
  repeat always_step; exact I.
Qed.

Lemma migrate_settled (settings : Settings) (W : World)
    (formatDate : string -> string) :
  (forall p, gh_createMilestone W p = inr tt) ->
  (forall p, gh_editIssue W p = inr tt) ->
  always settled (migrate settings W formatDate).
Proof.
  intros Hmilestone Hedit.
  unfold migrate, transferMilestones, transferLabels, transferIssues,
    transferMergeRequests, getAllGHMilestones, getAllGHLabelNames,
    getAllGHPullRequests, getAllGHIssues, inform.
  repeat first
    [ apply createIssueAndComments_settled
    | settled_step Hmilestone Hedit ];
    try exact I.
  all: unfold createPRAndComments, createGHBranch, createPR, createLabel,
         createMilestone, updateIssueState;
    repeat always_step; exact I.
Qed.

(** X5.  Let the settings have their [conversion] entry, let the rate
    limit and every listing of the source and of the destination be
    readable, and let the destination accept the requests that the script
    does not wait for: every creation of a milestone and every edit of an
    issue.  Then [migrate] returns normally and leaves no rejection
    without a handler, whatever the destination answers to the creation of
    labels, issues, comments, branches and pull requests and whatever
    reading the notes of an issue or the merge commit of a merge request
    gives. *)
Theorem migrate_returns_when_listings_readable (settings : Settings)
    (W : World) (formatDate : string -> string) (rate : Z * Z)
    (flags : Conversion)
    (milestones : list Milestone) (ghMilestones : list GhMilestone)
    (labels : list Label) (ghLabels : list string) (issues : list Issue)
    (ghIssues : list GhIssue) (mergeRequests : list MergeRequest) :
  conversion settings = Some flags ->
  gh_rateLimit W = inr rate ->
  gl_milestones W (gitlab_projectId settings) = inr milestones ->
  gh_milestones W (github_owner settings) (github_repo settings)
  = inr ghMilestones ->
  gl_labels W (gitlab_projectId settings) = inr labels ->
  gh_labelNames W (github_owner settings) (github_repo settings)
  = inr ghLabels ->
  gl_issues W (gitlab_projectId settings) = inr issues ->
  gh_issues W (github_owner settings) (github_repo settings)
  = inr ghIssues ->
  gl_mergeRequests W 188 = inr mergeRequests ->
  (forall p, gh_createMilestone W p = inr tt) ->
  (forall p, gh_editIssue W p = inr tt) ->
  result (migrate settings W formatDate) = Return tt
  /\ unhandled (trace (migrate settings W formatDate)) = [].
Proof.
  intros Hflags Hrate Hms Hgms Hls Hgls His Hgis Hmrs Hmilestone Hedit.
  split; [| apply settled_unhandled, migrate_settled; assumption].
  unfold migrate, await. rewrite Hrate, Hflags.
  rewrite bind_return. cbn [result snd].
  repeat rewrite result_log_then.
  rewrite result_bind,
    (transferMilestones_returns settings W _ _ _ Hms Hgms).
  rewrite bind_ret_l.
  rewrite result_bind,
    (transferLabels_returns settings W _ _ _ _ _ Hls Hgls).
  rewrite result_bind,
    (transferIssues_returns settings W formatDate _ _ _ _ _ _
       Hgms His Hgis).
  rewrite result_bind,
    (transferMergeRequests_returns settings W _ _ _ _ _ Hmrs Hgis).
  reflexivity.
Qed.

(** A destination that refuses every label, issue, branch and pull
    request, and a source whose notes and commits cannot be read. *)
Lemma migrate_returns_when_listings_readable_witness :
  result (migrate demoSettings
            (pickyWorld [closedIssue 2 "b"; sourceIssue 1 "a"]
                        [openGhIssue 7 "a" "open"])
            demoFormat) = Return tt
  /\ unhandled (trace (migrate demoSettings
                         (pickyWorld [closedIssue 2 "b"; sourceIssue 1 "a"]
                                     [openGhIssue 7 "a" "open"])
                         demoFormat)) = [].
Proof.
  exact (migrate_returns_when_listings_readable demoSettings
           (pickyWorld [closedIssue 2 "b"; sourceIssue 1 "a"]
                       [openGhIssue 7 "a" "open"])
           demoFormat (5000, 5000)%Z
           {| useLowerCaseLabels := Some true |}
           [milestoneV1] [] [labelBug] []
           [closedIssue 2 "b"; sourceIssue 1 "a"]
           [openGhIssue 7 "a" "open"] [mergedRequest 1]
           eq_refl eq_refl eq_refl eq_refl eq_refl eq_refl eq_refl
           eq_refl eq_refl (fun _ => eq_refl) (fun _ => eq_refl)).
Defined.

(* ===================================================================== *)
(** ** Further properties: milestones and labels *)
(* ===================================================================== *)

Lemma calls_app (t1 t2 : list event) :
  calls (t1 ++ t2) = (calls t1 ++ calls t2)%list.
Proof.
  induction t1 as [| e t1 IH]; [reflexivity |].
  destruct e; simpl; rewrite IH; reflexivity.
Qed.

Lemma detached_app (t1 t2 : list event) :
  detached (t1 ++ t2) = (detached t1 ++ detached t2)%list.
Proof.
  induction t1 as [| e t1 IH]; [reflexivity |].
  destruct e; simpl; rewrite IH; reflexivity.
Qed.

Lemma logged_app (t1 t2 : list event) :
  logged (t1 ++ t2) = (logged t1 ++ logged t2)%list.
Proof.
  induction t1 as [| e t1 IH]; [reflexivity |].
  destruct e; simpl; rewrite IH; reflexivity.
Qed.

Lemma unhandled_app (t1 t2 : list event) :
  unhandled (t1 ++ t2) = (unhandled t1 ++ unhandled t2)%list.
Proof.
  induction t1 as [| e t1 IH]; [reflexivity |].
  destruct e; simpl; rewrite IH; reflexivity.
Qed.

Lemma forOf_cons {A : Type} (x : A) (l : list A) (body : A -> Js unit) :
  forOf (x :: l) body = (body x ;;; forOf l body).
Proof. reflexivity. Qed.

(** A loop whose every turn returns is the sequence of its turns. *)
Lemma forOf_events {A : Type} (l : list A) (body : A -> Js unit)
    (events : A -> list event) :
  (forall x, In x l -> body x = (events x, Return tt)) ->
  forOf l body = (flat_map events l, Return tt).
Proof.
  induction l as [| x l IH]; intros H; [reflexivity |].
  simpl forOf. rewrite (H x (or_introl eq_refl)), bind_return.
  rewrite IH by (intros y Hy; apply H; right; exact Hy).
  reflexivity.
Qed.

Lemma find_none_existsb {A : Type} (f : A -> bool) (l : list A) :
  match find f l with Some _ => false | None => true end
  = negb (existsb f l).
Proof.
  induction l as [| x l IH]; simpl; [reflexivity |].
  destruct (f x); [reflexivity | exact IH].
Qed.

(** The events of one turn of the loop of [transferMilestones]. *)
Lemma transferMilestones_turn (settings : Settings) (W : World)
    (ghMilestones : list GhMilestone) (milestone : Milestone) :
  match findGHMilestone ghMilestones milestone with
  | None =>
      console_log ("Creating: " ++ ms_title milestone) ;;;
      tryCatch
        (dropPromise (createMilestone W (github_owner settings)
                        (github_repo settings) milestone))
        (fun err =>
           console_error ("Could not create milestone "
                          ++ ms_title milestone) ;;;
           console_error_obj err)
  | Some _ => console_log ("Already exists: " ++ ms_title milestone)
  end
  = (if milestoneMissing ghMilestones milestone
     then ConsoleLog ("Creating: " ++ ms_title milestone)
          :: Detached (GhCreateMilestone
                         (milestoneProps (github_owner settings)
                            (github_repo settings) milestone))
          :: rejection (gh_createMilestone W
                          (milestoneProps (github_owner settings)
                             (github_repo settings) milestone))
     else [ ConsoleLog ("Already exists: " ++ ms_title milestone) ],
     Return tt).
Proof.
  unfold milestoneMissing.
  rewrite <- (find_none_existsb
                (fun m => ghm_title m =? ms_title milestone) ghMilestones).
  unfold findGHMilestone.
  destruct (find _ ghMilestones); [reflexivity |].
  unfold createMilestone, await. fold (milestoneProps (github_owner settings)
                                         (github_repo settings) milestone).
  destruct (gh_createMilestone W _) as [err | []]; reflexivity.
Qed.

Lemma detached_milestone_turns (W : World) (owner repo : string)
    (ghMilestones : list GhMilestone) (l : list Milestone) :
  detached
    (flat_map
       (fun milestone =>
          if milestoneMissing ghMilestones milestone
          then ConsoleLog ("Creating: " ++ ms_title milestone)
               :: Detached (GhCreateMilestone
                              (milestoneProps owner repo milestone))
               :: rejection (gh_createMilestone W
                               (milestoneProps owner repo milestone))
          else [ ConsoleLog ("Already exists: " ++ ms_title milestone) ])
       l)
  = map (fun milestone =>
           GhCreateMilestone (milestoneProps owner repo milestone))
        (filter (milestoneMissing ghMilestones) l).
Proof.
  induction l as [| m l IH]; [reflexivity |].
  cbn [flat_map filter]. rewrite detached_app, IH.
  destruct (milestoneMissing ghMilestones m); [| reflexivity].
  destruct (gh_createMilestone W _); reflexivity.
Qed.

Lemma calls_milestone_turns (W : World) (owner repo : string)
    (ghMilestones : list GhMilestone) (l : list Milestone) :
  calls
    (flat_map
       (fun milestone =>
          if milestoneMissing ghMilestones milestone
          then ConsoleLog ("Creating: " ++ ms_title milestone)
               :: Detached (GhCreateMilestone
                              (milestoneProps owner repo milestone))
               :: rejection (gh_createMilestone W
                               (milestoneProps owner repo milestone))
          else [ ConsoleLog ("Already exists: " ++ ms_title milestone) ])
       l)
  = [].
Proof.
  induction l as [| m l IH]; [reflexivity |].
  cbn [flat_map]. rewrite calls_app, IH.
  destruct (milestoneMissing ghMilestones m); [| reflexivity].
  destruct (gh_createMilestone W _); reflexivity.
Qed.

(** The creations of [l] that the destination refuses, with the error. *)
Lemma unhandled_milestone_turns (W : World) (owner repo : string)
    (ghMilestones : list GhMilestone) (l : list Milestone) :
  unhandled
    (flat_map
       (fun milestone =>
          if milestoneMissing ghMilestones milestone
          then ConsoleLog ("Creating: " ++ ms_title milestone)
               :: Detached (GhCreateMilestone
                              (milestoneProps owner repo milestone))
               :: rejection (gh_createMilestone W
                               (milestoneProps owner repo milestone))
          else [ ConsoleLog ("Already exists: " ++ ms_title milestone) ])
       l)
  = flat_map (fun milestone =>
                unhandled (rejection (gh_createMilestone W
                                        (milestoneProps owner repo
                                           milestone))))
             (filter (milestoneMissing ghMilestones) l).
Proof.
  induction l as [| m l IH]; [reflexivity |].
  cbn [flat_map filter]. rewrite unhandled_app, IH.
  destruct (milestoneMissing ghMilestones m); [| reflexivity].
  reflexivity.
Qed.

(** X6.  When the milestones of both sides can be read,
    [transferMilestones] makes these two reads and no other awaited call,
    and it starts the creation of exactly the source milestones whose
    title no destination milestone has: each once, in ascending order of
    the source ids, with state [open] for an [active] milestone and
    [closed] for any other, and with the due date at midnight UTC. *)
Theorem transferMilestones_starts_missing (settings : Settings)
    (W : World) (projectId : ProjectId) (milestones : list Milestone)
    (ghMilestones : list GhMilestone) :
  gl_milestones W projectId = inr milestones ->
  gh_milestones W (github_owner settings) (github_repo settings)
  = inr ghMilestones ->
  calls (trace (transferMilestones settings W projectId))
  = [ GlProjectMilestonesAll projectId;
      GhGetMilestones (github_owner settings) (github_repo settings) ]
  /\ detached (trace (transferMilestones settings W projectId))
     = map (fun milestone =>
              GhCreateMilestone
                (milestoneProps (github_owner settings)
                   (github_repo settings) milestone))
           (filter (milestoneMissing ghMilestones)
                   (jsSort (byId ms_id) milestones)).
Proof.
  intros Hms Hgh. unfold transferMilestones, getAllGHMilestones, await.
  rewrite Hms, Hgh. cbn [tryCatch]. rewrite bind_return. cbv beta zeta.
  rewrite bind_return. cbv beta.
  rewrite (forOf_events _ _ _
             (fun m _ => transferMilestones_turn settings W ghMilestones m)).
  rewrite inform_run, bind_return.
  cbn [trace result fst snd app]. split.
  - cbn [calls]. rewrite calls_milestone_turns. reflexivity.
  - cbn [detached]. apply detached_milestone_turns.
Qed.

(** Two source milestones, fetched in descending order of their ids, of
    which the destination has the first: the second alone is created. *)
Lemma transferMilestones_starts_missing_witness :
  detached
    (trace (transferMilestones demoSettings
              (catalogueWorld [milestoneV2; milestoneV1] []
                 [ {| ghm_number := 1; ghm_title := "v1" |} ] [])
              5))
  = [ GhCreateMilestone
        {| mp_owner := "octo"; mp_repo := "repo"; mp_title := "v2";
           mp_description := None; mp_state := "closed";
           mp_due_on := Some "2018-06-30T00:00:00Z" |} ].
Proof.
  exact (proj2 (transferMilestones_starts_missing demoSettings
                  (catalogueWorld [milestoneV2; milestoneV1] []
                     [ {| ghm_number := 1; ghm_title := "v1" |} ] [])
                  5 [milestoneV2; milestoneV1]
                  [ {| ghm_number := 1; ghm_title := "v1" |} ]
                  eq_refl eq_refl)).
Defined.

(** The events of one turn of the loop of [transferLabels], for a label
    as the loop sees it. *)
Lemma transferLabels_turn (settings : Settings) (W : World)
    (ghLabels : list string) (label : Label) :
  (if match find (fun l => l =? label_name label) ghLabels with
      | Some l => negb (JsString.truthy l)
      | None => true
      end
   then
     console_log ("Creating: " ++ label_name label) ;;;
     tryCatch
       (dropPromise (tryCatch (createLabel settings W (github_owner settings)
                                 (github_repo settings) label)
                              (fun _ => ret tt)))
       (fun err =>
          console_error ("Could not create label " ++ label_name label) ;;;
          console_error_obj err)
   else console_log ("Already exists: " ++ label_name label))
  = (if labelMissing ghLabels label
     then [ ConsoleLog ("Creating: " ++ label_name label);
            Detached (GhCreateLabel (labelProps settings label)) ]
     else [ ConsoleLog ("Already exists: " ++ label_name label) ],
     Return tt).
Proof.
  assert (Hc : match find (fun l => l =? label_name label) ghLabels with
               | Some l => negb (JsString.truthy l)
               | None => true
               end = labelMissing ghLabels label).
  { unfold labelMissing.
    rewrite <- (find_none_existsb (fun l => l =? label_name label) ghLabels).
    destruct (find _ ghLabels) as [l |] eqn:E; [| reflexivity].
    apply find_some in E. destruct E as [_ E].
    apply String.eqb_eq in E. subst l.
    unfold JsString.truthy. rewrite negb_involutive. reflexivity. }
  rewrite Hc. destruct (labelMissing ghLabels label); [| reflexivity].
  unfold createLabel, await, labelProps.
  destruct (gh_createLabel W _) as [e | []]; reflexivity.
Qed.

Lemma detached_label_turns (settings : Settings) (ghLabels : list string)
    (l : list Label) :
  detached
    (flat_map
       (fun label =>
          if labelMissing ghLabels label
          then [ ConsoleLog ("Creating: " ++ label_name label);
                 Detached (GhCreateLabel (labelProps settings label)) ]
          else [ ConsoleLog ("Already exists: " ++ label_name label) ])
       l)
  = map (fun label => GhCreateLabel (labelProps settings label))
        (filter (labelMissing ghLabels) l).
Proof.
  induction l as [| x l IH]; [reflexivity |].
  cbn [flat_map filter]. rewrite detached_app, IH.
  destruct (labelMissing ghLabels x); reflexivity.
Qed.

Lemma calls_label_turns (settings : Settings) (ghLabels : list string)
    (l : list Label) :
  calls
    (flat_map
       (fun label =>
          if labelMissing ghLabels label
          then [ ConsoleLog ("Creating: " ++ label_name label);
                 Detached (GhCreateLabel (labelProps settings label)) ]
          else [ ConsoleLog ("Already exists: " ++ label_name label) ])
       l)
  = [].
Proof.
  induction l as [| x l IH]; [reflexivity |].
  cbn [flat_map]. rewrite calls_app, IH.
  destruct (labelMissing ghLabels x); reflexivity.
Qed.

(** The loop over the labels, with the renaming done beforehand. *)
Lemma forOf_labels (settings : Settings) (W : World)
    (ghLabels : list string) (useLowerCase : bool) (l : list Label) :
  forOf l (fun label =>
    let label :=
      if useLowerCase
      then {| label_name := JsString.toLowerCase (label_name label);
              label_color := label_color label |}
      else label in
    if match find (fun l => l =? label_name label) ghLabels with
       | Some l => negb (JsString.truthy l)
       | None => true
       end
    then
      console_log ("Creating: " ++ label_name label) ;;;
      tryCatch
        (dropPromise (tryCatch (createLabel settings W (github_owner settings)
                                  (github_repo settings) label)
                               (fun _ => ret tt)))
        (fun err =>
           console_error ("Could not create label " ++ label_name label) ;;;
           console_error_obj err)
    else console_log ("Already exists: " ++ label_name label))
  = (flat_map
       (fun label =>
          if labelMissing ghLabels label
          then [ ConsoleLog ("Creating: " ++ label_name label);
                 Detached (GhCreateLabel (labelProps settings label)) ]
          else [ ConsoleLog ("Already exists: " ++ label_name label) ])
       (map (fun label =>
               if useLowerCase
               then {| label_name := JsString.toLowerCase (label_name label);
                       label_color := label_color label |}
               else label) l),
     Return tt).
Proof.
  induction l as [| x l IH]; [reflexivity |].
  rewrite forOf_cons, IH. cbv beta zeta.
  rewrite transferLabels_turn, bind_return.
  reflexivity.
Qed.

(** X7.  When the labels of both sides can be read, [transferLabels]
    makes these two reads and no other awaited call, and it starts the
    creation of exactly those labels, among the source labels followed by
    [has attachment] (colour [#fbca04]), whose name (in lower case when
    asked for) the destination lacks: in this order, under the owner and
    repository of the settings, with the colour less its first
    character. *)
Theorem transferLabels_starts_missing (settings : Settings) (W : World)
    (projectId : ProjectId) (attachmentLabel useLowerCase : bool)
    (labels : list Label) (ghLabels : list string) :
  gl_labels W projectId = inr labels ->
  gh_labelNames W (github_owner settings) (github_repo settings)
  = inr ghLabels ->
  calls (trace (transferLabels settings W projectId attachmentLabel
                  useLowerCase))
  = [ GlLabelsAll projectId;
      GhGetLabels (github_owner settings) (github_repo settings) ]
  /\ detached (trace (transferLabels settings W projectId attachmentLabel
                        useLowerCase))
     = map (fun label => GhCreateLabel (labelProps settings label))
           (filter (labelMissing ghLabels)
                   (labelsToTransfer labels attachmentLabel useLowerCase)).
Proof.
  intros Hls Hgh. unfold transferLabels, getAllGHLabelNames, await.
  rewrite Hls, Hgh. cbn [tryCatch]. rewrite bind_return. cbv beta.
  rewrite bind_return. cbv beta zeta.
  rewrite forOf_labels, inform_run, bind_return.
  cbn [trace result fst snd app]. unfold labelsToTransfer. split.
  - cbn [calls]. rewrite calls_label_turns. reflexivity.
  - cbn [detached]. apply detached_label_turns.
Qed.

(** The source label [Bug], a destination that has [bug]: in lower case
    only [has attachment] is created; as they are, both. *)
Lemma transferLabels_starts_missing_witness :
  detached
    (trace (transferLabels demoSettings
              (catalogueWorld [] [labelBug] [] ["bug"]) 5 true true))
  = [ GhCreateLabel {| lp_owner := "octo"; lp_repo := "repo";
                       lp_name := "has attachment";
                       lp_color := "fbca04" |} ]
  /\ detached
       (trace (transferLabels demoSettings
                 (catalogueWorld [] [labelBug] [] ["bug"]) 5 true false))
     = [ GhCreateLabel {| lp_owner := "octo"; lp_repo := "repo";
                          lp_name := "Bug"; lp_color := "ff0000" |};
         GhCreateLabel {| lp_owner := "octo"; lp_repo := "repo";
                          lp_name := "has attachment";
                          lp_color := "fbca04" |} ].
Proof.
  split.
  - exact (proj2 (transferLabels_starts_missing demoSettings
                    (catalogueWorld [] [labelBug] [] ["bug"]) 5 true true
                    [labelBug] ["bug"] eq_refl eq_refl)).
  - exact (proj2 (transferLabels_starts_missing demoSettings
                    (catalogueWorld [] [labelBug] [] ["bug"]) 5 true false
                    [labelBug] ["bug"] eq_refl eq_refl)).
Defined.

(* ===================================================================== *)
(** ** Further properties: issues and their notes *)
(* ===================================================================== *)

(** X8.  [createIssueComments] never throws and never ends the process:
    whatever goes wrong in fetching the notes, converting a body or
    posting a comment, it returns normally to its caller. *)
Theorem createIssueComments_always_returns :
  forall (settings : Settings) (W : World) (formatDate : string -> string)
         (ghIssue : GhIssue) (issue : Issue),
    result (createIssueComments settings W formatDate ghIssue issue)
    = Return tt.
Proof.
  intros. unfold createIssueComments.
  apply tryCatch_returns; [| reflexivity].
  repeat noExit_step.
Qed.

Lemma createIssueComments_returns (settings : Settings) (W : World)
    (formatDate : string -> string) (ghIssue : GhIssue) (issue : Issue) :
  result (createIssueComments settings W formatDate ghIssue issue)
  = Return tt.
Proof.
  unfold createIssueComments.
  apply tryCatch_returns; [| reflexivity].
  repeat noExit_step.
Qed.

(** X9.  When [createIssue] has created the destination issue of a closed
    source issue and the created issue is not closed, the last thing
    [createIssueAndComments] does is the edit that closes it, also when
    the notes cannot be fetched or a comment is refused. *)
Theorem createIssueAndComments_closes_last (settings : Settings)
    (W : World) (formatDate : string -> string) (owner repo : string)
    (milestones : list GhMilestone) (issue : Issue) (t : list event)
    (ghIssue : GhIssue) :
  createIssue settings W formatDate owner repo milestones issue
  = (t, Return ghIssue) ->
  issue_state issue = "closed" ->
  gh_state ghIssue <> "closed" ->
  trace (createIssueAndComments settings W formatDate owner repo
           milestones issue)
  = (t ++ trace (createIssueComments settings W formatDate ghIssue issue)
       ++ [closingEdit settings ghIssue])%list.
Proof.
  intros Hcreate Hclosed Hopen. unfold createIssueAndComments.
  rewrite Hcreate, bind_return. cbn [trace fst]. f_equal.
  rewrite trace_bind, createIssueComments_returns. f_equal.
  rewrite updateIssueState_trace.
  apply String.eqb_eq in Hclosed. apply String.eqb_neq in Hopen.
  rewrite Hclosed, Hopen. reflexivity.
Qed.

(** The notes of the issue cannot be fetched: the issue is created, the
    failure is logged, and the issue is closed. *)
Lemma createIssueAndComments_closes_last_witness :
  calls (trace (createIssueAndComments demoSettings noNotesWorld demoFormat
                  "octo" "repo" [] (closedIssue 1 "Crash")))
  = [ GhCreateIssue
        {| ip_owner := "octo"; ip_repo := "repo"; ip_title := "Crash";
           ip_body := Some ("In GitLab by @ann on Mar 1, 2018, 10:00"
                            ++ nl ++ nl ++ "text");
           ip_assignees := None; ip_milestone := None;
           ip_labels := Some [] |};
      GlIssueNotesAll 5 (Some 1%Z);
      GhEditIssue {| ep_owner := "octo"; ep_repo := "repo";
                     ep_number := 1; ep_state := "closed" |} ].
Proof.
  rewrite (createIssueAndComments_closes_last demoSettings noNotesWorld
             demoFormat "octo" "repo" [] (closedIssue 1 "Crash")
             _ _ eq_refl eq_refl ltac:(discriminate)).
  reflexivity.
Defined.

Lemma trace_log_then {A : Type} (msg : string) (m : Js A) :
  trace (console_log msg ;;; m) = ConsoleLog msg :: trace m.
Proof. rewrite trace_bind. reflexivity. Qed.

Lemma trace_forOf_returns {A : Type} (l : list A) (body : A -> Js unit) :
  (forall x, result (body x) = Return tt) ->
  trace (forOf l body) = flat_map (fun x => trace (body x)) l.
Proof.
  intros H. induction l as [| x l IH]; [reflexivity |].
  rewrite forOf_cons, trace_bind, H, IH. reflexivity.
Qed.

Lemma logged_silent (t : list event) :
  Forall (fun e => forall msg, e <> ConsoleLog msg) t -> logged t = [].
Proof.
  induction 1 as [| e t He Ht IH]; [reflexivity |].
  destruct e; simpl; try exact IH.
  exfalso. exact (He _ eq_refl).
Qed.

Lemma gapLoop_run (issues : list Issue) (i : nat) :
  gapLoop issues i
  = (trace (gapLoop issues i),
     Return (firstn i issues ++ fillFrom i (skipn i issues))%list).
Proof.
  rewrite <- gapLoop_result. destruct (gapLoop issues i). reflexivity.
Qed.

(** Creating an issue with its comments writes no [console.log] line. *)
Lemma createIssueAndComments_silent (settings : Settings) (W : World)
    (formatDate : string -> string) (owner repo : string)
    (milestones : list GhMilestone) (issue : Issue)
    (handler : error -> Js unit) :
  (forall e, always (fun e => forall msg, e <> ConsoleLog msg) (handler e)) ->
  always (fun e => forall msg, e <> ConsoleLog msg)
         (tryCatch (createIssueAndComments settings W formatDate owner repo
                      milestones issue) handler).
Proof.
  intros Hh.
  unfold createIssueAndComments, createIssue, createIssueComments,
    updateIssueState.
  repeat always_step; try discriminate; try apply Hh.
Qed.

(** What the dropped call of [updateIssueState] leaves in the trace. *)
Lemma updateIssueState_dropped (settings : Settings) (W : World)
    (ghIssue : GhIssue) (issue : Issue) :
  trace (dropPromise (updateIssueState settings W ghIssue issue))
  = if (issue_state issue =? "closed") && negb (gh_state ghIssue =? "closed")
    then Detached (GhEditIssue (closingProps settings ghIssue))
         :: rejection (gh_editIssue W (closingProps settings ghIssue))
    else [].
Proof.
  unfold updateIssueState, closingProps.
  destruct (issue_state issue =? "closed") eqn:Es;
    destruct (gh_state ghIssue =? "closed"); simpl; try reflexivity.
  apply String.eqb_eq in Es. rewrite Es. unfold dropPromise, await.
  destruct (gh_editIssue W _) as [err | []]; reflexivity.
Qed.

(** One turn of the loop of [transferIssues]: it returns, and it logs the
    one line of the issue. *)
Lemma transferIssues_turn (settings : Settings) (W : World)
    (formatDate : string -> string) (milestoneData : list GhMilestone)
    (ghIssues : list GhIssue) (issue : Issue) :
  result (issueTurn settings W formatDate milestoneData ghIssues issue)
  = Return tt
  /\ logged (trace (issueTurn settings W formatDate milestoneData ghIssues
                      issue))
     = [progressLine ghIssues issue].
Proof.
  unfold progressLine, issueTurn.
  destruct (findGHIssue ghIssues issue) as [ghIssue |].
  - split; [reflexivity |].
    rewrite trace_log_then. cbn [logged]. f_equal.
    rewrite updateIssueState_dropped.
    destruct ((issue_state issue =? "closed")
              && negb (gh_state ghIssue =? "closed")); [| reflexivity].
    destruct (gh_editIssue W _); reflexivity.
  - split.
    + rewrite result_log_then. apply tryCatch_returns; [| reflexivity].
      apply createIssueAndComments_noExit.
    + rewrite trace_log_then. cbn [logged]. f_equal.
      apply logged_silent. apply createIssueAndComments_silent.
      intros e. repeat always_step; discriminate.
Qed.

Lemma logged_turns {A : Type} (turn : A -> Js unit) (line : A -> string)
    (l : list A) :
  (forall x, logged (trace (turn x)) = [line x]) ->
  logged (flat_map (fun x => trace (turn x)) l) = map line l.
Proof.
  intros H. induction l as [| x l IH]; [reflexivity |].
  cbn [flat_map map]. rewrite logged_app, H, IH. reflexivity.
Qed.

Lemma logged_pageCalls (owner repo : string) (first count : nat) :
  logged (pageCalls owner repo first count) = [].
Proof.
  unfold pageCalls. induction (seq first count); [reflexivity | assumption].
Qed.

(** What the gap-filling pass writes from the state [(issues, i)]. *)
Lemma gapLoop_trace (issues : list Issue) (i : nat) :
  trace (gapLoop issues i)
  = map ConsoleLog (gapLines i (skipn i issues)).
Proof.
  funelim (gapLoop issues i).
  - assert (Hlen : List.length issues <= i)
      by (apply nth_error_None; assumption).
    rewrite skipn_all2 by assumption. reflexivity.
  - rewrite trace_bind. simpl result. cbv iota beta.
    match goal with IH : unit -> trace (gapLoop _ _) = _ |- _ =>
      rewrite (IH tt) end.
    destruct (splice_at issues i it placeholderItem) as [Hf Hs];
      [assumption |].
    rewrite Hs.
    rewrite (nth_error_skipn_cons issues i it) by assumption.
    simpl gapLines.
    match goal with E : iidDiffers _ _ = true |- _ => rewrite E end.
    reflexivity.
  - match goal with IH : trace (gapLoop _ _) = _ |- _ => rewrite IH end.
    rewrite (nth_error_skipn_cons issues i it) by assumption.
    simpl gapLines.
    match goal with E : iidDiffers _ _ = false |- _ => rewrite E end.
    reflexivity.
Qed.

Lemma logged_logs (lines : list string) :
  logged (map ConsoleLog lines) = lines.
Proof.
  induction lines as [| l lines IH]; [reflexivity |].
  simpl. rewrite IH. reflexivity.
Qed.

(** The events of [transferIssues] when its three listings can be read:
    the reads, the heading, the lines of the gap-filling pass and the
    turns of the loop over the array that the pass returns. *)
Lemma transferIssues_trace (settings : Settings) (W : World)
    (formatDate : string -> string) (owner repo : string)
    (projectId : ProjectId) (ghMilestones : list GhMilestone)
    (issues : list Issue) (ghIssues : list GhIssue) :
  gh_milestones W owner repo = inr ghMilestones ->
  gl_issues W projectId = inr issues ->
  gh_issues W (github_owner settings) (github_repo settings)
  = inr ghIssues ->
  trace (transferIssues settings W formatDate owner repo projectId)
  = (Call (GhGetMilestones owner repo)
     :: Call (GlIssuesAll projectId)
     :: pageCalls (github_owner settings) (github_repo settings) 1
          (List.length ghIssues / perPage + 1)
     ++ map ConsoleLog
          ([ "====================================";
             ("Transferring "
              ++ JsString.ofNumber (Z.of_nat (List.length issues))
              ++ " Issues")%string;
             "====================================" ]
           ++ gapLines 0 (jsSort issueCmp issues))
     ++ flat_map
          (fun issue =>
             trace (issueTurn settings W formatDate ghMilestones ghIssues
                      issue))
          (fillFrom 0 (jsSort issueCmp issues)))%list.
Proof.
  intros Hms His Hgh. unfold transferIssues, getAllGHMilestones, await.
  rewrite Hms, His. cbn [tryCatch]. rewrite bind_return. cbv beta.
  rewrite bind_return. cbv beta zeta.
  rewrite (getAllGHIssues_run W _ _ ghIssues Hgh), bind_return.
  rewrite inform_run, bind_return.
  rewrite (gapLoop_run (jsSort issueCmp issues) 0), bind_return.
  cbn [trace result fst snd firstn skipn app].
  fold (issueTurn settings W formatDate ghMilestones ghIssues).
  rewrite trace_forOf_returns
    by (intros x;
        apply (transferIssues_turn settings W formatDate ghMilestones
                 ghIssues x)).
  rewrite gapLoop_trace.
  replace (List.length (jsSort issueCmp issues)) with (List.length issues)
    by (apply Permutation_length, jsSort_perm).
  reflexivity.
Qed.

Lemma unhandled_pageCalls (owner repo : string) (first count : nat) :
  unhandled (pageCalls owner repo first count) = [].
Proof.
  unfold pageCalls. induction (seq first count); [reflexivity | assumption].
Qed.

Lemma unhandled_logs (lines : list string) :
  unhandled (map ConsoleLog lines) = [].
Proof. induction lines; [reflexivity | assumption]. Qed.

Lemma unhandled_turns {A : Type} (turn : A -> list event) (l : list A) :
  (forall x, In x l -> unhandled (turn x) = []) ->
  unhandled (flat_map turn l) = [].
Proof.
  induction l as [| x l IH]; intros H; [reflexivity |].
  cbn [flat_map]. rewrite unhandled_app, (H x (or_introl eq_refl)).
  apply IH. intros y Hy. apply H. right. exact Hy.
Qed.

Lemma in_detached_turns {A : Type} (turn : A -> list event) (l : list A)
    (x : A) (r : request) :
  In x l -> In r (detached (turn x)) -> In r (detached (flat_map turn l)).
Proof.
  induction l as [| y l IH]; intros Hx Hr; [destruct Hx |].
  cbn [flat_map]. rewrite detached_app. apply in_or_app.
  destruct Hx as [-> | Hx]; [left; exact Hr | right; exact (IH Hx Hr)].
Qed.

(** A turn of the loop of [transferIssues] leaves a rejection without a
    handler only when it starts an edit that the destination refuses. *)
Lemma issueTurn_settled (settings : Settings) (W : World)
    (formatDate : string -> string) (milestoneData : list GhMilestone)
    (ghIssues : list GhIssue) (issue : Issue) :
  (forall p,
     In (GhEditIssue p)
        (detached (trace (issueTurn settings W formatDate milestoneData
                            ghIssues issue))) ->
     gh_editIssue W p = inr tt) ->
  unhandled (trace (issueTurn settings W formatDate milestoneData ghIssues
                      issue)) = [].
Proof.
  unfold issueTurn.
  destruct (findGHIssue ghIssues issue) as [ghIssue |]; intros H.
  - rewrite trace_log_then in H |- *. rewrite updateIssueState_dropped in *.
    destruct ((issue_state issue =? "closed")
              && negb (gh_state ghIssue =? "closed")); [| reflexivity].
    cbn [unhandled].
    rewrite (H (closingProps settings ghIssue)); [reflexivity |].
    left. reflexivity.
  - apply settled_unhandled. rewrite trace_log_then.
    constructor; [exact I |].
    apply (always_tryCatch settled);
      [apply createIssueAndComments_settled | intros e].
    repeat always_step; exact I.
Qed.

(** X10.  Let the three listings of [transferIssues] be readable, and let
    the destination accept every edit that [transferIssues] starts
    without waiting for it.  Then the run leaves no rejection without a
    handler, and it visits every element of its array, in order, logging
    one line for each: [Already exists: ...] for an element whose trimmed
    title a destination issue has, [Creating: ...] for any other; no
    failure in creating an issue, its comments or its state keeps the loop
    from the elements behind it.  In front of these lines are the heading
    and the lines of the gap-filling pass, and no other line is logged. *)
Theorem transferIssues_visits_every_item (settings : Settings) (W : World)
    (formatDate : string -> string) (owner repo : string)
    (projectId : ProjectId) (ghMilestones : list GhMilestone)
    (issues : list Issue) (ghIssues : list GhIssue) :
  gh_milestones W owner repo = inr ghMilestones ->
  gl_issues W projectId = inr issues ->
  gh_issues W (github_owner settings) (github_repo settings)
  = inr ghIssues ->
  (forall p,
     In (GhEditIssue p)
        (detached (trace (transferIssues settings W formatDate owner repo
                            projectId))) ->
     gh_editIssue W p = inr tt) ->
  unhandled (trace (transferIssues settings W formatDate owner repo
                      projectId)) = []
  /\ logged (trace (transferIssues settings W formatDate owner repo
                      projectId))
     = ([ "====================================";
          ("Transferring "
           ++ JsString.ofNumber (Z.of_nat (List.length issues))
           ++ " Issues")%string;
          "====================================" ]
        ++ gapLines 0 (jsSort issueCmp issues)
        ++ map (progressLine ghIssues)
               (fillFrom 0 (jsSort issueCmp issues)))%list.
Proof.
  intros Hms His Hgh.
  rewrite (transferIssues_trace settings W formatDate owner repo projectId
             ghMilestones issues ghIssues Hms His Hgh).
  intros Hedits. split.
  - cbn [unhandled].
    rewrite !unhandled_app, unhandled_pageCalls, unhandled_logs.
    cbn [app]. apply unhandled_turns. intros x Hx.
    apply issueTurn_settled. intros p Hp. apply Hedits.
    cbn [detached]. rewrite !detached_app.
    apply in_or_app. right. apply in_or_app. right.
    exact (in_detached_turns _ _ x _ Hx Hp).
  - cbn [logged].
    rewrite !logged_app, logged_pageCalls, logged_logs.
    rewrite (logged_turns _ (progressLine ghIssues))
      by (intros x;
          apply (transferIssues_turn settings W formatDate ghMilestones
                   ghIssues x)).
    reflexivity.
Qed.

(** A second run: issue 1 is there and needs no edit, the closed issue 4
    is there and open, and its edit is accepted. *)
Lemma transferIssues_visits_every_item_witness :
  unhandled (trace (transferIssues demoSettings
                      (issuesWorld [sourceIssue 3 "c"; closedIssue 4 "d";
                                    sourceIssue 1 "a"]
                                   [openGhIssue 9 " a" "open";
                                    openGhIssue 8 "d" "open"])
                      demoFormat "octo" "repo" 5)) = []
  /\ logged (trace (transferIssues demoSettings
                      (issuesWorld [sourceIssue 3 "c"; closedIssue 4 "d";
                                    sourceIssue 1 "a"]
                                   [openGhIssue 9 " a" "open";
                                    openGhIssue 8 "d" "open"])
                      demoFormat "octo" "repo" 5))
     = [ "====================================";
         "Transferring 3 Issues";
         "====================================";
         "Added placeholder issue for GitLab issue #2";
         "Already exists: 1 - a";
         "Creating: undefined - placeholder issue for issue which does not exist and was probably deleted in GitLab";
         "Creating: 3 - c";
         "Already exists: 4 - d" ].
Proof.
  exact (transferIssues_visits_every_item demoSettings
           (issuesWorld [sourceIssue 3 "c"; closedIssue 4 "d";
                         sourceIssue 1 "a"]
                        [openGhIssue 9 " a" "open";
                         openGhIssue 8 "d" "open"])
           demoFormat "octo" "repo" 5 [] _ _ eq_refl eq_refl eq_refl
           (fun _ _ => eq_refl)).
Defined.

Lemma only_logs_no_requests (t : list event) :
  Forall (fun e => exists msg, e = ConsoleLog msg) t ->
  calls t = [] /\ detached t = [].
Proof.
  induction 1 as [| e t [msg ->] Ht [IH1 IH2]]; [split; reflexivity |].
  split; assumption.
Qed.

Lemma gapLoop_only_logs (issues : list Issue) (i : nat) :
  calls (trace (gapLoop issues i)) = []
  /\ detached (trace (gapLoop issues i)) = [].
Proof.
  apply only_logs_no_requests.
  apply (always_gapLoop (fun e => exists msg, e = ConsoleLog msg)).
  intros msg. exists msg. reflexivity.
Qed.

Lemma calls_pageCalls (owner repo : string) (first count : nat) :
  calls (pageCalls owner repo first count)
  = map (fun k => GhGetForRepo owner repo (Pos.of_nat k)) (seq first count)
  /\ detached (pageCalls owner repo first count) = [].
Proof.
  unfold pageCalls. induction (seq first count) as [| k l [IH1 IH2]];
    [split; reflexivity |].
  split; [simpl; rewrite IH1; reflexivity | exact IH2].
Qed.

Lemma no_requests_in_turns {A : Type} (turn : A -> list event)
    (l : list A) :
  (forall x, In x l -> calls (turn x) = []
                       /\ Forall isClosingEdit (detached (turn x))) ->
  calls (flat_map turn l) = []
  /\ Forall isClosingEdit (detached (flat_map turn l)).
Proof.
  induction l as [| x l IH]; intros H; [split; constructor |].
  destruct (H x (or_introl eq_refl)) as [Hc Hd].
  destruct IH as [IHc IHd]; [intros y Hy; apply H; right; exact Hy |].
  cbn [flat_map]. rewrite calls_app, detached_app, Hc, IHc.
  split; [reflexivity | apply Forall_app; split; assumption].
Qed.

(** X11.  A run on a destination that has, by trimmed title, every
    element of the array of [transferIssues] (the source issues and the
    placeholders of the gaps) creates no issue and no comment and fetches
    no notes: the calls it waits for are its reads, and whatever else it
    asks of the destination is an edit that closes an issue, started
    without waiting. *)
Theorem transferIssues_rerun_creates_nothing (settings : Settings)
    (W : World) (formatDate : string -> string) (owner repo : string)
    (projectId : ProjectId) (ghMilestones : list GhMilestone)
    (issues : list Issue) (ghIssues : list GhIssue) :
  gh_milestones W owner repo = inr ghMilestones ->
  gl_issues W projectId = inr issues ->
  gh_issues W (github_owner settings) (github_repo settings)
  = inr ghIssues ->
  (forall issue, In issue (fillFrom 0 (jsSort issueCmp issues)) ->
     findGHIssue ghIssues issue <> None) ->
  calls (trace (transferIssues settings W formatDate owner repo projectId))
  = GhGetMilestones owner repo :: GlIssuesAll projectId
    :: map (fun k => GhGetForRepo (github_owner settings)
                       (github_repo settings) (Pos.of_nat k))
           (seq 1 (List.length ghIssues / perPage + 1))
  /\ Forall isClosingEdit
       (detached (trace (transferIssues settings W formatDate owner repo
                           projectId))).
Proof.
  intros Hms His Hgh Hall.
  unfold transferIssues, getAllGHMilestones, await.
  rewrite Hms, His. cbn [tryCatch]. rewrite bind_return. cbv beta.
  rewrite bind_return. cbv beta zeta.
  rewrite (getAllGHIssues_run W _ _ ghIssues Hgh), bind_return.
  rewrite inform_run, bind_return.
  rewrite (gapLoop_run (jsSort issueCmp issues) 0), bind_return.
  cbn [trace result fst snd firstn skipn app].
  fold (issueTurn settings W formatDate ghMilestones ghIssues).
  rewrite trace_forOf_returns
    by (intros x;
        apply (transferIssues_turn settings W formatDate ghMilestones
                 ghIssues x)).
  destruct (gapLoop_only_logs (jsSort issueCmp issues) 0) as [Hgc Hgd].
  destruct (calls_pageCalls (github_owner settings) (github_repo settings)
              1 (List.length ghIssues / perPage + 1)) as [Hpc Hpd].
  match goal with |- context [flat_map ?f ?l] =>
    destruct (no_requests_in_turns f l) as [Hlc Hld]
  end.
  { intros x Hx. specialize (Hall x Hx). unfold issueTurn.
    destruct (findGHIssue ghIssues x) as [ghIssue |]; [| congruence].
    rewrite trace_log_then, updateIssueState_dropped.
    destruct ((issue_state x =? "closed")
              && negb (gh_state ghIssue =? "closed")); cbn.
    - destruct (gh_editIssue W _); cbn; (split; [reflexivity |]);
        repeat constructor; eexists; split; reflexivity.
    - split; constructor. }
  cbn [calls detached].
  rewrite !calls_app, !detached_app. cbn [calls detached].
  rewrite !calls_app, !detached_app, Hpc, Hpd, Hgc, Hgd, Hlc.
  cbn [app]. rewrite app_nil_r. split; [reflexivity |].
  exact Hld.
Qed.

(** Two source issues, one of them closed, both present in the
    destination and open there: nothing is created. *)
Lemma transferIssues_rerun_creates_nothing_witness :
  calls (trace (transferIssues demoSettings
                  (issuesWorld [closedIssue 2 "b"; sourceIssue 1 "a"]
                     [openGhIssue 7 "a" "open"; openGhIssue 8 "b " "open"])
                  demoFormat "octo" "repo" 5))
  = [ GhGetMilestones "octo" "repo"; GlIssuesAll 5;
      GhGetForRepo "octo" "repo" 1 ].
Proof.
  refine (proj1 (transferIssues_rerun_creates_nothing demoSettings
                   (issuesWorld [closedIssue 2 "b"; sourceIssue 1 "a"]
                      [openGhIssue 7 "a" "open"; openGhIssue 8 "b " "open"])
                   demoFormat "octo" "repo" 5 [] _ _
                   eq_refl eq_refl eq_refl _)).
  intros issue [<- | [<- | []]]; discriminate.
Defined.

Lemma fillFrom_fetched (rest : list Issue) :
  (forall x, In x rest -> issue_iid x <> None) ->
  forall i, filter fetched (fillFrom i rest) = rest.
Proof.
  induction rest as [| it rest IH]; intros H i; [reflexivity |].
  assert (Hit : fetched it = true).
  { unfold fetched. specialize (H it (or_introl eq_refl)).
    destruct (issue_iid it); [reflexivity | contradiction]. }
  assert (H' : forall x, In x rest -> issue_iid x <> None)
    by (intros x Hx; apply H; right; exact Hx).
  simpl. destruct (iidDiffers it (Z.of_nat i + 1)); simpl;
    rewrite Hit, (IH H'); reflexivity.
Qed.





(** X13.  When the iids of the sorted issues go up from 1 with no more
    than one number missing between neighbours, the gap-filling pass puts
    every issue at the position of its iid: the element at index [k] of
    the array it returns is a placeholder or the issue with iid [k+1]. *)
Theorem gapLoop_narrow_gaps_numbered (issues : list Issue) :
  narrowGaps 0 issues ->
  exists filled,
    result (gapLoop issues 0) = Return filled
    /\ filter fetched filled = issues
    /\ forall k x n, nth_error filled k = Some x ->
         issue_iid x = Some n -> n = (Z.of_nat k + 1)%Z.
Proof.
  intros Hg. exists (fillFrom 0 issues). split; [| split].
  - rewrite gapLoop_result. reflexivity.
  - apply fillFrom_fetched. clear - Hg. generalize 0 Hg. clear Hg.
    induction issues as [| it rest IH]; intros i Hg x Hx; [destruct Hx |].
    simpl in Hg. destruct Hx as [<- | Hx].
    + destruct Hg as [[E _] | [E _]]; rewrite E; discriminate.
    + destruct Hg as [[_ Hg] | [_ Hg]]; exact (IH _ Hg x Hx).
  - intros k x n Hk Hn.
    destruct (fillFrom_aligned issues 0 Hg k x Hk) as [-> | E].
    + discriminate.
    + rewrite Hn in E. injection E as ->. reflexivity.
Qed.

(** The issues 1, 2, 4 and 5. *)
Lemma gapLoop_narrow_gaps_numbered_witness :
  exists filled,
    result (gapLoop [sourceIssue 1 "a"; sourceIssue 2 "b";
                     sourceIssue 4 "d"; sourceIssue 5 "e"] 0)
    = Return filled
    /\ filter fetched filled
       = [sourceIssue 1 "a"; sourceIssue 2 "b";
          sourceIssue 4 "d"; sourceIssue 5 "e"]
    /\ forall k x n, nth_error filled k = Some x ->
         issue_iid x = Some n -> n = (Z.of_nat k + 1)%Z.
Proof.
  apply (gapLoop_narrow_gaps_numbered
           [sourceIssue 1 "a"; sourceIssue 2 "b";
            sourceIssue 4 "d"; sourceIssue 5 "e"]).
  simpl. left. split; [reflexivity |]. left. split; [reflexivity |].
  right. split; [reflexivity |]. left. split; [reflexivity |]. exact I.
Defined.

(** The position of the first occurrence is zero exactly for a prefix. *)
Lemma indexOf_prefix (hay needle : string) :
  needle <> EmptyString ->
  substring 0 (String.length needle) hay = needle ->
  JsString.indexOf hay needle = 0%Z.
Proof.
  intros Hne Hp. unfold JsString.indexOf.
  destruct (index 0 needle hay) as [m |] eqn:E.
  - destruct m as [| m]; [reflexivity |]. exfalso.
    apply (index_correct2 0 (S m) needle hay E 0); [lia | lia | exact Hp].
  - exfalso. apply (index_correct3 0 0 needle hay E Hne); [lia | exact Hp].
Qed.

Lemma indexOf_absent (hay needle : string) :
  (forall k, substring k (String.length needle) hay <> needle) ->
  JsString.indexOf hay needle = (-1)%Z.
Proof.
  intros H. unfold JsString.indexOf.
  destruct (index 0 needle hay) as [m |] eqn:E; [| reflexivity].
  exfalso. apply (H m). apply (index_correct1 0 m needle hay E).
Qed.

Lemma indexOf_later (hay needle : string) (k : nat) :
  needle <> EmptyString ->
  substring k (String.length needle) hay = needle ->
  substring 0 (String.length needle) hay <> needle ->
  (0 < JsString.indexOf hay needle)%Z.
Proof.
  intros Hne Hk H0. unfold JsString.indexOf.
  destruct (index 0 needle hay) as [m |] eqn:E.
  - destruct m as [| m]; [| lia]. exfalso. apply H0.
    apply (index_correct1 0 0 needle hay E).
  - exfalso. apply (index_correct3 0 k needle hay E Hne); [lia | exact Hk].
Qed.

Lemma createGHBranch_refused (W : World) (owner repo name : string)
    (sha : option string) (err : error) :
  gh_createReference W (branchProps owner repo name sha) = inl err ->
  createGHBranch W owner repo name sha
  = (Call (GhCreateReference (branchProps owner repo name sha))
     :: (if (JsString.indexOf (err_message err) "Reference already exists"
             >? 0)%Z
         then [ConsoleLog ("Branch '" ++ name ++ "' already exists!")]
         else [ConsoleError ("Could not create branch '" ++ name ++ "' at "
                             ++ JsString.ofNullable sha);
               ConsoleErrorObj err]),
     Return tt).
Proof.
  intros H. unfold createGHBranch, await. fold (branchProps owner repo name sha).
  rewrite H. cbn [tryCatch].
  destruct (JsString.indexOf (err_message err) "Reference already exists"
            >? 0)%Z; reflexivity.
Qed.

(** X14.  A branch whose creation the destination refuses: [createGHBranch]
    returns all the same.  It logs that the branch exists already only
    when the phrase [Reference already exists] stands in the message of
    the error behind its first character; a message that begins with the
    phrase, like one that does not have it, is reported as a failure to
    create the branch, with the error. *)
Theorem createGHBranch_existing_reference (W : World)
    (owner repo name : string) (sha : option string) (err : error) :
  gh_createReference W (branchProps owner repo name sha) = inl err ->
  let failure :=
    (Call (GhCreateReference (branchProps owner repo name sha))
     :: [ConsoleError ("Could not create branch '" ++ name ++ "' at "
                       ++ JsString.ofNullable sha);
         ConsoleErrorObj err],
     Return tt) in
  (substring 0 24 (err_message err) = "Reference already exists" ->
   createGHBranch W owner repo name sha = failure)
  /\ ((forall k, substring k 24 (err_message err)
                 <> "Reference already exists") ->
      createGHBranch W owner repo name sha = failure)
  /\ (forall k,
        substring k 24 (err_message err) = "Reference already exists" ->
        substring 0 24 (err_message err) <> "Reference already exists" ->
        createGHBranch W owner repo name sha
        = ([Call (GhCreateReference (branchProps owner repo name sha));
            ConsoleLog ("Branch '" ++ name ++ "' already exists!")],
           Return tt)).
Proof.
  intros H failure. subst failure.
  rewrite (createGHBranch_refused W owner repo name sha err H).
  split; [| split].
  - intros Hp.
    rewrite (indexOf_prefix (err_message err) "Reference already exists");
      [reflexivity | discriminate | exact Hp].
  - intros Hn.
    rewrite (indexOf_absent (err_message err) "Reference already exists");
      [reflexivity | exact Hn].
  - intros k Hk H0.
    pose proof (indexOf_later (err_message err) "Reference already exists"
                  k ltac:(discriminate) Hk H0) as Hpos.
    apply Z.gtb_lt in Hpos. rewrite Hpos. reflexivity.
Qed.

(** The destination answers [Reference already exists]: reported as a
    failure. *)
Lemma createGHBranch_existing_reference_witness :
  createGHBranch (refusingWorld "Reference already exists" [])
    "octo" "repo" "MR1-feature-head" (Some "aaa111")
  = ([Call (GhCreateReference
              (branchProps "octo" "repo" "MR1-feature-head"
                           (Some "aaa111")));
      ConsoleError
        "Could not create branch 'MR1-feature-head' at aaa111";
      ConsoleErrorObj (ApiError "Reference already exists")],
     Return tt).
Proof.
  exact (proj1 (createGHBranch_existing_reference
                  (refusingWorld "Reference already exists" [])
                  "octo" "repo" "MR1-feature-head" (Some "aaa111")
                  (ApiError "Reference already exists") eq_refl)
               eq_refl).
Defined.

(** X15.  The merge request with iid 1, merged or open, whose merge commit
    can be read: [createPRAndComments] asks for the head branch at the
    head of the request, then for the base branch at the one parent of the
    merge commit that is not that head, or at [null] when the other
    parents are none or several, and then for the pull request from head
    to base.  A refused branch does not keep it from asking for the pull
    request: between these calls only the console is written to. *)
Theorem createPRAndComments_requests_pull_request (settings : Settings)
    (W : World) (owner repo : string) (mr : MergeRequest)
    (parents : list string) :
  mr_iid mr = 1%Z ->
  mr_state mr = "merged" \/ mr_state mr = "open" ->
  gl_commitParents W (gitlab_projectId settings) (mr_merge_commit_sha mr)
  = inr parents ->
  exists logs1 logs2,
    trace (createPRAndComments settings W owner repo mr)
    = (Call (GhCreateReference
               (branchProps owner repo
                  ("MR1-" ++ mr_source_branch mr ++ "-head")
                  (Some (mr_sha mr))))
         :: logs1
         ++ Call (GlCommitsShow (gitlab_projectId settings)
                                (mr_merge_commit_sha mr))
         :: Call (GhCreateReference
                    (branchProps owner repo
                       ("MR1-" ++ mr_target_branch mr ++ "-base")
                       match filter (fun sha => negb (sha =? mr_sha mr))
                                    parents with
                       | [parent] => Some parent
                       | _ => None
                       end))
         :: logs2
         ++ [Call (GhCreatePullRequest
                     {| pp_owner := owner; pp_repo := repo;
                        pp_title := mr_title mr;
                        pp_body := mr_description mr;
                        pp_head := "MR1-" ++ mr_source_branch mr ++ "-head";
                        pp_base := "MR1-" ++ mr_target_branch mr
                                   ++ "-base" |})])%list
    /\ Forall (fun e => forall r, e <> Call r) (logs1 ++ logs2)%list.
Proof.
  intros Hiid Hstate Hparents. unfold createPRAndComments.
  rewrite Hiid. cbn [Z.eqb Pos.eqb negb].
  replace (negb (mr_state mr =? "merged") && negb (mr_state mr =? "open"))
    with false
    by (destruct Hstate as [-> | ->]; reflexivity).
  change (JsString.ofNumber 1) with "1".
  set (others := filter (fun sha => negb (sha =? mr_sha mr)) parents).
  set (parent := match others with [p] => Some p | _ => None end).
  destruct (createGHBranch_trace W owner repo
              ("MR" ++ "1" ++ "-" ++ mr_source_branch mr ++ "-head")
              (Some (mr_sha mr))) as [logs1 [E1 H1]].
  destruct (createGHBranch_trace W owner repo
              ("MR" ++ "1" ++ "-" ++ mr_target_branch mr ++ "-base")
              parent) as [logs2 [E2 H2]].
  exists logs1, logs2. split; [| apply Forall_app; split; assumption].
  rewrite E1, bind_return. unfold await at 1. rewrite Hparents.
  rewrite bind_return. cbv beta. fold others.
  replace (if (List.length others =? 1)%nat
           then nth_error others 0 else None) with parent
    by (subst parent; destruct others as [| p [| q others']]; reflexivity).
  cbv zeta. rewrite E2, bind_return.
  unfold createPR, await, trace. cbn [fst app].
  reflexivity.
Qed.

(** A merge commit with two parents besides the head of the request, and
    a destination that refuses every write: the base is asked for at
    [null], and the pull request is asked for. *)
Lemma createPRAndComments_requests_pull_request_witness :
  exists logs1 logs2,
    trace (createPRAndComments demoSettings
             (refusingWorld "Validation Failed" ["bbb222"; "ddd444"])
             "octo" "repo" (mergedRequest 1))
    = (Call (GhCreateReference
               (branchProps "octo" "repo" "MR1-feature-head"
                            (Some "aaa111")))
         :: logs1
         ++ Call (GlCommitsShow 5 (Some "ccc333"))
         :: Call (GhCreateReference
                    (branchProps "octo" "repo" "MR1-master-base" None))
         :: logs2
         ++ [Call (GhCreatePullRequest
                     {| pp_owner := "octo"; pp_repo := "repo";
                        pp_title := "Add feature";
                        pp_body := Some "text";
                        pp_head := "MR1-feature-head";
                        pp_base := "MR1-master-base" |})])%list
    /\ Forall (fun e => forall r, e <> Call r) (logs1 ++ logs2)%list.
Proof.
  exact (createPRAndComments_requests_pull_request demoSettings
           (refusingWorld "Validation Failed" ["bbb222"; "ddd444"])
           "octo" "repo" (mergedRequest 1) ["bbb222"; "ddd444"]
           eq_refl (or_introl eq_refl) eq_refl).
Defined.

(** X16.  A body that is [null], as the description of a GitLab issue
    without text is, of an item with author and date: the converted body
    is the attribution line followed by the word [null]. *)
Theorem convertIssuesAndComments_null_body (settings : Settings)
    (formatDate : string -> string) (item : Item) (author : User)
    (created_at : string) :
  usermap settings <> None -> projectmap settings <> None ->
  item_author item = Some author ->
  item_created_at item = Some created_at ->
  convertIssuesAndComments settings formatDate None (Some item)
  = inr (Some ("In GitLab by @" ++ username author ++ " on "
               ++ formatDate created_at ++ nl ++ nl ++ "null")).
Proof.
  intros Hu Hp Ha Hc.
  apply convertIssuesAndComments_total; [exact Hu | exact Hp |].
  unfold addMigrationLine. rewrite Ha, Hc. reflexivity.
Qed.

Lemma convertIssuesAndComments_null_body_witness :
  convertIssuesAndComments demoSettings demoFormat None
    (Some (issueItem (sourceIssue 1 "a")))
  = inr (Some ("In GitLab by @ann on Mar 1, 2018, 10:00" ++ nl ++ nl
               ++ "null")).
Proof.
  apply (convertIssuesAndComments_null_body demoSettings demoFormat
           (issueItem (sourceIssue 1 "a")) {| username := "ann" |}
           "2018-03-01T10:00:00Z");
    [discriminate | discriminate | reflexivity | reflexivity].
Defined.

Section ExitsOnly.

Context {D : Prop}.

Lemma exitsOnly_noExit {A : Type} (m : Js A) : noExit m -> exitsOnly D m.
Proof. intros H code E. exfalso. exact (H code E). Qed.

Lemma exitsOnly_bind {A B : Type} (m : Js A) (k : A -> Js B) :
  exitsOnly D m -> (forall a, exitsOnly D (k a)) -> exitsOnly D (bind m k).
Proof.
  intros Hm Hk code. rewrite result_bind.
  destruct (result m) as [a | e | c] eqn:E.
  - apply Hk.
  - discriminate.
  - intros [= <-]. apply Hm. exact E.
Qed.

End ExitsOnly.

Lemma exitsOnly_weaken {A : Type} (D D' : Prop) (m : Js A) :
  (D -> D') -> exitsOnly D m -> exitsOnly D' m.
Proof.
  intros HD Hm code E. destruct (Hm code E) as [Hc Hd].
  split; [exact Hc | exact (HD Hd)].
Qed.

Lemma getAllGHMilestones_exit (W : World) (owner repo : string) :
  exitsOnly (exists err, gh_milestones W owner repo = inl err)
            (getAllGHMilestones W owner repo).
Proof.
  unfold getAllGHMilestones, await. intros code.
  destruct (gh_milestones W owner repo) as [err | l]; cbn.
  - intros [= <-]. split; [reflexivity | exists err; reflexivity].
  - discriminate.
Qed.

Lemma getAllGHLabelNames_exit (W : World) (owner repo : string) :
  exitsOnly (exists err, gh_labelNames W owner repo = inl err)
            (getAllGHLabelNames W owner repo).
Proof.
  unfold getAllGHLabelNames, await. intros code.
  destruct (gh_labelNames W owner repo) as [err | l]; cbn.
  - intros [= <-]. split; [reflexivity | exists err; reflexivity].
  - discriminate.
Qed.

Lemma getAllGHIssues_noExit (W : World) (owner repo : string) :
  noExit (getAllGHIssues W owner repo).
Proof.
  intros code.
  destruct (gh_issues W owner repo) as [err | all] eqn:E.
  - unfold getAllGHIssues.
    rewrite (getAllGHIssuesFrom_fails W owner repo [] 1 err E).
    discriminate.
  - rewrite (getAllGHIssues_run W owner repo all E). discriminate.
Qed.

Lemma getAllGHPullRequests_exit (W : World) (owner repo : string) :
  exitsOnly (exists err, gh_issues W owner repo = inl err)
            (getAllGHPullRequests W owner repo).
Proof.
  intros code. unfold getAllGHPullRequests.
  destruct (gh_issues W owner repo) as [err | all] eqn:E.
  - unfold getAllGHIssues.
    rewrite (getAllGHIssuesFrom_fails W owner repo [] 1 err E).
    cbn. intros [= <-]. split; [reflexivity | exists err; reflexivity].
  - rewrite (getAllGHIssues_run W owner repo all E). cbn. discriminate.
Qed.

Lemma transferMilestones_exit (settings : Settings) (W : World)
    (projectId : ProjectId) :
  exitsOnly (listingFailed settings W)
            (transferMilestones settings W projectId).
Proof.
  unfold transferMilestones.
  apply exitsOnly_bind; [apply exitsOnly_noExit, noExit_await |].
  intros milestones. cbv zeta.
  apply exitsOnly_bind.
  - apply (exitsOnly_weaken _ _ _ (fun H => or_introl H)),
      getAllGHMilestones_exit.
  - intros ghMilestones. apply exitsOnly_noExit.
    unfold inform, createMilestone. repeat noExit_step.
Qed.

Lemma transferLabels_exit (settings : Settings) (W : World)
    (projectId : ProjectId) (attachmentLabel useLowerCase : bool) :
  exitsOnly (listingFailed settings W)
            (transferLabels settings W projectId attachmentLabel
                            useLowerCase).
Proof.
  unfold transferLabels.
  apply exitsOnly_bind; [apply exitsOnly_noExit, noExit_await |].
  intros labels.
  apply exitsOnly_bind.
  - apply (exitsOnly_weaken _ _ _ (fun H => or_intror (or_introl H))),
      getAllGHLabelNames_exit.
  - intros ghLabels. apply exitsOnly_noExit.
    unfold inform, createLabel. repeat noExit_step.
Qed.

Lemma transferIssues_exit (settings : Settings) (W : World)
    (formatDate : string -> string) (projectId : ProjectId) :
  exitsOnly (listingFailed settings W)
            (transferIssues settings W formatDate (github_owner settings)
                            (github_repo settings) projectId).
Proof.
  unfold transferIssues.
  apply exitsOnly_bind.
  - apply (exitsOnly_weaken _ _ _ (fun H => or_introl H)),
      getAllGHMilestones_exit.
  - intros ghMilestones. apply exitsOnly_noExit.
    apply noExit_bind; [apply noExit_await | intros issues; cbv zeta].
    apply noExit_bind; [apply getAllGHIssues_noExit | intros ghIssues].
    apply noExit_bind; [unfold inform; repeat noExit_step |].
    intros _. apply noExit_bind.
    + intros code. rewrite gapLoop_result. discriminate.
    + intros filled. apply noExit_forOf. intros issue.
      destruct (findGHIssue ghIssues issue).
      * repeat noExit_step.
      * apply noExit_bind; [apply noExit_emit | intros _].
        apply noExit_tryCatch;
          [apply createIssueAndComments_noExit | intros e].
        repeat noExit_step.
Qed.

Lemma transferMergeRequests_exit (settings : Settings) (W : World)
    (projectId : ProjectId) :
  exitsOnly (listingFailed settings W)
            (transferMergeRequests settings W (github_owner settings)
                                   (github_repo settings) projectId).
Proof.
  unfold transferMergeRequests.
  apply exitsOnly_bind; [apply exitsOnly_noExit, noExit_await |].
  intros mergeRequests. cbv zeta.
  apply exitsOnly_bind.
  - apply (exitsOnly_weaken _ _ _
             (fun H => or_intror (or_intror H))),
      getAllGHPullRequests_exit.
  - intros ghPullRequests. apply exitsOnly_noExit.
    apply noExit_bind; [unfold inform; repeat noExit_step |].
    intros _. apply noExit_forOf. intros mr.
    destruct (findGHPullRequest ghPullRequests mr).
    + repeat noExit_step.
    + apply noExit_bind; [apply noExit_emit | intros _].
      apply noExit_tryCatch;
        [apply createPRAndComments_noExit | intros e].
      repeat noExit_step.
Qed.

(** X17.  Every call of [process.exit] that [migrate] reaches has the
    code 1 and follows a failed listing of the destination (milestones,
    label names, issues).  No failure of the source, of the rate limit, of
    the settings or of a write makes the script call [process.exit]: such
    a failure leaves [migrate] as a thrown error or as a rejection without
    a handler, and what becomes of the process then is the doing of the
    runtime. *)
Theorem migrate_exits_only_for_listings (settings : Settings) (W : World)
    (formatDate : string -> string) (code : Z) :
  result (migrate settings W formatDate) = Exit code ->
  code = 1%Z /\ listingFailed settings W.
Proof.
  revert code. change (exitsOnly (listingFailed settings W)
                         (migrate settings W formatDate)).
  unfold migrate.
  apply exitsOnly_bind; [apply exitsOnly_noExit, noExit_await |].
  intros rate.
  do 4 (apply exitsOnly_bind; [apply exitsOnly_noExit, noExit_emit |];
        intros _).
  apply exitsOnly_bind; [apply transferMilestones_exit | intros _].
  apply exitsOnly_bind;
    [apply exitsOnly_noExit; repeat noExit_step | intros useLowerCase].
  apply exitsOnly_bind; [apply transferLabels_exit | intros _].
  apply exitsOnly_bind; [apply transferIssues_exit | intros _].
  apply exitsOnly_bind; [apply transferMergeRequests_exit | intros _].
  apply exitsOnly_noExit. repeat noExit_step.
Qed.

Lemma migrate_exits_only_for_listings_witness :
  1%Z = 1%Z /\ listingFailed demoSettings unreadableMilestonesWorld.
Proof.
  exact (migrate_exits_only_for_listings demoSettings
           unreadableMilestonesWorld demoFormat 1 eq_refl).
Defined.

Lemma unhandled_rejection {A : Type} (answer : error + A) :
  unhandled (rejection answer) = refusal answer.
Proof. destruct answer; reflexivity. Qed.

Lemma transferLabels_settled (settings : Settings) (W : World)
    (projectId : ProjectId) (attachmentLabel useLowerCase : bool) :
  always settled
         (transferLabels settings W projectId attachmentLabel useLowerCase).
Proof.
  unfold transferLabels, getAllGHLabelNames, inform.
  repeat first
    [ apply always_dropPromise_kept;
        [intros; apply createLabel_caught |]
    | always_step ];
    try exact I.
  all: unfold createLabel; repeat always_step; exact I.
Qed.

(** X18.  When the milestones of both sides can be read,
    [transferMilestones] returns normally, and every creation that the
    destination refuses is left as a rejection without a handler, in the
    order of the creations: the script neither waits for it nor catches
    it.  [transferLabels] leaves no such rejection, whatever the
    destination answers: it gives the promise of every creation a handler
    before it drops it. *)
Theorem transferMilestones_leaves_rejections (settings : Settings)
    (W : World) (projectId : ProjectId) (milestones : list Milestone)
    (ghMilestones : list GhMilestone) :
  gl_milestones W projectId = inr milestones ->
  gh_milestones W (github_owner settings) (github_repo settings)
  = inr ghMilestones ->
  result (transferMilestones settings W projectId) = Return tt
  /\ unhandled (trace (transferMilestones settings W projectId))
     = flat_map
         (fun milestone =>
            refusal (gh_createMilestone W
                       (milestoneProps (github_owner settings)
                          (github_repo settings) milestone)))
         (filter (milestoneMissing ghMilestones)
                 (jsSort (byId ms_id) milestones))
  /\ forall attachmentLabel useLowerCase,
       unhandled (trace (transferLabels settings W projectId
                           attachmentLabel useLowerCase)) = [].
Proof.
  intros Hms Hgh.
  split; [exact (transferMilestones_returns settings W projectId milestones
                   ghMilestones Hms Hgh) |].
  split; [| intros; apply settled_unhandled, transferLabels_settled].
  unfold transferMilestones, getAllGHMilestones, await.
  rewrite Hms, Hgh. cbn [tryCatch]. rewrite bind_return. cbv beta zeta.
  rewrite bind_return. cbv beta.
  rewrite (forOf_events _ _ _
             (fun m _ => transferMilestones_turn settings W ghMilestones m)).
  rewrite inform_run, bind_return.
  cbn [trace result fst snd app unhandled].
  rewrite unhandled_milestone_turns.
  induction (filter (milestoneMissing ghMilestones)
               (jsSort (byId ms_id) milestones)) as [| m l IH];
    [reflexivity |].
  cbn [flat_map]. rewrite IH, unhandled_rejection. reflexivity.
Qed.

(** A destination that refuses every creation: the rejection of the one
    milestone is left without a handler. *)
Lemma transferMilestones_leaves_rejections_witness :
  unhandled (trace (transferMilestones demoSettings rejectingWorld 5))
  = [ApiError "Validation Failed"].
Proof.
  exact (proj1 (proj2 (transferMilestones_leaves_rejections demoSettings
                         rejectingWorld 5 [milestoneV1] []
                         eq_refl eq_refl))).
Defined.
